(** * A shallow embedding of the protocol-translation gateway (app.mjs)

    The development follows the source file top to bottom:
    - the model capability cache ([getModelConfig]),
    - the circuit breaker and retry wrapper ([getCompletionWithRetry]),
    - the request translation done at the start of the POST /v1/messages
      handler,
    - the streaming loop that turns upstream deltas into SSE events,
    - the handler itself with its single try/catch.

    Effects are threaded through a small state-and-exception monad over a
    [World] record.  The upstream API, the clock and the file system are
    scripted by an [Env] record, so every definition computes.  Logging
    calls ([logToFile], [console.*]) have no influence on control flow (their
    failures are swallowed) and are left out of the handler; they are
    modelled on their own.  A resolution of a model name is split at its
    [await], so that overlapping resolutions can be told apart from
    resolutions that run one after the other.

    A JavaScript string is a [string] whose characters stand for code units
    below 256.  The request body is typed: fields the handler reads are
    record fields, optional where the handler copes with their absence or
    fails on it. *)

From stdpp Require Import gmap strings list fin_maps pretty.
From Stdlib Require Import ZArith QArith Lia Ascii Sorted.

Local Open Scope Z_scope.

(** ** JavaScript values used by the gateway *)

(** [new Error(message)]; only [error.message] is ever read. *)
Record Error := mkError { message : string }.

(** Truthiness of an optional string: [undefined] and the empty string are
    falsy. *)
Definition truthy_string (s : option string) : bool :=
  match s with
  | Some EmptyString | None => false
  | Some _ => true
  end.

(** Truthiness of an optional number: [undefined] and [0] are falsy. *)
Definition truthy_number (n : option Z) : bool :=
  match n with
  | Some 0 | None => false
  | Some _ => true
  end.

(** [a || b] on optional numbers. *)
Definition or_number (a b : option Z) : option Z :=
  if truthy_number a then a else b.

(** [Array.prototype.includes] on strings. *)
Definition includes (l : list string) (s : string) : bool :=
  bool_decide (s ∈ l).

(** [s.startsWith(p)]. *)
Definition startsWith (s p : string) : bool := String.prefix p s.

(** ** Configuration constants (lines 75-80) *)

Definition allowedModels : list string :=
  ["o1"; "o1-mini"; "o3"; "o3-mini"; "gpt-4o-mini"; "gpt-4o"; "gpt-4"].

(** ** Model capability profile and its cache *)

Record ModelConfig := mkModelConfig { cfg_max_tokens : Z }.

(** The cache is the plain object literal [{}], so a read
    [modelConfigCache[name]] also sees the members every object inherits
    from [Object.prototype]; all of them are truthy. *)
Definition objectPrototypeMembers : list string :=
  ["constructor"; "__defineGetter__"; "__defineSetter__"; "hasOwnProperty";
   "__lookupGetter__"; "__lookupSetter__"; "isPrototypeOf";
   "propertyIsEnumerable"; "toString"; "valueOf"; "__proto__";
   "toLocaleString"].

(** What [getModelConfig] hands back: one of its own [{ max_tokens }]
    objects, or an inherited member when the name collides with one. *)
Inductive ResolvedConfig :=
| Profile (c : ModelConfig)
| Inherited (member : string).

(** [modelConfig.max_tokens]; an inherited member has no such property. *)
Definition max_tokens_of (r : ResolvedConfig) : option Z :=
  match r with
  | Profile c => Some (cfg_max_tokens c)
  | Inherited _ => None
  end.

(** The prefix chain of lines 92-106, in source order (the [o1-mini] test
    sits behind the [o1] test). *)
Definition maxCompletionTokensFor (modelName : string) : Z :=
  if startsWith modelName "gpt-4o-mini" then 16384
  else if startsWith modelName "gpt-4o" then 16384
  else if startsWith modelName "o1" then 32000
  else if startsWith modelName "o1-mini" then 64000
  else if startsWith modelName "o3-mini" then 100000
  else if startsWith modelName "gpt-4" then 4096
  else 16384.

(** ** Circuit breaker state (lines 119-124) *)

Record CircuitBreaker := mkBreaker {
  failureCount : Z;
  threshold : Z;
  open : bool;
  openUntil : Z;
}.

Definition circuitBreaker0 : CircuitBreaker :=
  {| failureCount := 0; threshold := 3; open := false; openUntil := 0 |}.

Definition maxAttempts : Z := 10.

(** ** Upstream deltas *)

(** [toolCall.function] of a streamed tool-call fragment. *)
Record ToolCallFunction := mkToolFn {
  fn_name : option string;
  fn_arguments : option string;
}.

(** [chunk.choices[0].delta]: [tool_calls] and [content] are both optional. *)
Record Delta := mkDelta {
  tool_calls : option (list ToolCallFunction);
  content : option string;
}.

(** A chunk together with the wall-clock reading while it is handled (the
    loop body for one chunk runs without suspension). *)
Record Chunk := mkChunk { arrivedAt : Z; delta : Delta }.

(** The async iterable returned by the upstream call: it yields [chunks]
    and then either finishes or throws. *)
Record Completion := mkCompletion {
  chunks : list Chunk;
  streamError : option Error;
}.

Definition textDelta (s : string) : Delta :=
  {| tool_calls := None; content := Some s |}.

Definition toolDelta (name : option string) (args : option string) : Delta :=
  {| tool_calls := Some [ {| fn_name := name; fn_arguments := args |} ];
     content := None |}.

(** ** File extraction (lines 157-177) *)

(** [\s] and [trim] on code units below 256: tab to carriage return,
    space, and the no-break space. *)
Definition isWhiteSpace (c : ascii) : bool :=
  let n := N_of_ascii c in
  ((9 <=? n) && (n <=? 13) || (n =? 32) || (n =? 160))%N.

(** [\w] *)
Definition isWordChar (c : ascii) : bool :=
  let n := N_of_ascii c in
  ((48 <=? n) && (n <=? 57) || (65 <=? n) && (n <=? 90)
   || (97 <=? n) && (n <=? 122) || (n =? 95))%N.

(** [[\w/.\-]] *)
Definition isFileNameChar (c : ascii) : bool :=
  let n := N_of_ascii c in
  (isWordChar c || (n =? 47) || (n =? 46) || (n =? 45))%N.

Fixpoint skipWhile (p : ascii → bool) (s : string) : string :=
  match s with
  | String c rest => if p c then skipWhile p rest else s
  | EmptyString => EmptyString
  end.

Fixpoint takeWhile (p : ascii → bool) (s : string) : string :=
  match s with
  | String c rest => if p c then String c (takeWhile p rest) else EmptyString
  | EmptyString => EmptyString
  end.

(** The longest prefix of [s] that ends in [.tf]. *)
Fixpoint longestTfPrefix (s : string) : option string :=
  match s with
  | EmptyString => None
  | String c rest =>
      match longestTfPrefix rest with
      | Some p => Some (String c p)
      | None => if String.prefix ".tf" s then Some ".tf" else None
      end
  end.

(** The regular expression tried at one position: box-drawing characters
    (none below 256), white space, then the group [[\w/.\-]+\.tf], whose
    greedy [+] makes it the longest such text.  Returns the group. *)
Definition matchTfAt (s : string) : option string :=
  match takeWhile isFileNameChar (skipWhile isWhiteSpace s) with
  | String c rest => String c <$> longestTfPrefix rest
  | EmptyString => None
  end.

(** [line.match(...)]: the leftmost position at which the expression
    matches; [match[1]]. *)
Fixpoint matchTf (line : string) : option string :=
  match matchTfAt line with
  | Some name => Some name
  | None =>
      match line with
      | String _ rest => matchTf rest
      | EmptyString => None
      end
  end.

(** [text.split("\n")] *)
Fixpoint splitLines (text : string) : list string :=
  match text with
  | EmptyString => [EmptyString]
  | String c rest =>
      if (N_of_ascii c =? 10)%N then EmptyString :: splitLines rest
      else
        match splitLines rest with
        | line :: lines => String c line :: lines
        | [] => [String c EmptyString]
        end
  end.

(** [line.trim() === ""] *)
Fixpoint isBlank (line : string) : bool :=
  match line with
  | String c rest => isWhiteSpace c && isBlank rest
  | EmptyString => true
  end.

(** [files[name] = value] on an object whose keys are kept in insertion
    order. *)
Fixpoint assign (name value : string) (files : list (string * string))
  : list (string * string) :=
  match files with
  | [] => [(name, value)]
  | (k, v) :: rest =>
      if bool_decide (k = name) then (k, value) :: rest
      else (k, v) :: assign name value rest
  end.

(** [files[name] += more] for a key that is present. *)
Fixpoint appendTo (name more : string) (files : list (string * string))
  : list (string * string) :=
  match files with
  | [] => []
  | (k, v) :: rest =>
      if bool_decide (k = name) then (k, v +:+ more) :: rest
      else (k, v) :: appendTo name more rest
  end.

Definition newline : string := String "010"%char EmptyString.

(** The loop over the lines, with [files] and [currentFile]. *)
Fixpoint parseLines (lines : list string) (files : list (string * string))
    (currentFile : option string) : list (string * string) :=
  match lines with
  | [] => files
  | line :: rest =>
      match matchTf line with
      | Some name => parseLines rest (assign name EmptyString files) (Some name)
      | None =>
          match currentFile with
          | Some name =>
              if isBlank line then parseLines rest files None
              else parseLines rest (appendTo name (line +:+ newline) files)
                     (Some name)
          | None => parseLines rest files None
          end
      end
  end.

(** [Object.entries(parseFilesFromText(text))] *)
Definition parseFilesFromText (text : string) : list (string * string) :=
  parseLines (splitLines text) [] None.

Section Gateway.

(** Opaque JSON payloads (tool schemas, structured message parts, parsed
    tool arguments) and the JSON built-ins used on them. *)
Context {JSON : Type}.
Variable JSON_stringify : JSON → string.
Variable JSON_parse : string → option JSON.
Variable js_truthy : JSON → bool.

(** ** Target-protocol request (the destructured [req.body]) *)

Record SystemBlock := mkSystem { sys_text : option string }.

Record ContentPart := mkPart {
  part_type : option string;
  part_text : option string;
  part_content : option JSON;
  part_rest : list (string * JSON);
}.

Inductive MessageContent :=
| ScalarContent (s : string)
| PartsContent (parts : list ContentPart).

Record Message := mkMessage { role : string; msg_content : MessageContent }.

Record ToolDefinition := mkTool {
  tool_name : string;
  description : option string;
  input_schema : option JSON;
}.

Record ChatRequest := mkRequest {
  req_model : option string;
  req_max_tokens : option Z;
  req_max_completion_tokens : option Z;
  req_messages : option (list Message);
  req_system : option (list SystemBlock);
  req_temperature : option Q;
  req_tools : option (list ToolDefinition);
  req_output_mode : option string;
}.

(** ** Upstream-protocol request ([data]) *)

(** [content] of an upstream message: a scalar (possibly [undefined], as
    for a system block without [text]) or the flattened parts. *)
Inductive UpstreamContent :=
| UpScalar (s : option string)
| UpParts (parts : list ContentPart).

Record UpstreamMessage := mkUpMessage {
  up_role : string;
  up_content : UpstreamContent;
}.

Record UpstreamTool := mkUpTool {
  up_name : string;
  up_description : string;
  up_parameters : option JSON;
}.

Record UpstreamRequest := mkData {
  data_model : string;
  data_messages : list UpstreamMessage;
  data_stream : bool;
  data_temperature : option Q;
  data_max_completion_tokens : option Z;
  data_max_tokens : option Z;
  data_tools : option (list UpstreamTool);
}.

(** ** SSE events and content blocks *)

Inductive BlockType := TextBlock | ToolUseBlock.

(** [input] of a tool-use block: the literal [{}] or a parsed value. *)
Inductive BlockInput := EmptyObject | Parsed (j : JSON).

(** An element of [currentContentBlocks].  The objects are mutated in
    place, so every property other than [type] is optional: a text block
    can acquire an [input] and a tool-use block a [text]. *)
Record ContentBlock := mkBlock {
  block_type : BlockType;
  block_text : option string;
  block_id : option string;
  block_name : option (option string);
  block_input : option BlockInput;
}.

Inductive SseEvent :=
| MessageStart (id model : string)
| TextBlockStart (index : nat)
| ToolBlockStart (index : nat) (id : string) (name : option string)
| TextDelta (index : nat) (text : string)
| InputJsonDelta (index : nat) (partial_json : string)
| ContentBlockStop (index : nat)
| FilesCreated (files : list string)
| MessageDelta (stop_reason : string) (blocks : list ContentBlock)
| MessageStop.

(** ** The HTTP response object *)

Record ErrorBody := mkErrorBody { status : string; body_message : string }.

(** [res]: [res.write] flushes the header block on first use; after that
    Node refuses any further header change. *)
Record Response := mkResponse {
  statusCode : Z;
  headers : list (string * string);
  headersSent : bool;
  written : list SseEvent;
  jsonBody : option ErrorBody;
  ended : bool;
}.

Definition freshResponse : Response :=
  {| statusCode := 200; headers := []; headersSent := false; written := [];
     jsonBody := None; ended := false |}.

(** ** World and environment *)

Record World := mkWorld {
  time : Z;
  modelConfigCache : gmap string ModelConfig;
  circuitBreaker : CircuitBreaker;
  res : Response;
  retrieved : list string;
  created : list UpstreamRequest;
  slept : list Z;
  disk : list (string * string);
}.

Inductive ChatOutcome :=
| ChatOk (settledAt : Z) (c : Completion)
| ChatFail (settledAt : Z) (e : Error).

(** The scripted collaborators.  The n-th call of each kind (counted over
    the life of the process) gets the n-th answer. *)
Record Env := mkEnv {
  defaultModel : string;
  modelsRetrieve : nat → string → bool;
  chatCreate : nat → UpstreamRequest → ChatOutcome;
  fsWriteFile : nat → string → string → option Error;
}.

Definition world0 : World :=
  {| time := 0; modelConfigCache := ∅; circuitBreaker := circuitBreaker0;
     res := freshResponse; retrieved := []; created := []; slept := [];
     disk := [] |}.

(** ** Field updates *)

Definition set_time (t : Z) (w : World) : World :=
  mkWorld t (modelConfigCache w) (circuitBreaker w) (res w) (retrieved w)
    (created w) (slept w) (disk w).

Definition set_cache (c : gmap string ModelConfig) (w : World) : World :=
  mkWorld (time w) c (circuitBreaker w) (res w) (retrieved w) (created w)
    (slept w) (disk w).

Definition set_breaker (b : CircuitBreaker) (w : World) : World :=
  mkWorld (time w) (modelConfigCache w) b (res w) (retrieved w) (created w)
    (slept w) (disk w).

Definition set_res (r : Response) (w : World) : World :=
  mkWorld (time w) (modelConfigCache w) (circuitBreaker w) r (retrieved w)
    (created w) (slept w) (disk w).

Definition set_retrieved (l : list string) (w : World) : World :=
  mkWorld (time w) (modelConfigCache w) (circuitBreaker w) (res w) l
    (created w) (slept w) (disk w).

Definition set_created (l : list UpstreamRequest) (w : World) : World :=
  mkWorld (time w) (modelConfigCache w) (circuitBreaker w) (res w)
    (retrieved w) l (slept w) (disk w).

Definition set_slept (l : list Z) (w : World) : World :=
  mkWorld (time w) (modelConfigCache w) (circuitBreaker w) (res w)
    (retrieved w) (created w) l (disk w).

Definition set_disk (d : list (string * string)) (w : World) : World :=
  mkWorld (time w) (modelConfigCache w) (circuitBreaker w) (res w)
    (retrieved w) (created w) (slept w) d.

(** ** The state-and-exception monad *)

Inductive Result (A : Type) :=
| Return (a : A)
| Throw (e : Error).
Arguments Return {A} a.
Arguments Throw {A} e.

Definition M (A : Type) : Type := World → World * Result A.

Definition ret {A} (a : A) : M A := fun w => (w, Return a).

Definition throw {A} (e : Error) : M A := fun w => (w, Throw e).

Definition bind {A B} (m : M A) (k : A → M B) : M B :=
  fun w =>
    match m w with
    | (w', Return a) => k a w'
    | (w', Throw e) => (w', Throw e)
    end.

(** [try { m } catch (e) { h e }] *)
Definition try_catch {A} (m : M A) (h : Error → M A) : M A :=
  fun w =>
    match m w with
    | (w', Return a) => (w', Return a)
    | (w', Throw e) => h e w'
    end.

Definition get : M World := fun w => (w, Return w).

Definition modify (f : World → World) : M unit := fun w => (f w, Return tt).

Notation "x <- c ;; k" := (bind c (fun x => k))
  (at level 100, c at next level, right associativity).
Notation "c ;;; k" := (bind c (fun _ => k))
  (at level 100, right associativity).

Definition attempt_ {A} (m : M A) : M (Result A) :=
  fun w => let '(w', r) := m w in (w', Return r).

(** [Date.now()] *)
Definition dateNow : M Z := fun w => (w, Return (time w)).

(** ** Collaborator calls *)

(** [await chatClient.models.retrieve(modelName)]: only success or failure
    of the lookup is observed, [modelInfo] is never read. *)
Definition modelsRetrieveCall (env : Env) (modelName : string) : M bool :=
  fun w =>
    (set_retrieved (retrieved w ++ [modelName]) w,
     Return (modelsRetrieve env (length (retrieved w)) modelName)).

(** [await chatClient.chat.completions.create(data)] *)
Definition chatCompletionsCreate (env : Env) (data : UpstreamRequest)
  : M Completion :=
  fun w =>
    let w1 := set_created (created w ++ [data]) w in
    match chatCreate env (length (created w)) data with
    | ChatOk t c => (set_time t w1, Return c)
    | ChatFail t e => (set_time t w1, Throw e)
    end.

(** [await new Promise(resolve => setTimeout(resolve, delay))] *)
Definition sleep (delay : Z) : M unit :=
  modify (fun w => set_slept (slept w ++ [delay]) w).

(** ** Model Capability Resolver (lines 87-116) *)

(** A resolution suspended at the [await] of line 90: its lookup has been
    issued, the code after the [await] has not run yet. *)
Record PendingLookup := mkPending {
  pending_name : string;
  pending_ok : bool;
}.

(** Lines 88-90, up to the [await]: the cache read and, on a miss, the
    lookup being issued.  A hit returns at once. *)
Definition getModelConfigBegin (env : Env) (modelName : string)
  : M (ResolvedConfig + PendingLookup) :=
  w <- get ;;
  match modelConfigCache w !! modelName with
  | Some c => ret (inl (Profile c))
  | None =>
      if includes objectPrototypeMembers modelName
      then ret (inl (Inherited modelName))
      else
        ok <- modelsRetrieveCall env modelName ;;
        ret (inr {| pending_name := modelName; pending_ok := ok |})
  end.

(** Lines 91-114: what runs once the lookup has settled, whatever happened
    to the cache in the meantime. *)
Definition getModelConfigResume (p : PendingLookup) : M ResolvedConfig :=
  let config :=
    if pending_ok p
    then {| cfg_max_tokens := maxCompletionTokensFor (pending_name p) |}
    else {| cfg_max_tokens := 16384 |} in
  modify (fun w => set_cache (<[pending_name p := config]> (modelConfigCache w)) w) ;;;
  ret (Profile config).

(** A resolution during whose [await] nothing else runs. *)
Definition getModelConfig (env : Env) (modelName : string)
  : M ResolvedConfig :=
  r <- getModelConfigBegin env modelName ;;
  match r with
  | inl config => ret config
  | inr p => getModelConfigResume p
  end.

(** ** Resilient Invoker (lines 126-155) *)

Definition circuitOpenError : Error :=
  {| message := "Circuit breaker open, try later." |}.

Definition withFailureCount (n : Z) (b : CircuitBreaker) : CircuitBreaker :=
  {| failureCount := n; threshold := threshold b; open := open b;
     openUntil := openUntil b |}.

Definition withOpen (o : bool) (b : CircuitBreaker) : CircuitBreaker :=
  {| failureCount := failureCount b; threshold := threshold b; open := o;
     openUntil := openUntil b |}.

Definition withOpenUntil (t : Z) (b : CircuitBreaker) : CircuitBreaker :=
  {| failureCount := failureCount b; threshold := threshold b; open := open b;
     openUntil := t |}.

Definition updBreaker (f : CircuitBreaker → CircuitBreaker) : M unit :=
  modify (fun w => set_breaker (f (circuitBreaker w)) w).

(** The [for] loop of lines 136-154.  [fuel] bounds the number of
    iterations; [maxAttempts] of it are enough because [attempt] starts at 1
    and grows by one per iteration.  Falling out of the loop makes the
    function return [undefined], rendered as [None]. *)
Fixpoint retryLoop (env : Env) (data : UpstreamRequest) (fuel : nat)
    (attempt delay : Z) : M (option Completion) :=
  match fuel with
  | O => ret None
  | S fuel' =>
      if attempt <=? maxAttempts then
        r <- attempt_ (chatCompletionsCreate env data) ;;
        match r with
        | Return completion =>
            updBreaker (withFailureCount 0) ;;;
            ret (Some completion)
        | Throw err =>
            updBreaker (fun b => withFailureCount (failureCount b + 1) b) ;;;
            w <- get ;;
            if failureCount (circuitBreaker w) >=? threshold (circuitBreaker w)
            then
              updBreaker (withOpen true) ;;;
              now <- dateNow ;;
              updBreaker (withOpenUntil (now + 30000)) ;;;
              throw err
            else if attempt =? maxAttempts then throw err
            else
              sleep delay ;;;
              retryLoop env data fuel' (attempt + 1) (delay * 2)
        end
      else ret None
  end.

Definition getCompletionWithRetry (env : Env) (data : UpstreamRequest)
  : M (option Completion) :=
  now <- dateNow ;;
  w <- get ;;
  (if open (circuitBreaker w) && (now <? openUntil (circuitBreaker w))
   then throw circuitOpenError
   else if open (circuitBreaker w) && (now >=? openUntil (circuitBreaker w))
   then
     updBreaker (withOpen false) ;;;
     updBreaker (withFailureCount 0)
   else ret tt) ;;;
  retryLoop env data (Z.to_nat maxAttempts) 1 1000.

(** ** Request Translator (lines 183-273) *)

Definition defaultSystemInstruction : string :=
  "You are running in Claude Code CLI, so if you are requested to create files, folders or run commands, execute it instead of outputing.".

(** Lines 197-201: [model || defaultModel], then the allow-list fallback. *)
Definition chooseModel (env : Env) (model : option string) : string :=
  let chosenModel :=
    if truthy_string model then default EmptyString model
    else defaultModel env in
  if includes allowedModels chosenModel then chosenModel
  else defaultModel env.

(** Lines 206-209. *)
Definition systemMessagesOf (system : option (list SystemBlock))
  : list UpstreamMessage :=
  map (fun item => {| up_role := "system"; up_content := UpScalar (sys_text item) |})
      (default [] system)
  ++ [ {| up_role := "system";
          up_content := UpScalar (Some defaultSystemInstruction) |} ].

(** Lines 215-225: one content part. *)
Definition flattenPart (it : ContentPart) : ContentPart :=
  let type :=
    match part_type it with
    | Some t => if includes ["tool_result"; "tool_use"] t then Some "text"
                else Some t
    | None => None
    end in
  if bool_decide (type = Some "text") then
    let text :=
      match part_content it with
      | Some c => if js_truthy c then JSON_stringify c
                  else default EmptyString (part_text it)
      | None => default EmptyString (part_text it)
      end in
    {| part_type := type; part_text := Some text; part_content := None;
       part_rest := part_rest it |}
  else
    {| part_type := type; part_text := part_text it;
       part_content := part_content it; part_rest := part_rest it |}.

(** Lines 211-232: one message. *)
Definition flattenMessage (item : Message) : UpstreamMessage :=
  match msg_content item with
  | PartsContent parts =>
      {| up_role := role item; up_content := UpParts (map flattenPart parts) |}
  | ScalarContent s =>
      {| up_role := role item; up_content := UpScalar (Some s) |}
  end.

Definition typeError (what : string) : Error :=
  {| message := "Cannot read properties of undefined (reading '" +:+ what +:+ "')" |}.

(** [messages.map(...)]: a missing [messages] has no [map]. *)
Definition flattenMessages (messages : option (list Message))
  : M (list UpstreamMessage) :=
  match messages with
  | Some l => ret (map flattenMessage l)
  | None => throw (typeError "map")
  end.

(** Lines 243-259: parameter negotiation, giving [temperature],
    [max_completion_tokens] and [max_tokens] of [data]. *)
Definition negotiate (isNewModel : bool) (modelConfig : ResolvedConfig)
    (req : ChatRequest) : option Q * option Z * option Z :=
  if isNewModel then
    let tokens := or_number (req_max_completion_tokens req) (req_max_tokens req) in
    let modelLimit := max_tokens_of modelConfig in
    let tokens :=
      match tokens, modelLimit with
      | Some t, Some limit =>
          if truthy_number tokens && (t >? limit) then modelLimit else tokens
      | _, _ => tokens
      end in
    (Some 1%Q, (if truthy_number tokens then tokens else None), None)
  else
    (req_temperature req, None,
     (if truthy_number (req_max_tokens req) then req_max_tokens req else None)).

(** Lines 262-272: [tools.map(...)], item by item; reading [.length] of a
    missing [description] throws. *)
Fixpoint mapTools (tools : list ToolDefinition) : M (list UpstreamTool) :=
  match tools with
  | [] => ret []
  | item :: rest =>
      match description item with
      | None => throw (typeError "length")
      | Some d =>
          let d' := if (1024 <? String.length d)%nat
                    then String.substring 0 1024 d else d in
          mapped <- mapTools rest ;;
          ret ({| up_name := tool_name item; up_description := d';
                  up_parameters := input_schema item |} :: mapped)
      end
  end.

(** Lines 197-273 as one computation: everything the handler does before
    the upstream chat call. *)
Definition translateRequest (env : Env) (req : ChatRequest)
  : M UpstreamRequest :=
  let chosenModel := chooseModel env (req_model req) in
  let isNewModel := includes allowedModels chosenModel in
  modelConfig <- getModelConfig env chosenModel ;;
  let systemMessages := systemMessagesOf (req_system req) in
  messages <- flattenMessages (req_messages req) ;;
  let '(temperature, max_completion_tokens, max_tokens) :=
    negotiate isNewModel modelConfig req in
  tools <- match req_tools req with
           | Some tools => l <- mapTools tools ;; ret (Some l)
           | None => ret None
           end ;;
  ret {| data_model := chosenModel;
         data_messages := systemMessages ++ messages;
         data_stream := true;
         data_temperature := temperature;
         data_max_completion_tokens := max_completion_tokens;
         data_max_tokens := max_tokens;
         data_tools := tools |}.

(** ** Stream Translator (lines 284-395) *)

(** The loop variables of the handler, with [fullOutput]. *)
Record StreamState := mkStream {
  contentBlockIndex : nat;
  currentContentBlocks : list ContentBlock;
  hasStartedTextBlock : bool;
  isToolUse : bool;
  toolUseJson : string;
  fullOutput : string;
}.

Definition streamState0 : StreamState :=
  {| contentBlockIndex := 0; currentContentBlocks := [];
     hasStartedTextBlock := false; isToolUse := false;
     toolUseJson := EmptyString; fullOutput := EmptyString |}.

(** [output_mode === "file"] *)
Definition isFileMode (output_mode : option string) : bool :=
  bool_decide (output_mode = Some "file").

Definition toolUseBlock (id : string) (name : option string) : ContentBlock :=
  {| block_type := ToolUseBlock; block_text := None; block_id := Some id;
     block_name := Some name; block_input := Some EmptyObject |}.

Definition textBlock : ContentBlock :=
  {| block_type := TextBlock; block_text := Some EmptyString; block_id := None;
     block_name := None; block_input := None |}.

(** [block.input = parsedJson] *)
Definition setInput (j : JSON) (b : ContentBlock) : ContentBlock :=
  {| block_type := block_type b; block_text := block_text b;
     block_id := block_id b; block_name := block_name b;
     block_input := Some (Parsed j) |}.

(** [block.text += s]; a missing [text] reads as [undefined] and is
    coerced to the string "undefined". *)
Definition appendText (s : string) (b : ContentBlock) : ContentBlock :=
  {| block_type := block_type b;
     block_text := Some (default "undefined" (block_text b) +:+ s);
     block_id := block_id b; block_name := block_name b;
     block_input := block_input b |}.

(** Lines 310-330: open a tool-use block unless one is open. *)
Definition openToolBlock (now : Z) (toolCall : ToolCallFunction)
    (st : StreamState) : StreamState * list SseEvent :=
  if isToolUse st then (st, [])
  else
    let id := "toolu_" +:+ pretty now in
    ({| contentBlockIndex := contentBlockIndex st;
        currentContentBlocks :=
          currentContentBlocks st ++ [toolUseBlock id (fn_name toolCall)];
        hasStartedTextBlock := hasStartedTextBlock st;
        isToolUse := true;
        toolUseJson := EmptyString;
        fullOutput := fullOutput st |},
     [ToolBlockStart (contentBlockIndex st) id (fn_name toolCall)]).

(** Lines 331-348: an argument fragment.  A failed parse, and equally a
    missing block at [contentBlockIndex], end in the empty [catch]. *)
Definition appendArguments (toolCall : ToolCallFunction) (st : StreamState)
  : StreamState * list SseEvent :=
  if truthy_string (fn_arguments toolCall) then
    let arguments := default EmptyString (fn_arguments toolCall) in
    let json := toolUseJson st +:+ arguments in
    let blocks :=
      match JSON_parse json with
      | Some parsedJson =>
          alter (setInput parsedJson) (contentBlockIndex st)
                (currentContentBlocks st)
      | None => currentContentBlocks st
      end in
    ({| contentBlockIndex := contentBlockIndex st;
        currentContentBlocks := blocks;
        hasStartedTextBlock := hasStartedTextBlock st;
        isToolUse := isToolUse st;
        toolUseJson := json;
        fullOutput := fullOutput st |},
     [InputJsonDelta (contentBlockIndex st) arguments])
  else (st, []).

(** Lines 350-352. *)
Definition accumulate (fileMode : bool) (text : string) (st : StreamState)
  : StreamState :=
  if fileMode then
    {| contentBlockIndex := contentBlockIndex st;
       currentContentBlocks := currentContentBlocks st;
       hasStartedTextBlock := hasStartedTextBlock st;
       isToolUse := isToolUse st;
       toolUseJson := toolUseJson st;
       fullOutput := fullOutput st +:+ text |}
  else st.

(** Lines 354-369: open a text block unless one was started. *)
Definition openTextBlock (st : StreamState) : StreamState * list SseEvent :=
  if hasStartedTextBlock st then (st, [])
  else
    ({| contentBlockIndex := contentBlockIndex st;
        currentContentBlocks := currentContentBlocks st ++ [textBlock];
        hasStartedTextBlock := true;
        isToolUse := isToolUse st;
        toolUseJson := toolUseJson st;
        fullOutput := fullOutput st |},
     [TextBlockStart (contentBlockIndex st)]).

(** Lines 370-383: append to the block at [contentBlockIndex] if there is
    one, and emit the text delta unless in file mode. *)
Definition emitText (fileMode : bool) (text : string) (st : StreamState)
  : StreamState * list SseEvent :=
  ({| contentBlockIndex := contentBlockIndex st;
      currentContentBlocks :=
        alter (appendText text) (contentBlockIndex st) (currentContentBlocks st);
      hasStartedTextBlock := hasStartedTextBlock st;
      isToolUse := isToolUse st;
      toolUseJson := toolUseJson st;
      fullOutput := fullOutput st |},
   if fileMode then [] else [TextDelta (contentBlockIndex st) text]).

(** Lines 384-393: text while a tool-use block is open closes that block. *)
Definition closeToolBlock (st : StreamState) : StreamState * list SseEvent :=
  ({| contentBlockIndex := S (contentBlockIndex st);
      currentContentBlocks := currentContentBlocks st;
      hasStartedTextBlock := false;
      isToolUse := false;
      toolUseJson := toolUseJson st;
      fullOutput := fullOutput st |},
   [ContentBlockStop (contentBlockIndex st)]).

(** The body of the [for await] loop for one chunk (lines 307-394): the new
    loop variables and the events written, in order. *)
Definition processDelta (fileMode : bool) (now : Z) (st : StreamState)
    (d : Delta) : StreamState * list SseEvent :=
  match tool_calls d with
  | Some (toolCall :: _) =>
      let '(st1, ev1) := openToolBlock now toolCall st in
      let '(st2, ev2) := appendArguments toolCall st1 in
      (st2, ev1 ++ ev2)
  | _ =>
      if truthy_string (content d) then
        let text := default EmptyString (content d) in
        let st1 := accumulate fileMode text st in
        if negb (isToolUse st1) then
          let '(st2, ev2) := openTextBlock st1 in
          let '(st3, ev3) := emitText fileMode text st2 in
          (st3, ev2 ++ ev3)
        else closeToolBlock st1
      else (st, [])
  end.

(** The whole loop over a stream that yields [cs], without the writes. *)
Fixpoint processStream (fileMode : bool) (cs : list Chunk) (st : StreamState)
  : StreamState * list SseEvent :=
  match cs with
  | [] => (st, [])
  | c :: cs' =>
      let '(st1, ev1) := processDelta fileMode (arrivedAt c) st (delta c) in
      let '(st2, ev2) := processStream fileMode cs' st1 in
      (st2, ev1 ++ ev2)
  end.

(** ** Response operations *)

Definition headersSentError : Error :=
  {| message := "Cannot set headers after they are sent to the client" |}.

(** [res.setHeader(name, value)] *)
Definition resSetHeader (name value : string) : M unit :=
  fun w =>
    let r := res w in
    if headersSent r then (w, Throw headersSentError)
    else
      (set_res {| statusCode := statusCode r;
                  headers := headers r ++ [(name, value)];
                  headersSent := false; written := written r;
                  jsonBody := jsonBody r; ended := ended r |} w,
       Return tt).

(** [res.write(`event: ...\ndata: ...\n\n`)]: the first write sends the
    header block. *)
Definition resWrite (ev : SseEvent) : M unit :=
  modify (fun w =>
    let r := res w in
    set_res {| statusCode := statusCode r; headers := headers r;
               headersSent := true; written := written r ++ [ev];
               jsonBody := jsonBody r; ended := ended r |} w).

Fixpoint resWriteAll (evs : list SseEvent) : M unit :=
  match evs with
  | [] => ret tt
  | ev :: evs' => resWrite ev ;;; resWriteAll evs'
  end.

(** [res.end()] *)
Definition resEnd : M unit :=
  modify (fun w =>
    let r := res w in
    set_res {| statusCode := statusCode r; headers := headers r;
               headersSent := true; written := written r;
               jsonBody := jsonBody r; ended := true |} w).

(** [res.status(code).json(body)]: once the header block is out, the status
    line can no longer change and [json] fails when it sets the content
    type; nothing is sent and the response is not ended. *)
Definition resStatusJson (code : Z) (body : ErrorBody) : M unit :=
  fun w =>
    let r := res w in
    if headersSent r then (w, Throw headersSentError)
    else
      (set_res {| statusCode := code; headers := headers r;
                  headersSent := true; written := written r;
                  jsonBody := Some body; ended := true |} w,
       Return tt).

(** ** Gateway Endpoint (lines 181-448) *)

(** The [for await] loop with its writes; a stream that breaks throws after
    its last chunk. *)
Fixpoint streamLoop (fileMode : bool) (cs : list Chunk) (err : option Error)
    (st : StreamState) : M StreamState :=
  match cs with
  | [] =>
      match err with
      | Some e => throw e
      | None => ret st
      end
  | c :: cs' =>
      modify (set_time (arrivedAt c)) ;;;
      now <- dateNow ;;
      let '(st1, evs) := processDelta fileMode now st (delta c) in
      resWriteAll evs ;;;
      streamLoop fileMode cs' err st1
  end.

(** Lines 410-414: write each parsed file, collecting the names.  [disk]
    is the log of the completed calls
    [fs.writeFile(path.join(process.cwd(), fileName), content)], in order,
    each with the file name as given and the content; a call creates the
    file or replaces it.  The [n]-th call fails when [fsWriteFile] says
    so. *)
Fixpoint writeFiles (env : Env) (entries : list (string * string))
    (createdFiles : list string) : M (list string) :=
  match entries with
  | [] => ret createdFiles
  | (fileName, fileContent) :: rest =>
      w <- get ;;
      match fsWriteFile env (length (disk w)) fileName fileContent with
      | Some e => throw e
      | None =>
          modify (fun w => set_disk (disk w ++ [(fileName, fileContent)]) w) ;;;
          writeFiles env rest (createdFiles ++ [fileName])
      end
  end.

(** Lines 278-438: everything after the upstream call has returned. *)
Definition streamResponse (env : Env) (output_mode : option string)
    (chosenModel : string) (completion : Completion) : M unit :=
  let fileMode := isFileMode output_mode in
  resSetHeader "Content-Type" "text/event-stream" ;;;
  resSetHeader "Cache-Control" "no-cache" ;;;
  resSetHeader "Connection" "keep-alive" ;;;
  now <- dateNow ;;
  let messageId := "msg_" +:+ pretty now in
  resWrite (MessageStart messageId chosenModel) ;;;
  st <- streamLoop fileMode (chunks completion) (streamError completion)
          streamState0 ;;
  resWrite (ContentBlockStop (contentBlockIndex st)) ;;;
  (if fileMode then
     createdFiles <- writeFiles env (parseFilesFromText (fullOutput st)) [] ;;
     resWrite (FilesCreated createdFiles)
   else ret tt) ;;;
  resWrite (MessageDelta (if isToolUse st then "tool_use" else "end_turn")
              (currentContentBlocks st)) ;;;
  resWrite MessageStop ;;;
  resEnd.

(** The [try] block of the handler.  The upstream call of line 275 goes
    straight to the client library.  The calls of [logToFile] and
    [console.*] in it (lines 195, 199, 248, 276, 404-406, 440) are left
    out: with [--debug] they append lines to [logs/app.log] through
    [fs.appendFile], which [disk] does not record. *)
Definition handlerBody (env : Env) (req : ChatRequest) : M unit :=
  data <- translateRequest env req ;;
  completion <- chatCompletionsCreate env data ;;
  streamResponse env (req_output_mode req)
    (chooseModel env (req_model req)) completion.

(** The handler with its [catch] (lines 441-447). *)
Definition postMessages (env : Env) (req : ChatRequest) : M unit :=
  try_catch (handlerBody env req)
    (fun error =>
       resStatusJson 400
         {| status := "error"; body_message := message error |}).

(** One request served by the process in state [w]: Express hands the
    handler a fresh response object. *)
Definition serve (env : Env) (req : ChatRequest) (w : World)
  : World * Result unit :=
  postMessages env req (set_res freshResponse w).

End Gateway.

Arguments Return {A} a.
Arguments Throw {A} e.
Arguments mkEnv {JSON} _ _ _ _.
Arguments mkRequest {JSON} _ _ _ _ _ _ _ _.
Arguments mkTool {JSON} _ _ _.
Arguments mkWorld {JSON} _ _ _ _ _ _ _ _.
Arguments world0 {JSON}.
Arguments freshResponse {JSON}.
Arguments streamState0 {JSON}.
Arguments MessageStop {JSON}.
Arguments ContentBlockStop {JSON} _.
Arguments TextBlockStart {JSON} _.
Arguments TextDelta {JSON} _ _.
Arguments ToolBlockStart {JSON} _ _ _.
Arguments InputJsonDelta {JSON} _ _.
Arguments FilesCreated {JSON} _.
Arguments MessageStart {JSON} _ _.

(** ** Observations used in the statements *)

(** How often the metadata of [name] has been looked up so far. *)
Definition lookupsOf {JSON} (name : string) (w : @World JSON) : nat :=
  length (filter (λ n, n = name) (retrieved w)).

(** Several requests served one after the other by the same process. *)
Fixpoint serveAll {JSON} (stringify : JSON → string)
    (parse : string → option JSON) (truthy : JSON → bool)
    (env : Env) (reqs : list ChatRequest) (w : World) : World :=
  match reqs with
  | [] => w
  | req :: reqs' =>
      serveAll stringify parse truthy env reqs'
        (serve stringify parse truthy env req w).1
  end.

(** *** Resolutions that overlap

    Node runs one piece of code at a time and switches only at an [await].
    While a resolution is suspended at line 90, and between two
    resolutions, other code of the process can run: another resolution
    reaches line 88, a suspended resolution (the [i]-th of those in flight)
    resumes because its lookup has settled, or a request is served. *)
Inductive ProcessEvent {JSON} :=
| ResolutionBegins (modelName : string)
| LookupSettles (i : nat)
| RequestServed (req : @ChatRequest JSON).

(** The process: the world and the resolutions in flight. *)
Definition processStep {JSON} (stringify : JSON → string)
    (parse : string → option JSON) (truthy : JSON → bool) (env : @Env JSON)
    (st : @World JSON * list PendingLookup) (ev : @ProcessEvent JSON)
  : World * list PendingLookup :=
  match ev with
  | ResolutionBegins modelName =>
      match getModelConfigBegin env modelName st.1 with
      | (w, Return (inr p)) => (w, st.2 ++ [p])
      | (w, _) => (w, st.2)
      end
  | LookupSettles i =>
      match st.2 !! i with
      | Some p => ((getModelConfigResume p st.1).1, delete i st.2)
      | None => st
      end
  | RequestServed req => ((serve stringify parse truthy env req st.1).1, st.2)
  end.

Definition runProcess {JSON} (stringify : JSON → string)
    (parse : string → option JSON) (truthy : JSON → bool) (env : @Env JSON)
    (evs : list (@ProcessEvent JSON)) (st : @World JSON * list PendingLookup)
  : World * list PendingLookup :=
  foldl (processStep stringify parse truthy env) st evs.

(** The event makes a resolution of [name] start. *)
Definition resolves {JSON} (env : @Env JSON) (name : string)
    (ev : @ProcessEvent JSON) : Prop :=
  match ev with
  | ResolutionBegins modelName => modelName = name
  | LookupSettles _ => False
  | RequestServed req => chooseModel env (req_model req) = name
  end.

(** One resolution of [name], with [during] running while it is suspended
    at its [await]; a cache hit does not suspend. *)
Definition resolveAmid {JSON} (stringify : JSON → string)
    (parse : string → option JSON) (truthy : JSON → bool) (env : @Env JSON)
    (name : string) (during : list (@ProcessEvent JSON))
    (st : @World JSON * list PendingLookup)
  : (World * list PendingLookup) * Result ResolvedConfig :=
  match getModelConfigBegin env name st.1 with
  | (w, Return (inl config)) => ((w, st.2), Return config)
  | (w, Return (inr p)) =>
      let st' := runProcess stringify parse truthy env during (w, st.2) in
      let '(w', r) := getModelConfigResume p st'.1 in
      ((w', st'.2), r)
  | (w, Throw e) => ((w, st.2), Throw e)
  end.

(** What the process knows about [name]: its cache entry and how often it
    was looked up. *)
Definition entryOf {JSON} (name : string) (w : @World JSON)
  : option ModelConfig * nat :=
  (modelConfigCache w !! name, lookupsOf name w).

Definition isBlockStart {JSON} (ev : @SseEvent JSON) : bool :=
  match ev with
  | TextBlockStart _ | ToolBlockStart _ _ _ => true
  | _ => false
  end.

Definition isToolBlockStart {JSON} (ev : @SseEvent JSON) : bool :=
  match ev with
  | ToolBlockStart _ _ _ => true
  | _ => false
  end.

Definition isBlockStop {JSON} (ev : @SseEvent JSON) : bool :=
  match ev with
  | ContentBlockStop _ => true
  | _ => false
  end.


Definition isFilesCreated {JSON} (ev : @SseEvent JSON) : bool :=
  match ev with
  | FilesCreated _ => true
  | _ => false
  end.

(** Events of the content-block lifecycle, the only ones the loop writes. *)
Definition isBlockEvent {JSON} (ev : @SseEvent JSON) : bool :=
  match ev with
  | TextBlockStart _ | ToolBlockStart _ _ _ | TextDelta _ _
  | InputJsonDelta _ _ | ContentBlockStop _ => true
  | _ => false
  end.

Definition countEvents {JSON} (p : @SseEvent JSON → bool)
    (evs : list SseEvent) : nat :=
  length (List.filter p evs).


(** [m] only moves the world along [R]. *)
Definition frames {JSON A} (R : relation (@World JSON)) (m : @M JSON A)
  : Prop :=
  ∀ w, R w (m w).1.

(** The world moves without changing what [f] observes. *)
Definition keeps {JSON B} (f : @World JSON → B) : relation (@World JSON) :=
  λ w w', f w' = f w.

(** [name] resolves to [r] in [w] without a lookup. *)
Definition resolvedAs {JSON} (w : @World JSON) (name : string)
    (r : ResolvedConfig) : Prop :=
  match r with
  | Profile c => modelConfigCache w !! name = Some c
  | Inherited m =>
      m = name ∧ modelConfigCache w !! name = None
      ∧ includes objectPrototypeMembers name = true
  end.

(** Resolved names stay resolved to the same value and are not looked up
    again. *)
Definition keepsResolved {JSON} : relation (@World JSON) :=
  λ w w', ∀ name r,
    resolvedAs w name r →
    resolvedAs w' name r ∧ lookupsOf name w' = lookupsOf name w.

Definition resolverView {JSON} (w : @World JSON) :=
  (modelConfigCache w, retrieved w).

(** The world right after an upstream call that settled at [t]. *)
Definition afterCall {JSON} (data : UpstreamRequest) (t : Z)
    (w : @World JSON) : World :=
  set_time t (set_created (created w ++ [data]) w).

(** [w'] is [w] after writing [evs] on a response whose header block is
    already out. *)
Definition streamed {JSON} (evs : list SseEvent) (w w' : @World JSON) : Prop :=
  written (res w') = written (res w) ++ evs
  ∧ headersSent (res w') = true
  ∧ jsonBody (res w') = jsonBody (res w)
  ∧ ended (res w') = ended (res w)
  ∧ statusCode (res w') = statusCode (res w)
  ∧ created w' = created w
  ∧ disk w' = disk w.

(** The events between [message_start] and [message_delta] of a stream
    that was consumed to its end: the loop's events, the trailing stop and,
    in file mode, the [files_created] event. *)
Definition streamBody {JSON} (parse : string → option JSON)
    (fileMode : bool) (c : Completion) : list SseEvent :=
  let p := processStream parse fileMode (chunks c) streamState0 in
  p.2 ++ ContentBlockStop (contentBlockIndex p.1)
      :: (if fileMode
          then [FilesCreated (map fst (parseFilesFromText (fullOutput p.1)))]
          else []).

(** The [message_delta] event closing such a stream. *)
Definition closingDelta {JSON} (parse : string → option JSON)
    (fileMode : bool) (c : Completion) : SseEvent :=
  let p := processStream parse fileMode (chunks c) streamState0 in
  MessageDelta (if isToolUse p.1 then "tool_use" else "end_turn")
    (currentContentBlocks p.1).

(** Everything written for a stream that was consumed to its end. *)
Definition completedStream {JSON} (parse : string → option JSON)
    (fileMode : bool) (model : string) (t : Z) (c : Completion)
  : list SseEvent :=
  MessageStart ("msg_" +:+ pretty t) model
    :: streamBody parse fileMode c
    ++ [closingDelta parse fileMode c; MessageStop].

(** Events that may stand between [message_start] and [message_delta]. *)
Definition isBodyEvent {JSON} (ev : @SseEvent JSON) : bool :=
  isBlockEvent ev || isFilesCreated ev.

(** ** Scenarios

    Concrete collaborators for the examples: JSON payloads are kept as
    their text and [scenarioParse] stands in for [JSON.parse] on the one
    argument text used below. *)

Definition dquote : string := String "034"%char EmptyString.
(** The argument text of the spec's scenario, an object with [x] set to 1. *)
Definition argsX : string := "{" +:+ dquote +:+ "x" +:+ dquote +:+ ":1}".

Definition scenarioParse (s : string) : option string :=
  if bool_decide (s = argsX) then Some s else None.

Definition scenarioTruthy (s : string) : bool :=
  negb (bool_decide (s = EmptyString)).

Definition scenarioStringify (s : string) : string := s.

(** The text [main.tf], a line break, [a = 1]: one file with one line. *)
Definition tfText : string := "main.tf" +:+ newline +:+ "a = 1".

(** An environment in which every metadata lookup succeeds or fails as
    [lookupOk] says, every chat call has outcome [outcome], and every file
    write succeeds. *)
Definition scriptedEnv (default : string) (lookupOk : bool)
    (outcome : ChatOutcome) : @Env string :=
  mkEnv default (λ _ _, lookupOk) (λ _ _, outcome) (λ _ _ _, None).

Definition userRequest (model : option string) (temperature : option Q)
    (max_tokens : option Z) (tools : option (list ToolDefinition))
    (output_mode : option string) : @ChatRequest string :=
  mkRequest model max_tokens None
    (Some [mkMessage "user" (ScalarContent "list files")])
    None temperature tools output_mode.

Definition scenarioServe :=
  serve scenarioStringify scenarioParse scenarioTruthy.

(** The delta sequence of the spec's streaming scenario. *)
Definition scenarioChunks : list Chunk :=
  [mkChunk 100 (textDelta "Hello");
   mkChunk 200 (toolDelta (Some "run") (Some argsX));
   mkChunk 300 (textDelta " world")].

(** Text followed by a tool call. *)
Definition textThenTool : list Chunk :=
  [mkChunk 100 (textDelta "Hello");
   mkChunk 200 (toolDelta (Some "run") (Some argsX))].

(** The generated text of a file-mode answer, in two deltas. *)
Definition tfChunks : list Chunk :=
  [mkChunk 100 (textDelta ("main.tf" +:+ newline));
   mkChunk 200 (textDelta "a = 1")].

Definition streamOf (cs : list Chunk) : ChatOutcome :=
  ChatOk 50 {| chunks := cs; streamError := None |}.

Definition connectionError : Error := {| message := "Connection error." |}.

Definition upstreamDown : ChatOutcome := ChatFail 5000 connectionError.

(** A stream that breaks after its first chunk. *)
Definition brokenStream : ChatOutcome :=
  ChatOk 50 {| chunks := [mkChunk 100 (textDelta "Hello")];
               streamError := Some connectionError |}.

Definition someData : @UpstreamRequest string :=
  {| data_model := "o3-mini"; data_messages := []; data_stream := true;
     data_temperature := Some 1%Q; data_max_completion_tokens := None;
     data_max_tokens := None; data_tools := None |}.

(** The process with its breaker open until 60000, at time 1000. *)
Definition breakerOpenWorld : @World string :=
  set_breaker {| failureCount := 3; threshold := 3; open := true;
                 openUntil := 60000 |}
    (set_time 1000 world0).

Definition toolWithoutDescription : @ToolDefinition string :=
  {| tool_name := "run"; description := None; input_schema := None |}.

(** ** Further observations *)

(** The block index an event refers to, if any. *)
Definition eventIndex {JSON} (ev : @SseEvent JSON) : option nat :=
  match ev with
  | TextBlockStart i | ToolBlockStart i _ _ | TextDelta i _
  | InputJsonDelta i _ | ContentBlockStop i => Some i
  | _ => None
  end.

(** A delta that reaches the tool branch of the loop. *)
Definition isToolDelta (d : Delta) : bool :=
  match tool_calls d with
  | Some (_ :: _) => true
  | _ => false
  end.

(** A delta that reaches the text branch of the loop. *)
Definition isTextDeltaIn (d : Delta) : bool :=
  negb (isToolDelta d) && truthy_string (content d).

(** The text fragments of a stream, in order. *)
Definition textFragments (cs : list Chunk) : list string :=
  omap (λ c, if isTextDeltaIn (delta c) then content (delta c) else None) cs.

(** [toolCall.function.name] of the tool call a chunk carries. *)
Definition firstToolName (c : Chunk) : option string :=
  match tool_calls (delta c) with
  | Some (toolCall :: _) => fn_name toolCall
  | _ => None
  end.

(** The non-empty argument fragments of the tool-call deltas, in order. *)
Definition argumentFragments (cs : list Chunk) : list string :=
  omap (λ c,
          match tool_calls (delta c) with
          | Some (toolCall :: _) =>
              if truthy_string (fn_arguments toolCall)
              then fn_arguments toolCall else None
          | _ => None
          end) cs.

Fixpoint concatStrings (l : list string) : string :=
  match l with
  | [] => EmptyString
  | s :: l' => s +:+ concatStrings l'
  end.


(** [s] ends with [suffix]. *)
Definition endsWith (s suffix : string) : Prop := ∃ t, s = t +:+ suffix.

Fixpoint allChars (p : ascii → bool) (s : string) : bool :=
  match s with
  | String c rest => p c && allChars p rest
  | EmptyString => true
  end.

(** What a name produced by [parseFilesFromText] looks like. *)
Definition isTfName (name : string) : Prop :=
  endsWith name ".tf" ∧ allChars isFileNameChar name = true
  ∧ (4 ≤ String.length name)%nat.


(** The [input] of a tool-use block after the argument fragments [frags]
    have been added to the buffer [acc]: each fragment that completes a
    parsable text replaces the input. *)
Fixpoint parsedInput {JSON} (parse : string → option JSON) (acc : string)
    (frags : list string) (input : option (@BlockInput JSON))
  : option BlockInput :=
  match frags with
  | [] => input
  | f :: frags' =>
      parsedInput parse (acc +:+ f) frags'
        (match parse (acc +:+ f) with
         | Some j => Some (Parsed j)
         | None => input
         end)
  end.

(** The world moves by writing files with [.tf] names only. *)
Definition writesTfFiles {JSON} : relation (@World JSON) :=
  λ w w', ∃ l, disk w' = disk w ++ l ∧ Forall isTfName (map fst l).

(** ** Logging (lines 10-60)

    The logging calls on their own; the handler above is modelled without
    them. *)

(** The two command-line switches read at lines 10-11. *)
Record Flags : Type := mkFlags {
  debug : bool;
  outputFallbackToConsole : bool
}.

Inductive Level : Type := LevelLog | LevelError | LevelWarn | LevelInfo.

(** What a logging call does: append a line to [logs/app.log], or call one
    of the original console methods. *)
Inductive Output : Type :=
| AppendLog (line : string)
| Terminal (level : Level) (args : list string).

Definition isTerminal (o : Output) : bool :=
  match o with
  | Terminal _ _ => true
  | AppendLog _ => false
  end.

(** [logToFile] (lines 24-28); [timestamp] is [new Date().toISOString()]. *)
Definition logToFile (flags : Flags) (timestamp message : string)
  : list Output :=
  if debug flags
  then [AppendLog ("[" +:+ timestamp +:+ "] " +:+ message +:+ newline)]
  else [].

(** [Array.prototype.join]. *)
Fixpoint join (sep : string) (args : list string) : string :=
  match args with
  | [] => ""
  | [a] => a
  | a :: rest => a +:+ sep +:+ join sep rest
  end.

(** [String.prototype.includes]. *)
Fixpoint stringIncludes (s needle : string) : bool :=
  String.prefix needle s
  || match s with
     | EmptyString => false
     | String _ rest => stringIncludes rest needle
     end.

(** The overridden [console.log] (lines 35-38). *)
Definition consoleLog (flags : Flags) (timestamp : string)
    (args : list string) : list Output :=
  logToFile flags timestamp ("LOG: " +:+ join " " args)
  ++ (if outputFallbackToConsole flags then [Terminal LevelLog args] else []).

(** The overridden [console.error] (lines 40-43). *)
Definition consoleError (flags : Flags) (timestamp : string)
    (args : list string) : list Output :=
  logToFile flags timestamp ("ERROR: " +:+ join " " args)
  ++ (if outputFallbackToConsole flags then [Terminal LevelError args] else []).

(** The overridden [console.warn] (lines 45-50). *)
Definition consoleWarn (flags : Flags) (timestamp : string)
    (args : list string) : list Output :=
  logToFile flags timestamp ("WARN: " +:+ join " " args)
  ++ (let message := join " " args in
      if stringIncludes message "is not allowed. Falling back" then []
      else [Terminal LevelWarn args]).

(** The overridden [console.info] (lines 52-60). *)
Definition consoleInfo (flags : Flags) (timestamp : string)
    (args : list string) : list Output :=
  logToFile flags timestamp ("INFO: " +:+ join " " args)
  ++ (let message := join " " args in
      if stringIncludes message "Claude Code Interceptor listening on port"
      then [Terminal LevelInfo args]
      else if outputFallbackToConsole flags then [Terminal LevelInfo args]
      else []).

(** The text of the warning of line 199. *)
Definition fallbackWarning (chosenModel defaultModel : string) : string :=
  "Model " +:+ chosenModel +:+ " is not allowed. Falling back to "
  +:+ defaultModel +:+ ".".

(** ** Texts that list files *)

(** Lines, each followed by a line break. *)
Definition linesOf (ls : list string) : string :=
  concatStrings (map (λ l, l +:+ newline) ls).

Definition isLineBreak (c : ascii) : bool := (N_of_ascii c =? 10)%N.

(** A line that can stand in a file's content: it holds no line break, is
    not blank and names no [.tf] file. *)
Definition isContentLine (l : string) : Prop :=
  allChars (λ c, negb (isLineBreak c)) l = true
  ∧ isBlank l = false
  ∧ matchTf l = None.

(** A text that lists files: for each file its name on a line of its own,
    followed by the lines of its content. *)
Definition renderFiles (fs : list (string * list string)) : string :=
  join newline (flat_map (λ f, f.1 :: f.2) fs).

(** An environment whose first metadata lookup fails and whose later ones
    succeed. *)
Definition recoveringEnv : @Env string :=
  mkEnv "o3-mini" (λ n _, negb (n =? 0)%nat) (λ _ _, streamOf [])
    (λ _ _ _, None).

(** * Properties *)

Section Properties.
Context {JSON : Type}.
Variable JSON_stringify : JSON → string.
Variable JSON_parse : string → option JSON.
Variable js_truthy : JSON → bool.

Local Abbreviation World := (@World JSON).
Local Abbreviation M := (@M JSON).
Implicit Types (w : World) (env : @Env JSON) (req : @ChatRequest JSON).

Lemma frames_ret {A} (R : relation World) `{!Reflexive R} (a : A) :
  frames R (ret a).
Proof. intros w. reflexivity. Qed.

Lemma frames_throw {A} (R : relation World) `{!Reflexive R} (e : Error) :
  frames R (throw (A:=A) e).
Proof. intros w. reflexivity. Qed.

Lemma frames_get (R : relation World) `{!Reflexive R} : frames R get.
Proof. intros w. reflexivity. Qed.

Lemma frames_dateNow (R : relation World) `{!Reflexive R} : frames R dateNow.
Proof. intros w. reflexivity. Qed.

Lemma frames_modify (R : relation World) (f : World → World) :
  (∀ w, R w (f w)) → frames R (modify f).
Proof. intros H w. apply H. Qed.

Lemma frames_bind {A B} (R : relation World) `{!Transitive R}
    (m : M A) (k : A → M B) :
  frames R m → (∀ a, frames R (k a)) → frames R (bind m k).
Proof.
  intros Hm Hk w. unfold bind. specialize (Hm w).
  destruct (m w) as [w1 [a|e]]; simpl in *.
  - etransitivity; [exact Hm | apply Hk].
  - exact Hm.
Qed.

Lemma frames_try_catch {A} (R : relation World) `{!Transitive R}
    (m : M A) (h : Error → M A) :
  frames R m → (∀ e, frames R (h e)) → frames R (try_catch m h).
Proof.
  intros Hm Hh w. unfold try_catch. specialize (Hm w).
  destruct (m w) as [w1 [a|e]]; simpl in *.
  - exact Hm.
  - etransitivity; [exact Hm | apply Hh].
Qed.

Lemma frames_attempt {A} (R : relation World) (m : M A) :
  frames R m → frames R (attempt_ m).
Proof.
  intros Hm w. unfold attempt_. specialize (Hm w).
  destruct (m w) as [w1 r]. exact Hm.
Qed.

Lemma frames_weaken {A} (R R' : relation World) (m : M A) :
  (∀ w w', R w w' → R' w w') → frames R m → frames R' m.
Proof. intros H Hm w. apply H, Hm. Qed.

#[local] Instance keeps_refl {B} (f : World → B) : Reflexive (keeps f).
Proof. intros w. reflexivity. Qed.

#[local] Instance keeps_trans {B} (f : World → B) : Transitive (keeps f).
Proof. intros w1 w2 w3 H1 H2. unfold keeps in *. congruence. Qed.

#[local] Instance keepsResolved_refl : Reflexive (@keepsResolved JSON).
Proof. intros w name r H. split; [exact H | reflexivity]. Qed.

#[local] Instance keepsResolved_trans : Transitive (@keepsResolved JSON).
Proof.
  intros w1 w2 w3 H12 H23 name r H.
  destruct (H12 name r H) as [H2 E2].
  destruct (H23 name r H2) as [H3 E3].
  split; [exact H3 | congruence].
Qed.

(** *** Model Capability Resolver *)


Lemma keeps_resolverView w w' :
  keeps resolverView w w' → keepsResolved w w'.
Proof.
  unfold keeps, resolverView. intros [= Hc Hr] name r H.
  unfold resolvedAs, lookupsOf in *. rewrite Hc, Hr. split; [exact H | reflexivity].
Qed.

Lemma lookupsOf_snoc name name' w :
  lookupsOf name (set_retrieved (retrieved w ++ [name']) w)
  = (lookupsOf name w + if bool_decide (name' = name) then 1 else 0)%nat.
Proof.
  unfold lookupsOf. simpl. rewrite filter_app, length_app. f_equal.
  rewrite filter_cons. case_decide; case_bool_decide; simpl; congruence.
Qed.

(** The three ways a resolution can go. *)
Lemma getModelConfig_cases env name w :
  (∃ c, modelConfigCache w !! name = Some c
        ∧ getModelConfig env name w = (w, Return (Profile c)))
  ∨ (modelConfigCache w !! name = None
     ∧ includes objectPrototypeMembers name = true
     ∧ getModelConfig env name w = (w, Return (Inherited name)))
  ∨ (∃ c, modelConfigCache w !! name = None
        ∧ includes objectPrototypeMembers name = false
        ∧ getModelConfig env name w
          = (set_cache (<[name := c]> (modelConfigCache w))
               (set_retrieved (retrieved w ++ [name]) w),
             Return (Profile c))).
Proof.
  unfold getModelConfig, getModelConfigBegin, getModelConfigResume, bind, get.
  simpl.
  destruct (modelConfigCache w !! name) as [c|] eqn:Hc.
  - left. exists c. split; reflexivity.
  - right. destruct (includes objectPrototypeMembers name) eqn:Hp.
    + left. repeat split; reflexivity.
    + right. eexists. repeat split; reflexivity.
Qed.

Lemma getModelConfig_hit env name r w :
  resolvedAs w name r → getModelConfig env name w = (w, Return r).
Proof.
  intros H. destruct (getModelConfig_cases env name w)
    as [(c & Hc & ->) | [(Hc & Hp & ->) | (c & Hc & Hp & ->)]];
    destruct r as [c'|m]; simpl in H.
  - congruence.
  - destruct H as (_ & H & _). congruence.
  - congruence.
  - destruct H as (-> & _). reflexivity.
  - congruence.
  - destruct H as (_ & _ & H). congruence.
Qed.

Lemma getModelConfig_resolves env name w :
  ∃ r, (getModelConfig env name w).2 = Return r
       ∧ resolvedAs (getModelConfig env name w).1 name r
       ∧ (lookupsOf name (getModelConfig env name w).1 ≤ lookupsOf name w + 1)%nat.
Proof.
  destruct (getModelConfig_cases env name w)
    as [(c & Hc & ->) | [(Hc & Hp & ->) | (c & Hc & Hp & ->)]]; simpl.
  - exists (Profile c). repeat split; [exact Hc | lia].
  - exists (Inherited name). repeat split; [exact Hc | exact Hp | lia].
  - exists (Profile c). repeat split.
    + simpl. apply lookup_insert_eq.
    + pose proof (lookupsOf_snoc name name w) as E.
      unfold lookupsOf in *. simpl in *. rewrite E. case_bool_decide; lia.
Qed.

Lemma getModelConfig_keepsResolved env name' :
  frames keepsResolved (getModelConfig env name').
Proof.
  intros w name r H.
  destruct (decide (name' = name)) as [->|Hne].
  - rewrite (getModelConfig_hit env name r w H). simpl. split; [exact H | reflexivity].
  - destruct (getModelConfig_cases env name' w)
      as [(c & Hc & ->) | [(Hc & Hp & ->) | (c & Hc & Hp & ->)]]; simpl;
      try (split; [exact H | reflexivity]).
    split.
    + destruct r as [c'|m]; simpl in *.
      * rewrite lookup_insert_ne by exact Hne. exact H.
      * rewrite lookup_insert_ne by exact Hne. exact H.
    + pose proof (lookupsOf_snoc name name' w) as E.
      unfold lookupsOf in *. simpl in *. rewrite E.
      rewrite bool_decide_eq_false_2 by exact Hne. lia.
Qed.

(** *** Footprints of the handler's steps *)

Section Footprint.
Context {B : Type} (f : World → B).
Hypothesis f_res : ∀ r w, f (set_res r w) = f w.
Hypothesis f_time : ∀ t w, f (set_time t w) = f w.
Hypothesis f_disk : ∀ d w, f (set_disk d w) = f w.

Lemma resWrite_frames ev : frames (keeps f) (resWrite ev).
Proof. intros w. apply f_res. Qed.

Lemma resWriteAll_frames evs : frames (keeps f) (resWriteAll evs).
Proof.
  induction evs as [|ev evs IH]; simpl.
  - apply frames_ret, _.
  - apply frames_bind; [apply _ | apply resWrite_frames | intros _; exact IH].
Qed.

Lemma resSetHeader_frames k v : frames (keeps f) (resSetHeader k v).
Proof.
  intros w. unfold resSetHeader. destruct (headersSent (res w)); simpl.
  - reflexivity.
  - apply f_res.
Qed.

Lemma resEnd_frames : frames (keeps f) resEnd.
Proof. intros w. apply f_res. Qed.

Lemma resStatusJson_frames code body : frames (keeps f) (resStatusJson code body).
Proof.
  intros w. unfold resStatusJson. destruct (headersSent (res w)); simpl.
  - reflexivity.
  - apply f_res.
Qed.

Lemma streamLoop_frames fileMode cs err st :
  frames (keeps f) (streamLoop JSON_parse fileMode cs err st).
Proof.
  revert st. induction cs as [|c cs IH]; intros st; simpl.
  - destruct err; [apply frames_throw | apply frames_ret]; apply _.
  - apply frames_bind; [apply _ | apply frames_modify; intros w; apply f_time |].
    intros _. apply frames_bind; [apply _ | apply frames_dateNow, _ |].
    intros now. destruct (processDelta _ _ _ _ _) as [st1 evs].
    apply frames_bind; [apply _ | apply resWriteAll_frames | intros _; apply IH].
Qed.

Lemma writeFiles_frames env entries createdFiles :
  frames (keeps f) (writeFiles env entries createdFiles).
Proof.
  revert createdFiles. induction entries as [|[fileName fileContent] rest IH];
    intros createdFiles; simpl.
  - apply frames_ret, _.
  - apply frames_bind; [apply _ | apply frames_get, _ |].
    intros w0. destruct (fsWriteFile _ _ _ _).
    + apply frames_throw, _.
    + apply frames_bind; [apply _ | apply frames_modify; intros w; apply f_disk |].
      intros _. apply IH.
Qed.

Lemma streamResponse_frames env output_mode chosenModel completion :
  frames (keeps f)
    (streamResponse JSON_parse env output_mode chosenModel
       completion).
Proof.
  unfold streamResponse.
  repeat (apply frames_bind; [apply _ | apply resSetHeader_frames | intros _]).
  apply frames_bind; [apply _ | apply frames_dateNow, _ | intros now].
  apply frames_bind; [apply _ | apply resWrite_frames | intros _].
  apply frames_bind; [apply _ | apply streamLoop_frames | intros st].
  apply frames_bind; [apply _ | apply resWrite_frames | intros _].
  apply frames_bind; [apply _ | | intros _].
  - destruct (isFileMode output_mode).
    + apply frames_bind; [apply _ | apply writeFiles_frames | intros l].
      apply resWrite_frames.
    + apply frames_ret, _.
  - apply frames_bind; [apply _ | apply resWrite_frames | intros _].
    apply frames_bind; [apply _ | apply resWrite_frames | intros _].
    apply resEnd_frames.
Qed.

End Footprint.

Lemma chatCompletionsCreate_frames {B} (f : World → B) env data :
  (∀ l w, f (set_created l w) = f w) →
  (∀ t w, f (set_time t w) = f w) →
  frames (keeps f) (chatCompletionsCreate env data).
Proof.
  intros Hc Ht w. unfold chatCompletionsCreate, keeps.
  destruct (chatCreate _ _ _); simpl; rewrite Ht, Hc; reflexivity.
Qed.

Lemma getModelConfig_frames {B} (f : World → B) env name :
  (∀ c w, f (set_cache c w) = f w) →
  (∀ l w, f (set_retrieved l w) = f w) →
  frames (keeps f) (getModelConfig env name).
Proof.
  intros Hc Hr w. unfold keeps.
  destruct (getModelConfig_cases env name w)
    as [(c & _ & ->) | [(_ & _ & ->) | (c & _ & _ & ->)]]; simpl;
    [reflexivity | reflexivity |].
  rewrite Hc, Hr. reflexivity.
Qed.

Lemma mapTools_frames (R : relation World) `{!PreOrder R} tools :
  frames R (mapTools tools).
Proof.
  induction tools as [|item rest IH]; simpl.
  - apply frames_ret, _.
  - destruct (description item).
    + apply frames_bind; [apply _ | exact IH | intros mapped; apply frames_ret, _].
    + apply frames_throw, _.
Qed.

Lemma translateRequest_frames (R : relation World) `{!PreOrder R} env req :
  (∀ name, frames R (getModelConfig env name)) →
  frames R (translateRequest JSON_stringify js_truthy env req).
Proof.
  intros Hg. unfold translateRequest.
  apply frames_bind; [apply _ | apply Hg | intros modelConfig].
  apply frames_bind; [apply _ | | intros messages].
  { unfold flattenMessages. destruct (req_messages req);
      [apply frames_ret | apply frames_throw]; apply _. }
  destruct (negotiate _ _ _) as [[temperature mct] mt].
  apply frames_bind; [apply _ | | intros tools; apply frames_ret, _].
  destruct (req_tools req).
  - apply frames_bind; [apply _ | apply mapTools_frames, _ | intros mapped; apply frames_ret, _].
  - apply frames_ret, _.
Qed.

Lemma serve_frames (R : relation World) `{!PreOrder R} env req :
  (∀ r w, R w (set_res r w)) →
  (∀ name, frames R (getModelConfig env name)) →
  (∀ data, frames R (chatCompletionsCreate env data)) →
  (∀ mode model c,
     frames R (streamResponse JSON_parse env mode model c)) →
  (∀ code body, frames R (resStatusJson code body)) →
  ∀ w, R w (serve JSON_stringify JSON_parse js_truthy env req w).1.
Proof.
  intros Hres Hg Hc Hs Hj w. unfold serve.
  etransitivity; [apply (Hres freshResponse) |].
  apply (frames_try_catch R); [| intros e; apply Hj].
  unfold handlerBody.
  apply frames_bind; [apply _ | apply translateRequest_frames; [apply _ | exact Hg] |].
  intros data. apply frames_bind; [apply _ | apply Hc | intros c; apply Hs].
Qed.

#[local] Instance keeps_preorder {B} (f : World → B) : PreOrder (keeps f).
Proof. split; apply _. Qed.

#[local] Instance keepsResolved_preorder : PreOrder (@keepsResolved JSON).
Proof. split; apply _. Qed.

Lemma serve_keeps {B} (f : World → B) env req :
  (∀ r w, f (set_res r w) = f w) →
  (∀ t w, f (set_time t w) = f w) →
  (∀ d w, f (set_disk d w) = f w) →
  (∀ l w, f (set_created l w) = f w) →
  (∀ c w, f (set_cache c w) = f w) →
  (∀ l w, f (set_retrieved l w) = f w) →
  ∀ w, f (serve JSON_stringify JSON_parse js_truthy env req w).1 = f w.
Proof.
  intros Hres Ht Hd Hcr Hc Hr.
  apply (serve_frames (keeps f)).
  - intros r w. apply Hres.
  - intros name. apply getModelConfig_frames; assumption.
  - intros data. apply chatCompletionsCreate_frames; assumption.
  - intros mode model c. apply streamResponse_frames; assumption.
  - intros code body. apply resStatusJson_frames; assumption.
Qed.

Lemma serve_keepsResolved env req w :
  keepsResolved w
    (serve JSON_stringify JSON_parse js_truthy env req w).1.
Proof.
  apply (serve_frames keepsResolved).
  - intros r w0. apply keeps_resolverView. reflexivity.
  - intros name. apply getModelConfig_keepsResolved.
  - intros data. eapply frames_weaken; [apply keeps_resolverView |].
    apply chatCompletionsCreate_frames; reflexivity.
  - intros mode model c. eapply frames_weaken; [apply keeps_resolverView |].
    apply streamResponse_frames; reflexivity.
  - intros code body. eapply frames_weaken; [apply keeps_resolverView |].
    apply resStatusJson_frames; reflexivity.
Qed.

Lemma serveAll_keepsResolved env reqs w :
  keepsResolved w
    (serveAll JSON_stringify JSON_parse js_truthy env reqs w).
Proof.
  revert w. induction reqs as [|req reqs IH]; intros w; simpl.
  - reflexivity.
  - etransitivity; [apply serve_keepsResolved | apply IH].
Qed.

(** *** Resilient Invoker *)


Lemma retryLoop_trip env data fuel attempt delay w t e :
  attempt <= maxAttempts →
  chatCreate env (length (created w)) data = ChatFail t e →
  threshold (circuitBreaker w) <= failureCount (circuitBreaker w) + 1 →
  retryLoop env data (S fuel) attempt delay w
  = (set_breaker
       {| failureCount := failureCount (circuitBreaker w) + 1;
          threshold := threshold (circuitBreaker w);
          open := true;
          openUntil := t + 30000 |}
       (afterCall data t w),
     Throw e).
Proof.
  intros Ha Hc Hth. simpl. rewrite (proj2 (Z.leb_le _ _) Ha).
  unfold bind, attempt_, chatCompletionsCreate. rewrite Hc. simpl.
  rewrite (proj2 (Z.geb_le _ _) Hth). reflexivity.
Qed.

Lemma retryLoop_retry env data fuel attempt delay w t e :
  attempt < maxAttempts →
  chatCreate env (length (created w)) data = ChatFail t e →
  failureCount (circuitBreaker w) + 1 < threshold (circuitBreaker w) →
  retryLoop env data (S fuel) attempt delay w
  = retryLoop env data fuel (attempt + 1) (delay * 2)
      (set_slept (slept w ++ [delay])
         (set_breaker
            (withFailureCount (failureCount (circuitBreaker w) + 1)
               (circuitBreaker w))
            (afterCall data t w))).
Proof.
  intros Ha Hc Hth. simpl.
  rewrite (proj2 (Z.leb_le attempt maxAttempts)) by lia.
  unfold bind at 1, attempt_, chatCompletionsCreate. rewrite Hc. simpl.
  unfold bind at 1. simpl. unfold bind at 1. simpl.
  destruct (Z.geb_spec (failureCount (circuitBreaker w) + 1)
              (threshold (circuitBreaker w))) as [Hge|_]; [lia|].
  rewrite (proj2 (Z.eqb_neq attempt maxAttempts)) by lia.
  reflexivity.
Qed.

(** [k] failures that stay below the threshold followed by the one that
    reaches it. *)
Lemma retryLoop_failures env data (ts : nat → Z) (es : nat → Error) k :
  ∀ fuel attempt delay w,
    (k < fuel)%nat →
    attempt + Z.of_nat k <= maxAttempts →
    threshold (circuitBreaker w)
    = failureCount (circuitBreaker w) + Z.of_nat (S k) →
    (∀ i, (i ≤ k)%nat →
          chatCreate env (length (created w) + i) data = ChatFail (ts i) (es i)) →
    let r := retryLoop env data fuel attempt delay w in
    r.2 = Throw (es k)
    ∧ circuitBreaker r.1
      = {| failureCount := threshold (circuitBreaker w);
           threshold := threshold (circuitBreaker w);
           open := true;
           openUntil := ts k + 30000 |}
    ∧ created r.1 = created w ++ replicate (S k) data
    ∧ res r.1 = res w.
Proof.
  revert ts es. induction k as [|k IH]; intros ts es fuel attempt delay w Hf Ha Hth Hc.
  - destruct fuel as [|fuel]; [lia|].
    pose proof (Hc 0%nat ltac:(lia)) as H0. rewrite Nat.add_0_r in H0.
    assert (Ht : threshold (circuitBreaker w) <= failureCount (circuitBreaker w) + 1)
      by (rewrite Hth; simpl; lia).
    rewrite (retryLoop_trip env data fuel attempt delay w _ _ ltac:(lia) H0 Ht).
    simpl. repeat split. f_equal. rewrite Hth. simpl. lia.
  - destruct fuel as [|fuel]; [lia|].
    pose proof (Hc 0%nat ltac:(lia)) as H0. rewrite Nat.add_0_r in H0.
    assert (Ht : failureCount (circuitBreaker w) + 1 < threshold (circuitBreaker w))
      by (rewrite Hth; lia).
    rewrite (retryLoop_retry env data fuel attempt delay w _ _ ltac:(lia) H0 Ht).
    set (w1 := set_slept _ _).
    specialize (IH (λ i, ts (S i)) (λ i, es (S i)) fuel (attempt + 1) (delay * 2) w1).
    destruct IH as (Hr & Hb & Hcr & Hres).
    + lia.
    + lia.
    + subst w1. simpl. lia.
    + intros i Hi. subst w1. simpl. rewrite length_app. simpl.
      replace (length (created w) + 1 + i)%nat with (length (created w) + S i)%nat by lia.
      apply Hc. lia.
    + simpl. split; [exact Hr|]. split; [| split].
      * rewrite Hb. subst w1. simpl. reflexivity.
      * rewrite Hcr. subst w1. simpl. rewrite <- app_assoc. reflexivity.
      * rewrite Hres. reflexivity.
Qed.

(** The invoker never falls out of its loop: it returns a completion or
    throws. *)
Lemma retryLoop_defined env data :
  ∀ fuel attempt delay w,
    attempt <= maxAttempts →
    maxAttempts < attempt + Z.of_nat fuel →
    (retryLoop env data fuel attempt delay w).2 ≠ Return None.
Proof.
  induction fuel as [|fuel IH]; intros attempt delay w H1 Hf.
  - lia.
  - simpl. rewrite (proj2 (Z.leb_le _ _) H1).
    unfold bind at 1, attempt_, chatCompletionsCreate.
    destruct (chatCreate _ _ _) as [t c|t e]; simpl; [discriminate|].
    unfold bind at 1. simpl. unfold bind at 1. simpl.
    destruct (_ >=? _); simpl; [discriminate|].
    destruct (Z.eqb_spec attempt maxAttempts) as [->|Hne]; simpl; [discriminate|].
    unfold bind at 1. simpl. apply IH; lia.
Qed.

Lemma retryLoop_created_prefix env data :
  ∀ fuel attempt delay w,
    ∃ rest, created (retryLoop env data fuel attempt delay w).1 = created w ++ rest.
Proof.
  induction fuel as [|fuel IH]; intros attempt delay w.
  - exists []. simpl. rewrite app_nil_r. reflexivity.
  - simpl. destruct (attempt <=? maxAttempts);
      [| exists []; simpl; rewrite app_nil_r; reflexivity].
    unfold bind at 1, attempt_, chatCompletionsCreate.
    destruct (chatCreate _ _ _) as [t c|t e]; simpl; [exists [data]; reflexivity|].
    unfold bind at 1. simpl. unfold bind at 1. simpl.
    destruct (_ >=? _); simpl; [exists [data]; reflexivity|].
    destruct (_ =? _); simpl; [exists [data]; reflexivity|].
    unfold bind at 1. simpl.
    match goal with |- context [retryLoop env data fuel ?a ?d ?w1] =>
      destruct (IH a d w1) as [rest Hrest]; rewrite Hrest end.
    simpl. exists (data :: rest). rewrite <- app_assoc. reflexivity.
Qed.

(** Any run of the loop that gets to iterate issues the upstream call. *)
Lemma retryLoop_calls env data fuel attempt delay w :
  attempt <= maxAttempts →
  ∃ rest,
    created (retryLoop env data (S fuel) attempt delay w).1
    = created w ++ data :: rest.
Proof.
  intros Ha. simpl. rewrite (proj2 (Z.leb_le _ _) Ha).
  unfold bind at 1, attempt_, chatCompletionsCreate.
  destruct (chatCreate _ _ _) as [t c|t e]; simpl; [exists []; reflexivity|].
  unfold bind at 1. simpl. unfold bind at 1. simpl.
  destruct (_ >=? _); simpl; [exists []; reflexivity|].
  destruct (_ =? _); simpl; [exists []; reflexivity|].
  unfold bind at 1. simpl.
  match goal with |- context [retryLoop env data fuel ?a ?d ?w1] =>
    destruct (retryLoop_created_prefix env data fuel a d w1) as [rest Hrest];
    rewrite Hrest end.
  simpl. exists rest. rewrite <- app_assoc. reflexivity.
Qed.

(** C5: circuit breaker behaviour of [getCompletionWithRetry].
    (a) With the breaker closed and [n] failures counted so far, when the
    next [3 - n] upstream calls fail, the invocation makes exactly those
    calls, opens the breaker with [openUntil] 30000 ms after the last
    failure, and throws that failure's error.
    (b) An invocation that starts while the breaker is open and the clock
    is before [openUntil] throws the circuit-open error and leaves the
    world as it was: no upstream call is made.
    (c) An invocation that starts with the breaker open once the clock has
    reached [openUntil] runs exactly as from the reset breaker
    ([open = false], [failureCount = 0]) and issues the upstream call. *)
Theorem circuit_breaker_behaviour env data w :
  (∀ (ts : nat → Z) (es : nat → Error) (k : nat),
     open (circuitBreaker w) = false →
     threshold (circuitBreaker w) = 3 →
     failureCount (circuitBreaker w) + Z.of_nat (S k) = 3 →
     0 <= failureCount (circuitBreaker w) →
     (∀ i, (i ≤ k)%nat →
        chatCreate env (length (created w) + i) data = ChatFail (ts i) (es i)) →
     let r := getCompletionWithRetry env data w in
     r.2 = Throw (es k)
     ∧ circuitBreaker r.1
       = {| failureCount := 3; threshold := 3; open := true;
            openUntil := ts k + 30000 |}
     ∧ created r.1 = created w ++ replicate (S k) data)
  ∧ (open (circuitBreaker w) = true →
     time w < openUntil (circuitBreaker w) →
     getCompletionWithRetry env data w = (w, Throw circuitOpenError))
  ∧ (open (circuitBreaker w) = true →
     openUntil (circuitBreaker w) <= time w →
     let w0 :=
       set_breaker
         {| failureCount := 0; threshold := threshold (circuitBreaker w);
            open := false; openUntil := openUntil (circuitBreaker w) |} w in
     getCompletionWithRetry env data w = getCompletionWithRetry env data w0
     ∧ (∃ rest,
          created (getCompletionWithRetry env data w).1
          = created w ++ data :: rest)
     ∧ (getCompletionWithRetry env data w).2 ≠ Return None).
Proof.
  split; [| split].
  - intros ts es k Ho Hth Hn H0 Hc r. subst r.
    unfold getCompletionWithRetry, bind, dateNow, get. simpl.
    rewrite Ho. simpl.
    destruct (retryLoop_failures env data ts es k
                (Z.to_nat maxAttempts) 1 1000 w) as (Hr & Hb & Hcr & _).
    + unfold maxAttempts. lia.
    + unfold maxAttempts. lia.
    + lia.
    + exact Hc.
    + rewrite Hth in Hb. repeat split; assumption.
  - intros Ho Ht. unfold getCompletionWithRetry, bind, dateNow, get. simpl.
    rewrite Ho, (proj2 (Z.ltb_lt _ _) Ht). reflexivity.
  - intros Ho Ht w0.
    assert (Hlt : (time w <? openUntil (circuitBreaker w)) = false)
      by (apply Z.ltb_ge; exact Ht).
    assert (Hge : (time w >=? openUntil (circuitBreaker w)) = true)
      by (apply Z.geb_le; exact Ht).
    assert (E : getCompletionWithRetry env data w
                = retryLoop env data (Z.to_nat maxAttempts) 1 1000 w0).
    { unfold getCompletionWithRetry, bind, dateNow, get. simpl.
      rewrite Ho, Hlt, Hge. reflexivity. }
    assert (E0 : getCompletionWithRetry env data w0
                 = retryLoop env data (Z.to_nat maxAttempts) 1 1000 w0).
    { unfold getCompletionWithRetry, bind, dateNow, get. reflexivity. }
    rewrite E, E0. split; [reflexivity|]. split.
    + change (Z.to_nat maxAttempts) with 10%nat.
      apply (retryLoop_calls env data 9 1 1000 w0). unfold maxAttempts. lia.
    + apply retryLoop_defined; unfold maxAttempts; simpl; lia.
Qed.

(** *** What the streaming steps write *)

Lemma streamed_nil w : headersSent (res w) = true → streamed [] w w.
Proof. intros H. unfold streamed. rewrite app_nil_r. repeat split; auto. Qed.

Lemma streamed_app evs1 evs2 w1 w2 w3 :
  streamed evs1 w1 w2 → streamed evs2 w2 w3 → streamed (evs1 ++ evs2) w1 w3.
Proof.
  unfold streamed.
  intros (A1 & A2 & A3 & A4 & A5 & A6 & A7) (B1 & B2 & B3 & B4 & B5 & B6 & B7).
  rewrite B1, A1, app_assoc. repeat split; congruence.
Qed.

Lemma resWrite_streamed ev w :
  ∃ w', resWrite ev w = (w', Return tt) ∧ streamed [ev] w w'.
Proof. eexists. split; [reflexivity|]. unfold streamed. simpl. repeat split; auto. Qed.

Lemma resWriteAll_streamed evs w :
  headersSent (res w) = true →
  ∃ w', resWriteAll evs w = (w', Return tt) ∧ streamed evs w w'.
Proof.
  revert w. induction evs as [|ev evs IH]; intros w Hs.
  - exists w. split; [reflexivity | apply streamed_nil, Hs].
  - simpl. unfold bind.
    destruct (resWrite_streamed ev w) as (w1 & -> & H1).
    destruct (IH w1 ltac:(apply H1)) as (w2 & -> & H2).
    exists w2. split; [reflexivity|].
    apply (streamed_app [ev] evs w w1); assumption.
Qed.

Lemma set_time_streamed t w :
  headersSent (res w) = true → streamed [] w (set_time t w).
Proof. intros H. unfold streamed. simpl. rewrite app_nil_r. repeat split; auto. Qed.

Lemma streamLoop_streamed fileMode cs err :
  ∀ st w,
    headersSent (res w) = true →
    ∃ w',
      streamLoop JSON_parse fileMode cs err st w
      = (w', match err with
             | Some e => Throw e
             | None => Return (processStream JSON_parse fileMode cs st).1
             end)
      ∧ streamed (processStream JSON_parse fileMode cs st).2 w w'.
Proof.
  induction cs as [|c cs IH]; intros st w Hs.
  - exists w. simpl. destruct err; simpl; (split; [reflexivity | apply streamed_nil, Hs]).
  - cbn [streamLoop processStream]. unfold bind at 1. cbn [modify].
    unfold bind at 1. cbn [dateNow set_time time].
    destruct (processDelta JSON_parse fileMode (arrivedAt c) st (delta c))
      as [st1 ev1] eqn:Hd.
    unfold bind at 1.
    destruct (resWriteAll_streamed ev1 (set_time (arrivedAt c) w) Hs)
      as (w1 & -> & H1).
    destruct (IH st1 w1 ltac:(apply H1)) as (w2 & -> & H2).
    destruct (processStream JSON_parse fileMode cs st1) as [st2 ev2].
    exists w2. simpl in *. split; [reflexivity|].
    apply (streamed_app ev1 ev2 w w1); [| exact H2].
    change ev1 with ([] ++ ev1).
    eapply streamed_app; [apply set_time_streamed, Hs | exact H1].
Qed.

(** [writeFiles] leaves the response alone; when it returns, every entry
    has been written and named. *)
Lemma writeFiles_run env entries :
  ∀ createdFiles w,
    ∃ w', res w' = res w ∧ created w' = created w
      ∧ ((∃ e, writeFiles env entries createdFiles w = (w', Throw e))
         ∨ (writeFiles env entries createdFiles w
            = (w', Return (createdFiles ++ map fst entries))
            ∧ disk w' = disk w ++ entries)).
Proof.
  induction entries as [|[fileName fileContent] rest IH]; intros createdFiles w.
  - exists w. split; [reflexivity|]. split; [reflexivity|]. right. simpl.
    rewrite !app_nil_r. split; reflexivity.
  - simpl. unfold bind, get, modify, throw. simpl.
    destruct (fsWriteFile env (length (disk w)) fileName fileContent) as [e|].
    + exists w. split; [reflexivity|]. split; [reflexivity|]. left. exists e. reflexivity.
    + destruct (IH (createdFiles ++ [fileName])
                  (set_disk (disk w ++ [(fileName, fileContent)]) w))
        as (w' & Hres & Hcr & [[e He] | [Hok Hdisk]]).
      * exists w'. split; [exact Hres|]. split; [exact Hcr|]. left. exists e. exact He.
      * exists w'. split; [exact Hres|]. split; [exact Hcr|]. right.
        rewrite Hok, Hdisk. simpl. rewrite <- !app_assoc. split; reflexivity.
Qed.

Lemma bind_return {A B} (m : M A) (k : A → M B) w w1 a :
  m w = (w1, Return a) → bind m k w = k a w1.
Proof. intros H. unfold bind. rewrite H. reflexivity. Qed.

Lemma bind_throw {A B} (m : M A) (k : A → M B) w w1 e :
  m w = (w1, Throw e) → bind m k w = (w1, Throw e).
Proof. intros H. unfold bind. rewrite H. reflexivity. Qed.

Lemma resSetHeader_run name value w :
  headersSent (res w) = false →
  ∃ w', resSetHeader name value w = (w', Return tt)
    ∧ headersSent (res w') = false
    ∧ written (res w') = written (res w)
    ∧ jsonBody (res w') = jsonBody (res w)
    ∧ ended (res w') = ended (res w)
    ∧ statusCode (res w') = statusCode (res w)
    ∧ created w' = created w ∧ disk w' = disk w ∧ time w' = time w.
Proof.
  intros H. unfold resSetHeader. rewrite H. eexists. split; [reflexivity|].
  simpl. repeat split; reflexivity.
Qed.

Lemma streamResponse_run env mode model c w :
  headersSent (res w) = false →
  written (res w) = [] →
  jsonBody (res w) = None →
  ended (res w) = false →
  let fileMode := isFileMode mode in
  let p := processStream JSON_parse fileMode (chunks c) streamState0 in
  ∃ w' r,
    streamResponse JSON_parse env mode model c w = (w', r)
    ∧ created w' = created w
    ∧ match r with
      | Return _ =>
          streamError c = None
          ∧ written (res w')
            = completedStream JSON_parse fileMode model
                (time w) c
          ∧ ended (res w') = true
          ∧ jsonBody (res w') = None
          ∧ (fileMode = true →
             disk w' = disk w ++ parseFilesFromText (fullOutput p.1))
      | Throw e =>
          headersSent (res w') = true
          ∧ jsonBody (res w') = None
          ∧ ended (res w') = false
          ∧ ∃ evs,
              written (res w')
              = MessageStart ("msg_" +:+ pretty (time w)) model :: p.2 ++ evs
              ∧ (evs = [] ∨ evs = [ContentBlockStop (contentBlockIndex p.1)])
      end.
Proof.
  intros Hs Hw Hj He fileMode p.
  unfold streamResponse. fold fileMode.
  destruct (resSetHeader_run "Content-Type" "text/event-stream" w Hs)
    as (wa & Ea & Hsa & Hwa & Hja & Hea & _ & Hca & Hda & Hta).
  rewrite (bind_return _ _ _ _ _ Ea).
  destruct (resSetHeader_run "Cache-Control" "no-cache" wa Hsa)
    as (wb & Eb & Hsb & Hwb & Hjb & Heb & _ & Hcb & Hdb & Htb).
  rewrite (bind_return _ _ _ _ _ Eb).
  destruct (resSetHeader_run "Connection" "keep-alive" wb Hsb)
    as (wc & Ec & Hsc & Hwc & Hjc & Hec & _ & Hcc & Hdc & Htc).
  rewrite (bind_return _ _ _ _ _ Ec).
  rewrite (bind_return dateNow _ wc wc (time wc) eq_refl).
  assert (Tc : time wc = time w) by congruence.
  assert (Wc : written (res wc) = []) by congruence.
  assert (Jc : jsonBody (res wc) = None) by congruence.
  assert (Nc : ended (res wc) = false) by congruence.
  assert (Cc : created wc = created w) by congruence.
  assert (Dc : disk wc = disk w) by congruence.
  rewrite Tc. clear Ea Eb Ec.
  destruct (resWrite_streamed (MessageStart ("msg_" +:+ pretty (time w)) model) wc)
    as (w1 & E1 & S1).
  rewrite (bind_return _ _ _ _ _ E1).
  destruct S1 as (S11 & S12 & S13 & S14 & _ & S16 & S17).
  destruct (streamLoop_streamed fileMode (chunks c) (streamError c) streamState0 w1 S12)
    as (w2 & E2 & S2).
  fold p in E2, S2.
  destruct S2 as (S21 & S22 & S23 & S24 & _ & S26 & S27).
  assert (W2 : written (res w2)
               = MessageStart ("msg_" +:+ pretty (time w)) model :: p.2)
    by (rewrite S21, S11, Wc; reflexivity).
  destruct (streamError c) as [e|].
  { rewrite (bind_throw _ _ _ _ _ E2). exists w2, (Throw e).
    split; [reflexivity|]. split; [congruence|].
    split; [exact S22|]. split; [congruence|]. split; [congruence|].
    exists []. rewrite app_nil_r. split; [exact W2 | left; reflexivity]. }
  rewrite (bind_return _ _ _ _ _ E2).
  destruct (resWrite_streamed (ContentBlockStop (contentBlockIndex p.1)) w2)
    as (w3 & E3 & S3).
  rewrite (bind_return _ _ _ _ _ E3).
  destruct S3 as (S31 & S32 & S33 & S34 & _ & S36 & S37).
  assert (W3 : written (res w3)
               = MessageStart ("msg_" +:+ pretty (time w)) model
                   :: p.2 ++ [ContentBlockStop (contentBlockIndex p.1)])
    by (rewrite S31, W2; reflexivity).
  assert (X :
    ∃ w4 r4,
      (if fileMode
       then bind (writeFiles env (parseFilesFromText (fullOutput p.1)) [])
              (λ createdFiles, resWrite (FilesCreated createdFiles))
       else ret tt) w3 = (w4, r4)
      ∧ created w4 = created w3
      ∧ match r4 with
        | Return _ =>
            written (res w4)
            = MessageStart ("msg_" +:+ pretty (time w)) model
                :: streamBody JSON_parse fileMode c
            ∧ headersSent (res w4) = true
            ∧ jsonBody (res w4) = jsonBody (res w3)
            ∧ ended (res w4) = ended (res w3)
            ∧ (fileMode = true →
               disk w4 = disk w3 ++ parseFilesFromText (fullOutput p.1))
        | Throw _ => res w4 = res w3
        end).
  { unfold streamBody. fold p. destruct fileMode.
    - destruct (writeFiles_run env (parseFilesFromText (fullOutput p.1)) [] w3)
        as (w4 & R4 & C4 & [[e E4] | [E4 D4]]).
      + rewrite (bind_throw _ _ _ _ _ E4). exists w4, (Throw e).
        split; [reflexivity|]. split; [exact C4 | exact R4].
      + rewrite (bind_return _ _ _ _ _ E4). eexists _, (Return tt).
        split; [reflexivity|]. simpl. rewrite R4, W3.
        split; [exact C4|]. split; [rewrite <- app_comm_cons, <- app_assoc; reflexivity|].
        split; [reflexivity|]. split; [reflexivity|]. split; [reflexivity|].
        intros _. exact D4.
    - exists w3, (Return tt). split; [reflexivity|]. split; [reflexivity|].
      rewrite W3. split; [reflexivity|]. split; [exact S32|].
      split; [reflexivity|]. split; [reflexivity|]. discriminate. }
  destruct X as (w4 & r4 & E4 & C4 & H4).
  destruct r4 as [[]|e].
  - rewrite (bind_return _ _ _ _ _ E4).
    destruct H4 as (W4 & S4 & J4 & N4 & D4).
    eexists _, (Return tt). split; [reflexivity|]. simpl.
    split; [congruence|]. split; [reflexivity|].
    split; [| split; [reflexivity | split; [congruence |]]].
    + rewrite W4. unfold completedStream, closingDelta. fold p.
      simpl. rewrite <- app_assoc. reflexivity.
    + intros Hf. rewrite (D4 Hf). congruence.
  - rewrite (bind_throw _ _ _ _ _ E4). exists w4, (Throw e).
    split; [reflexivity|]. split; [congruence|]. rewrite H4.
    split; [exact S32|]. split; [congruence|]. split; [congruence|].
    exists [ContentBlockStop (contentBlockIndex p.1)].
    split; [exact W3 | right; reflexivity].
Qed.

(** *** The handler as a whole *)

Lemma translateRequest_keeps {B} (f : World → B) env req :
  (∀ c w, f (set_cache c w) = f w) →
  (∀ l w, f (set_retrieved l w) = f w) →
  ∀ w, f (translateRequest JSON_stringify js_truthy env req w).1 = f w.
Proof.
  intros Hc Hr. apply (translateRequest_frames (keeps f)).
  intros name. apply getModelConfig_frames; assumption.
Qed.

(** The three ways the [try] block can go: the translation throws, the
    upstream call throws, or the response is streamed. *)
Lemma handlerBody_run env req w :
  res w = freshResponse →
  let fileMode := isFileMode (req_output_mode req) in
  let model := chooseModel env (req_model req) in
  ∃ w' r,
    handlerBody JSON_stringify JSON_parse js_truthy env req w
    = (w', r)
    ∧ ((∃ e, translateRequest JSON_stringify js_truthy env req w = (w', Throw e)
             ∧ r = Throw e ∧ res w' = freshResponse ∧ created w' = created w)
       ∨ (∃ wt data t e,
            translateRequest JSON_stringify js_truthy env req w = (wt, Return data)
            ∧ chatCreate env (length (created w)) data = ChatFail t e
            ∧ r = Throw e ∧ res w' = freshResponse
            ∧ created w' = created w ++ [data])
       ∨ (∃ wt data t c,
            translateRequest JSON_stringify js_truthy env req w = (wt, Return data)
            ∧ chatCreate env (length (created w)) data = ChatOk t c
            ∧ created w' = created w ++ [data]
            ∧ let p := processStream JSON_parse fileMode (chunks c) streamState0 in
              match r with
              | Return _ =>
                  streamError c = None
                  ∧ written (res w')
                    = completedStream JSON_parse fileMode
                        model t c
                  ∧ ended (res w') = true
                  ∧ jsonBody (res w') = None
                  ∧ (fileMode = true →
                     disk w' = disk w ++ parseFilesFromText (fullOutput p.1))
              | Throw e =>
                  headersSent (res w') = true
                  ∧ jsonBody (res w') = None
                  ∧ ended (res w') = false
                  ∧ ∃ evs,
                      written (res w')
                      = MessageStart ("msg_" +:+ pretty t) model :: p.2 ++ evs
                      ∧ (evs = [] ∨ evs = [ContentBlockStop (contentBlockIndex p.1)])
              end)).
Proof.
  intros Hres fileMode model. unfold handlerBody.
  pose proof (translateRequest_keeps res env req ltac:(reflexivity) ltac:(reflexivity) w) as Kres.
  pose proof (translateRequest_keeps created env req ltac:(reflexivity) ltac:(reflexivity) w) as Kcr.
  pose proof (translateRequest_keeps disk env req ltac:(reflexivity) ltac:(reflexivity) w) as Kd.
  destruct (translateRequest JSON_stringify js_truthy env req w) as [wt [data|e]] eqn:Et;
    simpl in Kres, Kcr, Kd.
  2:{ rewrite (bind_throw _ _ _ _ _ Et). exists wt, (Throw e).
      split; [reflexivity|]. left. exists e.
      repeat split; [congruence | exact Kcr]. }
  rewrite (bind_return _ _ _ _ _ Et).
  unfold bind, chatCompletionsCreate.
  destruct (chatCreate env (length (created wt)) data) as [t c|t e] eqn:Ec;
    rewrite Kcr in Ec.
  - set (w1 := set_time t (set_created (created wt ++ [data]) wt)).
    destruct (streamResponse_run env (req_output_mode req) model c w1)
      as (w' & r & E & C & H).
    + subst w1. simpl. rewrite Kres, Hres. reflexivity.
    + subst w1. simpl. rewrite Kres, Hres. reflexivity.
    + subst w1. simpl. rewrite Kres, Hres. reflexivity.
    + subst w1. simpl. rewrite Kres, Hres. reflexivity.
    + exists w', r. fold model. split; [exact E|]. right. right.
      exists wt, data, t, c. split; [reflexivity|]. split; [exact Ec|].
      split; [rewrite C; subst w1; simpl; rewrite Kcr; reflexivity|].
      fold fileMode in H. cbv zeta in H |- *.
      destruct r as [u|e].
      * destruct H as (H1 & H2 & H3 & H4 & H5).
        repeat split; try assumption.
        intros Hf. rewrite (H5 Hf). subst w1. simpl. rewrite Kd. reflexivity.
      * exact H.
  - eexists _, (Throw e). split; [reflexivity|]. right. left.
    exists wt, data, t, e. split; [reflexivity|]. split; [exact Ec|].
    split; [reflexivity|]. simpl. split; [congruence|]. rewrite Kcr. reflexivity.
Qed.

(** *** The streaming loop, delta by delta *)

Lemma countEvents_app (p : @SseEvent JSON → bool) evs1 evs2 :
  countEvents p (evs1 ++ evs2) = (countEvents p evs1 + countEvents p evs2)%nat.
Proof. unfold countEvents. rewrite List.filter_app, length_app. reflexivity. Qed.

Ltac processDelta_cases fileMode st d :=
  unfold processDelta, openToolBlock, appendArguments, accumulate,
    openTextBlock, emitText, closeToolBlock;
  destruct (tool_calls d) as [[|toolCall ?]|];
  try destruct (truthy_string (fn_arguments toolCall));
  destruct (truthy_string (content d));
  destruct fileMode;
  cbn [isToolUse hasStartedTextBlock contentBlockIndex fullOutput
       currentContentBlocks toolUseJson];
  destruct (isToolUse st) eqn:?;
  destruct (hasStartedTextBlock st) eqn:?;
  cbn [fst snd app negb
       isToolUse hasStartedTextBlock contentBlockIndex fullOutput
       currentContentBlocks toolUseJson];
  match goal with
  | H1 : isToolUse st = _, H2 : hasStartedTextBlock st = _ |- _ =>
      rewrite ?H1, ?H2
  end.

Lemma processDelta_block_events fileMode now st d :
  Forall (λ ev, isBlockEvent ev = true)
    (processDelta JSON_parse fileMode now st d).2.
Proof.
  processDelta_cases fileMode st d; repeat constructor.
Qed.

Lemma processStream_block_events fileMode cs :
  ∀ st, Forall (λ ev, isBlockEvent ev = true)
          (processStream JSON_parse fileMode cs st).2.
Proof.
  induction cs as [|c cs IH]; intros st; simpl.
  - constructor.
  - pose proof (processDelta_block_events fileMode (arrivedAt c) st (delta c)) as H.
    destruct (processDelta _ _ _ _ _) as [st1 ev1].
    specialize (IH st1). destruct (processStream _ _ _ _) as [st2 ev2].
    simpl in *. apply Forall_app. split; assumption.
Qed.

(** Stops and tool-use starts stay in step: every tool-use block that was
    opened is either closed by a stop or still open. *)
Lemma processDelta_stops fileMode now st d :
  let r := processDelta JSON_parse fileMode now st d in
  (countEvents isBlockStop r.2 + (if isToolUse r.1 then 1 else 0)
   = countEvents isToolBlockStart r.2 + (if isToolUse st then 1 else 0))%nat.
Proof.
  processDelta_cases fileMode st d; reflexivity.
Qed.

Lemma processStream_stops fileMode cs :
  ∀ st,
    let r := processStream JSON_parse fileMode cs st in
    (countEvents isBlockStop r.2 + (if isToolUse r.1 then 1 else 0)
     = countEvents isToolBlockStart r.2 + (if isToolUse st then 1 else 0))%nat.
Proof.
  induction cs as [|c cs IH]; intros st; simpl.
  - reflexivity.
  - pose proof (processDelta_stops fileMode (arrivedAt c) st (delta c)) as H.
    destruct (processDelta _ _ _ _ _) as [st1 ev1].
    specialize (IH st1). destruct (processStream _ _ _ _) as [st2 ev2].
    simpl in *. rewrite !countEvents_app. lia.
Qed.

(** [contentBlockIndex] moves only together with a stop event: it grows by
    the number of stops written. *)
Lemma processDelta_index fileMode now st d :
  let r := processDelta JSON_parse fileMode now st d in
  contentBlockIndex r.1
  = (contentBlockIndex st + countEvents isBlockStop r.2)%nat.
Proof.
  processDelta_cases fileMode st d; unfold countEvents; simpl; lia.
Qed.

Lemma processStream_index fileMode cs :
  ∀ st,
    let r := processStream JSON_parse fileMode cs st in
    contentBlockIndex r.1
    = (contentBlockIndex st + countEvents isBlockStop r.2)%nat.
Proof.
  induction cs as [|c cs IH]; intros st; simpl.
  - unfold countEvents. simpl. lia.
  - pose proof (processDelta_index fileMode (arrivedAt c) st (delta c)) as H.
    destruct (processDelta _ _ _ _ _) as [st1 ev1].
    specialize (IH st1). destruct (processStream _ _ _ _) as [st2 ev2].
    simpl in *. rewrite countEvents_app. lia.
Qed.

(** While a tool-use block is open no block is started: a delta either
    adds to it or closes it with a stop. *)
Lemma processDelta_inside_tool_block fileMode now st d :
  isToolUse st = true →
  let r := processDelta JSON_parse fileMode now st d in
  countEvents isBlockStart r.2 = 0%nat
  ∧ (isToolUse r.1 = false → r.2 = [ContentBlockStop (contentBlockIndex st)]).
Proof.
  intros Ht. processDelta_cases fileMode st d;
    try discriminate; split; try reflexivity; try discriminate.
Qed.



Lemma append_assoc (a b c : string) : (a +:+ b) +:+ c = a +:+ (b +:+ c).
Proof.
  induction a as [|x a IH]; [reflexivity|].
  change (String x ((a +:+ b) +:+ c) = String x (a +:+ (b +:+ c))).
  f_equal. exact IH.
Qed.

Lemma append_nil_r (a : string) : a +:+ "" = a.
Proof.
  induction a as [|x a IH]; [reflexivity|].
  change (String x (a +:+ "") = String x a). f_equal. exact IH.
Qed.


Local Abbreviation handlerBody' :=
  (handlerBody JSON_stringify JSON_parse js_truthy).
Local Abbreviation serve' :=
  (serve JSON_stringify JSON_parse js_truthy).
Local Abbreviation translateRequest' :=
  (translateRequest JSON_stringify js_truthy).

Lemma serve_unfold env req w wb r :
  handlerBody' env req (set_res freshResponse w) = (wb, r) →
  serve' env req w
  = match r with
    | Return u => (wb, Return u)
    | Throw e =>
        resStatusJson 400 {| status := "error"; body_message := message e |} wb
    end.
Proof.
  intros H. unfold serve, postMessages, try_catch. rewrite H.
  destruct r; reflexivity.
Qed.

Lemma not_elem_of_block_events (ev : @SseEvent JSON) evs :
  Forall (λ ev, isBlockEvent ev = true) evs → isBlockEvent ev = false → ev ∉ evs.
Proof.
  intros HF Hev Hin. rewrite Forall_forall in HF.
  specialize (HF ev Hin). congruence.
Qed.

(** What the [catch] block makes of a failure.  When the [try] block
    throws before anything was written, the client gets status 400 with the
    JSON body [{status: "error", message}] and no SSE event.  When it
    throws after streaming has begun, [res.status(400).json(...)] throws in
    its turn: the response keeps the events written so far, with no
    [message_stop] among them, gets no JSON body and is never ended, and
    the handler itself fails. *)
Theorem failure_handling env req w wb e :
  handlerBody' env req (set_res freshResponse w) = (wb, Throw e) →
  let r := serve' env req w in
  if headersSent (res wb)
  then
    r.2 = Throw headersSentError
    ∧ (∃ id model evs, written (res r.1) = MessageStart id model :: evs)
    ∧ (MessageStop ∉ written (res r.1))
    ∧ jsonBody (res r.1) = None
    ∧ ended (res r.1) = false
  else
    r.2 = Return tt
    ∧ statusCode (res r.1) = 400
    ∧ jsonBody (res r.1)
      = Some {| status := "error"; body_message := message e |}
    ∧ written (res r.1) = []
    ∧ ended (res r.1) = true.
Proof.
  intros Hb r. subst r. rewrite (serve_unfold env req w wb _ Hb).
  destruct (handlerBody_run env req (set_res freshResponse w) eq_refl)
    as (w' & r & E & H).
  rewrite Hb in E. injection E as <- <-.
  unfold resStatusJson.
  destruct H as [(e' & _ & _ & Hres & _)
                | [(wt & data & t & e' & _ & _ & _ & Hres & _)
                  | (wt & data & t & c & _ & _ & _ & H)]].
  - rewrite Hres. simpl. repeat split; reflexivity.
  - rewrite Hres. simpl. repeat split; reflexivity.
  - cbv zeta in H. destruct H as (Hs & Hj & He & evs & Hw & Hevs).
    rewrite Hs. simpl. split; [reflexivity|]. split; [eauto|].
    split; [| split; assumption].
    rewrite Hw. intros Hin. apply elem_of_cons in Hin as [Hin|Hin]; [discriminate|].
    apply elem_of_app in Hin as [Hin|Hin].
    + revert Hin. apply not_elem_of_block_events; [| reflexivity].
      apply processStream_block_events.
    + destruct Hevs as [-> | ->].
      * apply elem_of_nil in Hin. exact Hin.
      * apply list_elem_of_singleton in Hin. discriminate.
Qed.

(** A request answered by a complete stream. *)
Lemma serve_stream_inv env req w w' :
  serve' env req w = (w', Return tt) →
  jsonBody (res w') = None →
  let fileMode := isFileMode (req_output_mode req) in
  ∃ data t c,
    chatCreate env (length (created w)) data = ChatOk t c
    ∧ streamError c = None
    ∧ created w' = created w ++ [data]
    ∧ written (res w')
      = completedStream JSON_parse fileMode
          (chooseModel env (req_model req)) t c
    ∧ ended (res w') = true
    ∧ (fileMode = true →
       disk w'
       = disk w ++ parseFilesFromText
           (fullOutput (processStream JSON_parse fileMode (chunks c) streamState0).1)).
Proof.
  intros Hs Hj fileMode.
  destruct (handlerBody_run env req (set_res freshResponse w) eq_refl)
    as (wb & r & E & H).
  rewrite (serve_unfold env req w wb r E) in Hs.
  destruct H as [(e & _ & -> & Hres & _)
                | [(wt & data & t & e & _ & _ & -> & Hres & _)
                  | (wt & data & t & c & _ & Hc & Hcr & H)]].
  - unfold resStatusJson in Hs. rewrite Hres in Hs. simpl in Hs.
    injection Hs as <-. simpl in Hj. discriminate.
  - unfold resStatusJson in Hs. rewrite Hres in Hs. simpl in Hs.
    injection Hs as <-. simpl in Hj. discriminate.
  - cbv zeta in H. destruct r as [u|e].
    + injection Hs as <-. destruct H as (H1 & H2 & H3 & H4 & H5).
      exists data, t, c. repeat split; assumption.
    + destruct H as (Hhs & _). unfold resStatusJson in Hs. rewrite Hhs in Hs.
      discriminate.
Qed.

Lemma countEvents_block_events (p : @SseEvent JSON → bool) evs :
  Forall (λ ev, isBlockEvent ev = true) evs →
  (∀ ev, isBlockEvent ev = true → p ev = false) →
  countEvents p evs = 0%nat.
Proof.
  intros HF Hp. induction HF as [|ev evs Hev _ IH]; [reflexivity|].
  unfold countEvents in *. simpl. rewrite (Hp ev Hev). exact IH.
Qed.

(** Framing of a request answered by a complete stream: the events start
    with one [message_start] and end with one [message_delta] followed by
    one [message_stop]; in between come only content-block events and, in
    file mode, [files_created].  Every tool-use block is stopped or still
    open at the end, and the trailing stop of lines 397-401 is written in
    any case: the number of [content_block_stop] events is the number of
    tool-use [content_block_start] events plus one when the stream ends
    outside a tool-use block, and equal to it when it ends inside one.
    Text blocks do not enter the count. *)
Theorem stream_event_framing env req w w' :
  serve' env req w = (w', Return tt) →
  jsonBody (res w') = None →
  ∃ id model body stop_reason blocks,
    written (res w')
    = MessageStart id model :: body ++ [MessageDelta stop_reason blocks; MessageStop]
    ∧ Forall (λ ev, isBodyEvent ev = true) body
    ∧ (stop_reason = "tool_use" ∨ stop_reason = "end_turn")
    ∧ countEvents isBlockStop body
      = (countEvents isToolBlockStart body
         + if bool_decide (stop_reason = "tool_use") then 0 else 1)%nat.
Proof.
  intros Hs Hj.
  destruct (serve_stream_inv env req w w' Hs Hj)
    as (data & t & c & _ & _ & _ & Hw & _).
  unfold completedStream, streamBody, closingDelta in Hw.
  set (fileMode := isFileMode (req_output_mode req)) in *.
  pose proof (processStream_stops fileMode (chunks c) streamState0) as Hcount.
  pose proof (processStream_block_events fileMode (chunks c) streamState0) as Hblock.
  destruct (processStream JSON_parse fileMode (chunks c) streamState0)
    as [st evs]. simpl in Hw, Hcount, Hblock.
  eexists _, _, _, _, _. split; [exact Hw|]. split; [| split].
  - apply Forall_app. split.
    + eapply Forall_impl; [exact Hblock|]. intros ev Hev.
      unfold isBodyEvent. rewrite Hev. reflexivity.
    + constructor; [reflexivity|]. destruct fileMode; repeat constructor.
  - destruct (isToolUse st); [left | right]; reflexivity.
  - rewrite !countEvents_app.
    assert (Htail : ∀ p : @SseEvent JSON → bool,
              (∀ l, p (FilesCreated l) = false) →
              countEvents p
                (ContentBlockStop (contentBlockIndex st)
                 :: (if fileMode
                     then [FilesCreated
                             (map fst (parseFilesFromText (fullOutput st)))]
                     else []))
              = if p (ContentBlockStop (contentBlockIndex st)) then 1%nat else 0%nat).
    { intros p Hp. unfold countEvents. simpl.
      destruct (p (ContentBlockStop (contentBlockIndex st)));
        destruct fileMode; simpl; rewrite ?Hp; reflexivity. }
    rewrite !Htail by reflexivity. simpl.
    destruct (isToolUse st); simpl in *; lia.
Qed.


(** *** Request translation *)

Lemma mapTools_missing tools w :
  (∃ item, item ∈ tools ∧ description item = None) →
  mapTools tools w = (w, Throw (typeError "length")).
Proof.
  induction tools as [|item rest IH]; intros (bad & Hin & Hbad).
  - apply elem_of_nil in Hin. destruct Hin.
  - simpl. destruct (description item) as [d|] eqn:Hd; [| reflexivity].
    apply elem_of_cons in Hin as [-> | Hin]; [congruence|].
    apply bind_throw, IH. exists bad. split; assumption.
Qed.

Lemma translateRequest_missing_description env req w tools :
  req_tools req = Some tools →
  (∃ item, item ∈ tools ∧ description item = None) →
  ∃ wt e,
    translateRequest' env req w = (wt, Throw e)
    ∧ (is_Some (req_messages req) → e = typeError "length").
Proof.
  intros Ht Hbad. unfold translateRequest.
  destruct (getModelConfig_resolves env (chooseModel env (req_model req)) w)
    as (cfg & Hr & _).
  destruct (getModelConfig env (chooseModel env (req_model req)) w)
    as [w1 r1] eqn:Eg. simpl in Hr. subst r1.
  rewrite (bind_return _ _ _ _ _ Eg).
  unfold flattenMessages. destruct (req_messages req) as [l|].
  - rewrite (bind_return _ _ w1 w1 _ eq_refl).
    destruct (negotiate _ _ _) as [[temperature mct] mt].
    rewrite Ht. exists w1, (typeError "length"). split; [| reflexivity].
    apply bind_throw. apply bind_throw. apply mapTools_missing, Hbad.
  - exists w1, (typeError "map"). split; [reflexivity|].
    intros [x Hx]. discriminate.
Qed.

(** C10 (as amended): a request with a tool definition that lacks
    [description] is answered with status 400 and the JSON error body,
    without any SSE event and without any upstream chat-completion call;
    when [messages] is present the error is the one thrown by reading
    [.length] in the tool-mapping step. *)
Theorem missing_description_rejected env req w tools :
  req_tools req = Some tools →
  (∃ item, item ∈ tools ∧ description item = None) →
  let r := serve' env req w in
  ∃ m,
    r.2 = Return tt
    ∧ statusCode (res r.1) = 400
    ∧ jsonBody (res r.1) = Some {| status := "error"; body_message := m |}
    ∧ written (res r.1) = []
    ∧ created r.1 = created w
    ∧ (is_Some (req_messages req) → m = message (typeError "length")).
Proof.
  intros Ht Hbad r. subst r.
  destruct (translateRequest_missing_description env req
              (set_res freshResponse w) tools Ht Hbad) as (wt & e & Et & He).
  pose proof (translateRequest_keeps res env req
                ltac:(reflexivity) ltac:(reflexivity) (set_res freshResponse w)) as Kres.
  pose proof (translateRequest_keeps created env req
                ltac:(reflexivity) ltac:(reflexivity) (set_res freshResponse w)) as Kcr.
  rewrite Et in Kres, Kcr. simpl in Kres, Kcr.
  assert (Hb : handlerBody' env req (set_res freshResponse w) = (wt, Throw e)).
  { unfold handlerBody. apply bind_throw, Et. }
  rewrite (serve_unfold env req w wt _ Hb).
  unfold resStatusJson. rewrite Kres. simpl.
  exists (message e). repeat split; try assumption.
  intros Hm. rewrite (He Hm). reflexivity.
Qed.

(** The legacy branch of the parameter negotiation (lines 254-259): when
    the chosen model is not on the allow-list, the upstream request carries
    the caller's [temperature] unchanged, carries [max_tokens] exactly when
    the caller's [max_tokens] is truthy, and has no
    [max_completion_tokens]; nothing is compared with the model limit.
    The branch is taken only if the configured default model is itself off
    the allow-list, and the chosen model is then that default. *)
Theorem legacy_parameters_pass_through env req w wt data :
  includes allowedModels (chooseModel env (req_model req)) = false →
  translateRequest' env req w = (wt, Return data) →
  data_temperature data = req_temperature req
  ∧ data_max_tokens data
    = (if truthy_number (req_max_tokens req) then req_max_tokens req else None)
  ∧ data_max_completion_tokens data = None
  ∧ data_model data = defaultModel env
  ∧ includes allowedModels (defaultModel env) = false.
Proof.
  intros Hl Et. unfold translateRequest in Et. rewrite Hl in Et.
  destruct (getModelConfig env (chooseModel env (req_model req)) w)
    as [w1 [cfg|e]] eqn:Eg.
  2:{ rewrite (bind_throw _ _ _ _ _ Eg) in Et. discriminate. }
  rewrite (bind_return _ _ _ _ _ Eg) in Et.
  unfold flattenMessages in Et.
  destruct (req_messages req) as [l|]; [| discriminate].
  rewrite (bind_return _ _ w1 w1 _ eq_refl) in Et.
  unfold negotiate in Et.
  assert (Hm : chooseModel env (req_model req) = defaultModel env
               ∧ includes allowedModels (defaultModel env) = false).
  { revert Hl. unfold chooseModel.
    destruct (includes allowedModels
                (if truthy_string (req_model req)
                 then default "" (req_model req) else defaultModel env)) eqn:Hi.
    - intros Hl. congruence.
    - intros Hl. split; [reflexivity | exact Hl]. }
  destruct Hm as [Hm1 Hm2].
  destruct (req_tools req) as [tools|].
  - destruct (mapTools tools w1) as [w2 [mapped|e]] eqn:Em.
    + rewrite (bind_return _ _ w1 w2 (Some mapped)) in Et
        by (rewrite (bind_return _ _ _ _ _ Em); reflexivity).
      injection Et as _ <-. simpl. rewrite Hm1. repeat split; assumption.
    + rewrite (bind_throw _ _ w1 w2 e) in Et
        by (rewrite (bind_throw _ _ _ _ _ Em); reflexivity).
      discriminate.
  - rewrite (bind_return _ _ w1 w1 None eq_refl) in Et.
    injection Et as _ <-. simpl. rewrite Hm1. repeat split; assumption.
Qed.

(** The handler never consults or updates the circuit breaker, never
    sleeps, and issues at most one upstream chat call per request. *)
Lemma handler_ignores_invoker env req w :
  let r := serve' env req w in
  circuitBreaker r.1 = circuitBreaker w
  ∧ slept r.1 = slept w
  ∧ (created r.1 = created w ∨ ∃ data, created r.1 = created w ++ [data]).
Proof.
  intros r. subst r.
  split; [apply (serve_keeps circuitBreaker); reflexivity|].
  split; [apply (serve_keeps slept); reflexivity|].
  destruct (handlerBody_run env req (set_res freshResponse w) eq_refl)
    as (wb & r & E & H).
  rewrite (serve_unfold env req w wb r E).
  assert (Hj : ∀ e, created (resStatusJson 400
                       {| status := "error"; body_message := message e |} wb).1
                    = created wb).
  { intros e. unfold resStatusJson. destruct (headersSent (res wb)); reflexivity. }
  destruct H as [(e & _ & -> & _ & Hc)
                | [(wt & data & t & e & _ & _ & -> & _ & Hc)
                  | (wt & data & t & c & _ & _ & Hc & _)]].
  - left. rewrite Hj. exact Hc.
  - right. exists data. rewrite Hj. exact Hc.
  - right. exists data. destruct r as [u|e]; [exact Hc | rewrite Hj; exact Hc].
Qed.

End Properties.

(** ** The scenarios, evaluated *)

Example parseFilesFromText_tfText :
  parseFilesFromText tfText = [("main.tf", "a = 1" +:+ newline)].
Proof. vm_compute. reflexivity. Qed.

(** The [o1] test shadows the [o1-mini] test. *)
Example maxCompletionTokensFor_o1_mini :
  maxCompletionTokensFor "o1-mini" = 32000.
Proof. reflexivity. Qed.

(** C1: the handler does not go through [getCompletionWithRetry].  With the
    breaker open and the clock before [openUntil] the wrapper refuses to
    call upstream, yet the handler serving a request in that very state
    issues the chat call.  With the breaker closed and the upstream down,
    the wrapper calls three times and opens the breaker, while the handler
    calls once, answers 400 and leaves the breaker as it was. *)
Theorem handler_calls_upstream_directly :
  let env := scriptedEnv "o3-mini" true upstreamDown in
  let req := userRequest (Some "o3-mini") None None None None in
  (getCompletionWithRetry env someData breakerOpenWorld
   = (breakerOpenWorld, Throw circuitOpenError)
   ∧ length (created (scenarioServe env req breakerOpenWorld).1) = 1%nat)
  ∧ (let viaWrapper := getCompletionWithRetry env someData world0 in
     let viaHandler := scenarioServe env req world0 in
     length (created viaWrapper.1) = 3%nat
     ∧ open (circuitBreaker viaWrapper.1) = true
     ∧ length (created viaHandler.1) = 1%nat
     ∧ circuitBreaker viaHandler.1 = circuitBreaker0
     ∧ slept viaHandler.1 = []
     ∧ jsonBody (res viaHandler.1)
       = Some {| status := "error"; body_message := "Connection error." |}).
Proof. vm_compute. repeat split; reflexivity. Qed.

(** C2: the events the handler writes for the deltas text "Hello", tool
    call [run] with arguments [argsX], text " world".  The tool-use block
    starts at index 0 while the text block is still open, the third delta
    only closes the tool-use block, and no block is ever opened at index 1
    or 2. *)
Theorem scenario_events :
  written (res (scenarioServe
                  (scriptedEnv "o3-mini" true (streamOf scenarioChunks))
                  (userRequest (Some "o3-mini") None None None None)
                  world0).1)
  = [MessageStart "msg_50" "o3-mini";
     TextBlockStart 0;
     TextDelta 0 "Hello";
     ToolBlockStart 0 "toolu_200" (Some "run");
     InputJsonDelta 0 argsX;
     ContentBlockStop 0;
     ContentBlockStop 1;
     MessageDelta "end_turn"
       [ {| block_type := TextBlock; block_text := Some "Hello";
            block_id := None; block_name := None;
            block_input := Some (Parsed argsX) |};
         {| block_type := ToolUseBlock; block_text := None;
            block_id := Some "toolu_200"; block_name := Some (Some "run");
            block_input := Some EmptyObject |} ];
     MessageStop].
Proof. vm_compute. reflexivity. Qed.

(** C3: a tool call arriving while a text block is open.  The tool-use
    block is started at the same index with no stop in between, so two
    blocks are open at once. *)
Theorem text_block_left_open :
  written (res (scenarioServe
                  (scriptedEnv "o3-mini" true (streamOf textThenTool))
                  (userRequest (Some "o3-mini") None None None None)
                  world0).1)
  = [MessageStart "msg_50" "o3-mini";
     TextBlockStart 0;
     TextDelta 0 "Hello";
     ToolBlockStart 0 "toolu_200" (Some "run");
     InputJsonDelta 0 argsX;
     ContentBlockStop 0;
     MessageDelta "tool_use"
       [ {| block_type := TextBlock; block_text := Some "Hello";
            block_id := None; block_name := None;
            block_input := Some (Parsed argsX) |};
         {| block_type := ToolUseBlock; block_text := None;
            block_id := Some "toolu_200"; block_name := Some (Some "run");
            block_input := Some EmptyObject |} ];
     MessageStop].
Proof. vm_compute. reflexivity. Qed.

(** C4: a text delta followed by a tool call, the stream of C3.  Two blocks
    are started and one is stopped: the text block opened at index 0 never
    gets its [content_block_stop]. *)
Theorem block_starts_outnumber_stops :
  let evs :=
    written (res (scenarioServe
                    (scriptedEnv "o3-mini" true (streamOf textThenTool))
                    (userRequest (Some "o3-mini") None None None None)
                    world0).1) in
  head evs = Some (MessageStart "msg_50" "o3-mini")
  ∧ List.filter isBlockStart evs
    = [TextBlockStart 0; ToolBlockStart 0 "toolu_200" (Some "run")]
  ∧ List.filter isBlockStop evs = [ContentBlockStop 0]
  ∧ countEvents isBlockStart evs = 2%nat
  ∧ countEvents isBlockStop evs = 1%nat.
Proof. vm_compute. repeat split; reflexivity. Qed.


(** The empty stream: the trailing stop of lines 397-401 is written although
    no block was started. *)
Lemma empty_stream_unbalanced :
  let evs :=
    written (res (scenarioServe
                    (scriptedEnv "o3-mini" true (streamOf []))
                    (userRequest (Some "o3-mini") None None None None)
                    world0).1) in
  evs = [MessageStart "msg_50" "o3-mini"; ContentBlockStop 0;
         MessageDelta "end_turn" []; MessageStop]
  ∧ countEvents isBlockStop evs ≠ countEvents isBlockStart evs.
Proof. vm_compute. split; [reflexivity | discriminate]. Qed.

Lemma stream_event_framing_witness :
  let r := scenarioServe
             (scriptedEnv "o3-mini" true (streamOf scenarioChunks))
             (userRequest (Some "o3-mini") None None None None) world0 in
  jsonBody (res r.1) = None
  ∧ ∃ id model body stop_reason blocks,
      written (res r.1)
      = MessageStart id model
          :: body ++ [MessageDelta stop_reason blocks; MessageStop]
      ∧ Forall (λ ev, isBodyEvent ev = true) body
      ∧ (stop_reason = "tool_use" ∨ stop_reason = "end_turn")
      ∧ countEvents isBlockStop body
        = (countEvents isToolBlockStart body
           + if bool_decide (stop_reason = "tool_use") then 0 else 1)%nat.
Proof.
  intros r. split; [reflexivity|].
  apply (stream_event_framing scenarioStringify scenarioParse scenarioTruthy
           (scriptedEnv "o3-mini" true (streamOf scenarioChunks))
           (userRequest (Some "o3-mini") None None None None) world0 r.1).
  - vm_compute. reflexivity.
  - vm_compute. reflexivity.
Defined.

Lemma circuit_breaker_behaviour_witness :
  let env := scriptedEnv "o3-mini" true upstreamDown in
  let tripped := (getCompletionWithRetry env someData world0).1 in
  (* three failures in a row from the initial state *)
  ((getCompletionWithRetry env someData world0).2 = Throw connectionError
   ∧ circuitBreaker tripped
     = {| failureCount := 3; threshold := 3; open := true; openUntil := 35000 |}
   ∧ created tripped = [someData; someData; someData])
  (* the next invocation, 20 seconds later *)
  ∧ getCompletionWithRetry env someData (set_time 25000 tripped)
    = (set_time 25000 tripped, Throw circuitOpenError)
  (* an invocation after the cool-down *)
  ∧ (∃ rest,
       created (getCompletionWithRetry env someData (set_time 35000 tripped)).1
       = created tripped ++ someData :: rest).
Proof.
  intros env tripped. split; [| split].
  - destruct (circuit_breaker_behaviour env someData world0) as (Ha & _ & _).
    apply (Ha (λ _, 5000) (λ _, connectionError) 2%nat);
      [reflexivity | reflexivity | reflexivity | simpl; lia | intros i _; reflexivity].
  - destruct (circuit_breaker_behaviour env someData (set_time 25000 tripped))
      as (_ & Hb & _).
    apply Hb; [reflexivity | vm_compute; reflexivity].
  - destruct (circuit_breaker_behaviour env someData (set_time 35000 tripped))
      as (_ & _ & Hc).
    apply Hc; [reflexivity | vm_compute; discriminate].
Defined.

(** C6: gpt-4 and gpt-4o take the fixed-temperature branch, because
    [isNewModel] is membership in the allow-list and both are on it.  For
    either, the caller's temperature 1/2 is replaced by 1 and the caller's
    [max_tokens] 8000 is not passed on as [max_tokens]: it comes out as
    [max_completion_tokens], for gpt-4 clamped to the model limit 4096. *)
Theorem legacy_models_take_fixed_temperature_branch :
  let env := scriptedEnv "o3-mini" true (streamOf []) in
  let req model := userRequest (Some model) (Some (1 # 2)%Q) (Some 8000) None None in
  let translated model :=
    (translateRequest scenarioStringify scenarioTruthy env (req model) world0).2 in
  (∃ data,
     translated "gpt-4" = Return data
     ∧ data_model data = "gpt-4"
     ∧ data_temperature data = Some 1%Q
     ∧ data_temperature data ≠ req_temperature (req "gpt-4")
     ∧ data_max_tokens data = None
     ∧ data_max_completion_tokens data = Some 4096)
  ∧ (∃ data,
       translated "gpt-4o" = Return data
       ∧ data_model data = "gpt-4o"
       ∧ data_temperature data = Some 1%Q
       ∧ data_temperature data ≠ req_temperature (req "gpt-4o")
       ∧ data_max_tokens data = None
       ∧ data_max_completion_tokens data = Some 8000).
Proof.
  split; (eexists; split; [vm_compute; reflexivity|]);
    vm_compute; repeat split; try reflexivity; discriminate.
Qed.

Lemma legacy_parameters_pass_through_witness :
  let env := scriptedEnv "gpt-3.5-turbo" true (streamOf []) in
  let req := userRequest None (Some (1 # 2)%Q) (Some 8000) None None in
  includes allowedModels (chooseModel env (req_model req)) = false
  ∧ ∃ data,
      (translateRequest scenarioStringify scenarioTruthy env req world0).2
      = Return data
      ∧ data_temperature data = Some (1 # 2)%Q
      ∧ data_max_tokens data = Some 8000
      ∧ data_max_completion_tokens data = None
      ∧ data_model data = "gpt-3.5-turbo".
Proof.
  intros env req. split; [reflexivity|].
  destruct (translateRequest scenarioStringify scenarioTruthy env req world0)
    as [wt [data|e]] eqn:Et; [| vm_compute in Et; discriminate].
  exists data. split; [reflexivity|].
  destruct (legacy_parameters_pass_through scenarioStringify scenarioTruthy
              env req world0 wt data eq_refl Et) as (H1 & H2 & H3 & H4 & _).
  repeat split; assumption.
Defined.



Lemma failure_handling_witness :
  let req := userRequest (Some "o3-mini") None None None None in
  (* the upstream call fails: nothing has been written yet *)
  (let r := scenarioServe (scriptedEnv "o3-mini" true upstreamDown) req world0 in
   r.2 = Return tt
   ∧ statusCode (res r.1) = 400
   ∧ jsonBody (res r.1)
     = Some {| status := "error"; body_message := "Connection error." |}
   ∧ written (res r.1) = []
   ∧ ended (res r.1) = true)
  (* the stream breaks after its first chunk *)
  ∧ (let r := scenarioServe (scriptedEnv "o3-mini" true brokenStream) req world0 in
     r.2 = Throw headersSentError
     ∧ (∃ id model evs, written (res r.1) = MessageStart id model :: evs)
     ∧ (MessageStop ∉ written (res r.1))
     ∧ jsonBody (res r.1) = None
     ∧ ended (res r.1) = false).
Proof.
  intros req. split.
  - destruct (handlerBody scenarioStringify scenarioParse scenarioTruthy (scriptedEnv "o3-mini" true upstreamDown) req
                (set_res freshResponse world0)) as [wb [u|e]] eqn:Hb;
      [vm_compute in Hb; discriminate|].
    pose proof (failure_handling scenarioStringify scenarioParse scenarioTruthy _ req world0 wb e Hb) as H.
    assert (Hs : headersSent (res wb) = false)
      by (vm_compute in Hb; injection Hb as <- _; reflexivity).
    assert (He : message e = "Connection error.")
      by (vm_compute in Hb; injection Hb as _ <-; reflexivity).
    rewrite Hs, He in H. exact H.
  - destruct (handlerBody scenarioStringify scenarioParse scenarioTruthy (scriptedEnv "o3-mini" true brokenStream) req
                (set_res freshResponse world0)) as [wb [u|e]] eqn:Hb;
      [vm_compute in Hb; discriminate|].
    pose proof (failure_handling scenarioStringify scenarioParse scenarioTruthy _ req world0 wb e Hb) as H.
    assert (Hs : headersSent (res wb) = true)
      by (vm_compute in Hb; injection Hb as <- _; reflexivity).
    rewrite Hs in H. exact H.
Defined.

(** C10, as stated, fails on a cold cache: by the time the tool mapping
    throws, the metadata lookup for the chosen model has been issued. *)
Lemma metadata_lookup_precedes_tool_mapping :
  let r := scenarioServe
             (scriptedEnv "o3-mini" true (streamOf []))
             (userRequest (Some "o3-mini") None None
                (Some [toolWithoutDescription]) None)
             world0 in
  retrieved (world0 (JSON:=string)) = []
  ∧ retrieved r.1 = ["o3-mini"]
  ∧ statusCode (res r.1) = 400
  ∧ jsonBody (res r.1)
    = Some {| status := "error"; body_message := message (typeError "length") |}.
Proof. vm_compute. repeat split; reflexivity. Qed.

Lemma missing_description_rejected_witness :
  let req := userRequest (Some "o3-mini") None None
               (Some [toolWithoutDescription]) None in
  let r := scenarioServe (scriptedEnv "o3-mini" true (streamOf [])) req world0 in
  description toolWithoutDescription = None
  ∧ ∃ m,
      r.2 = Return tt
      ∧ statusCode (res r.1) = 400
      ∧ jsonBody (res r.1) = Some {| status := "error"; body_message := m |}
      ∧ written (res r.1) = []
      ∧ created r.1 = []
      ∧ (is_Some (req_messages req) → m = message (typeError "length")).
Proof.
  intros req r. split; [reflexivity|].
  apply (missing_description_rejected scenarioStringify scenarioParse
           scenarioTruthy
           (scriptedEnv "o3-mini" true (streamOf [])) req world0
           [toolWithoutDescription]).
  - reflexivity.
  - exists toolWithoutDescription. split; [apply list_elem_of_singleton|]; reflexivity.
Defined.

(** * Further properties *)

(** ** Strings *)

Lemma prefix_app (p s : string) :
  String.prefix p s = true ↔ ∃ t, s = p +:+ t.
Proof.
  revert s. induction p as [|a p IH]; intros s.
  - split; [intros _; exists s; reflexivity | intros _; destruct s; reflexivity].
  - destruct s as [|b s]; simpl.
    + split; [discriminate | intros [t Ht]; discriminate].
    + destruct (ascii_dec a b) as [->|Hne].
      * rewrite IH. split; intros [t Ht]; exists t.
        -- change (String b s = String b (p +:+ t)). f_equal. exact Ht.
        -- change (String b s = String b (p +:+ t)) in Ht. congruence.
      * split; [discriminate|]. intros [t Ht].
        change (String b s = String a (p +:+ t)) in Ht. congruence.
Qed.

Lemma startsWith_trans (s p q : string) :
  startsWith s p = true → startsWith p q = true → startsWith s q = true.
Proof.
  unfold startsWith. rewrite !prefix_app.
  intros [t ->] [u ->]. exists (u +:+ t). apply append_assoc.
Qed.

Lemma substring_0_length (n : nat) (s : string) :
  String.length (String.substring 0 n s) = Nat.min n (String.length s).
Proof.
  revert s. induction n as [|n IH]; intros s.
  - destruct s; reflexivity.
  - destruct s as [|c s]; [reflexivity|]. simpl. rewrite IH. reflexivity.
Qed.

Lemma substring_0_prefix (n : nat) (s : string) :
  String.prefix (String.substring 0 n s) s = true.
Proof.
  revert s. induction n as [|n IH]; intros s.
  - destruct s; reflexivity.
  - destruct s as [|c s]; [reflexivity|]. simpl.
    destruct (ascii_dec c c) as [_|Hne]; [apply IH | congruence].
Qed.

(** ** File extraction *)

Lemma allChars_takeWhile (p : ascii → bool) (s : string) :
  allChars p (takeWhile p s) = true.
Proof.
  induction s as [|c s IH]; [reflexivity|]. simpl.
  destruct (p c) eqn:Hc; [| reflexivity]. simpl. rewrite Hc. exact IH.
Qed.

Lemma allChars_app_l (p : ascii → bool) (a b : string) :
  allChars p (a +:+ b) = true → allChars p a = true.
Proof.
  induction a as [|c a IH]; [reflexivity|].
  change (allChars p (String c (a +:+ b)) = true → allChars p (String c a) = true).
  simpl. intros H. apply andb_true_iff in H as [H1 H2].
  rewrite H1. apply IH, H2.
Qed.

Lemma longestTfPrefix_spec (s p : string) :
  longestTfPrefix s = Some p →
  endsWith p ".tf" ∧ (∃ t, s = p +:+ t) ∧ (3 ≤ String.length p)%nat.
Proof.
  revert p. induction s as [|c s IH]; intros p H; [discriminate|].
  cbn [longestTfPrefix] in H. destruct (longestTfPrefix s) as [q|].
  - injection H as <-. destruct (IH q eq_refl) as ([t Ht] & [u Hu] & Hl).
    split; [| split].
    + exists (String c t). rewrite Ht. reflexivity.
    + exists u. rewrite Hu. reflexivity.
    + simpl. lia.
  - destruct (String.prefix ".tf" (String c s)) eqn:Hp; [| discriminate].
    injection H as <-. split; [| split].
    + exists "". reflexivity.
    + apply prefix_app. exact Hp.
    + simpl. lia.
Qed.

Lemma matchTfAt_spec (s name : string) :
  matchTfAt s = Some name → isTfName name.
Proof.
  unfold matchTfAt.
  pose proof (allChars_takeWhile isFileNameChar (skipWhile isWhiteSpace s)) as Hall.
  destruct (takeWhile isFileNameChar (skipWhile isWhiteSpace s)) as [|c rest];
    [discriminate|].
  destruct (longestTfPrefix rest) as [p|] eqn:Hp; [| discriminate].
  intros [= <-]. destruct (longestTfPrefix_spec rest p Hp) as ([t Ht] & [u Hu] & Hl).
  split; [| split].
  - exists (String c t). rewrite Ht. reflexivity.
  - simpl in Hall. apply andb_true_iff in Hall as [H1 H2].
    simpl. rewrite H1. simpl. rewrite Hu in H2. apply (allChars_app_l _ _ _ H2).
  - simpl. lia.
Qed.

Lemma matchTf_spec (line name : string) :
  matchTf line = Some name → isTfName name.
Proof.
  induction line as [|c line IH].
  - cbn. discriminate.
  - cbn [matchTf]. destruct (matchTfAt (String c line)) eqn:H.
    + intros [= <-]. apply (matchTfAt_spec _ _ H).
    + exact IH.
Qed.

Lemma appendTo_keys (name more : string) files :
  map fst (appendTo name more files) = map fst files.
Proof.
  induction files as [|[k v] files IH]; [reflexivity|]. simpl.
  case_bool_decide; simpl; [reflexivity | rewrite IH; reflexivity].
Qed.

Lemma assign_keys (name value : string) files :
  map fst (assign name value files)
  = if bool_decide (name ∈ map fst files) then map fst files
    else map fst files ++ [name].
Proof.
  induction files as [|[k v] files IH]; [reflexivity|]. simpl.
  destruct (decide (k = name)) as [->|Hne].
  - rewrite bool_decide_eq_true_2 by reflexivity. simpl.
    rewrite bool_decide_eq_true_2 by (left). reflexivity.
  - rewrite bool_decide_eq_false_2 by exact Hne. simpl. rewrite IH.
    destruct (decide (name ∈ map fst files)) as [Hin|Hnin].
    + rewrite !bool_decide_eq_true_2; [reflexivity | right; exact Hin | exact Hin].
    + rewrite !bool_decide_eq_false_2; [reflexivity | | exact Hnin].
      intros Hin. apply elem_of_cons in Hin as [->|Hin]; contradiction.
Qed.

Lemma parseLines_keys lines :
  ∀ files currentFile,
    Forall isTfName (map fst files) →
    NoDup (map fst files) →
    Forall isTfName (map fst (parseLines lines files currentFile))
    ∧ NoDup (map fst (parseLines lines files currentFile)).
Proof.
  induction lines as [|line lines IH]; intros files currentFile HF HN; simpl.
  - split; assumption.
  - destruct (matchTf line) as [name|] eqn:Hm.
    + apply IH; rewrite assign_keys; case_bool_decide as Hin; try assumption.
      * apply Forall_app. split; [exact HF|]. constructor; [| constructor].
        apply (matchTf_spec _ _ Hm).
      * apply NoDup_app. split; [exact HN|]. split.
        -- intros x Hx Hx'. apply list_elem_of_singleton in Hx'. subst x. contradiction.
        -- apply NoDup_singleton.
    + destruct currentFile as [name|]; [| apply IH; assumption].
      destruct (isBlank line); apply IH; rewrite ?appendTo_keys; assumption.
Qed.

(** X20: every file name extracted from a generated text consists of
    letters, digits, [_], [/], [.] and [-] only, ends in [.tf] and has at
    least one character before that; no name is listed twice. *)
Theorem extracted_names_are_tf_names (text : string) :
  Forall isTfName (map fst (parseFilesFromText text))
  ∧ NoDup (map fst (parseFilesFromText text)).
Proof.
  unfold parseFilesFromText. apply parseLines_keys; constructor.
Qed.

(** ** Model Capability Resolver *)

Lemma allowed_not_inherited (modelName : string) :
  includes allowedModels modelName = true →
  includes objectPrototypeMembers modelName = false.
Proof.
  unfold includes at 1. rewrite bool_decide_eq_true. unfold allowedModels.
  intros H.
  repeat (apply elem_of_cons in H as [->|H]; [reflexivity|]).
  apply elem_of_nil in H. destruct H.
Qed.

(** X1: the limit table never yields 64000: a name that starts with
    [o1-mini] is caught by the earlier [o1] test and gets 32000.  Every
    limit is one of 16384, 32000, 100000 and 4096. *)
Theorem limit_table_values (modelName : string) :
  maxCompletionTokensFor modelName ∈ [16384; 32000; 100000; 4096]
  ∧ (startsWith modelName "o1-mini" = true →
     maxCompletionTokensFor modelName = 32000).
Proof.
  split.
  - unfold maxCompletionTokensFor.
    destruct (startsWith modelName "gpt-4o-mini") eqn:H1; [set_solver|].
    destruct (startsWith modelName "gpt-4o") eqn:H2; [set_solver|].
    destruct (startsWith modelName "o1") eqn:H3; [set_solver|].
    destruct (startsWith modelName "o1-mini") eqn:H4.
    { rewrite (startsWith_trans modelName "o1-mini" "o1" H4 eq_refl) in H3.
      discriminate. }
    destruct (startsWith modelName "o3-mini"); [set_solver|].
    destruct (startsWith modelName "gpt-4"); set_solver.
  - intros H.
    pose proof (startsWith_trans modelName "o1-mini" "o1" H eq_refl) as Ho1.
    unfold maxCompletionTokensFor.
    destruct (startsWith modelName "gpt-4o-mini") eqn:H1.
    { apply prefix_app in H as [t ->]. discriminate. }
    destruct (startsWith modelName "gpt-4o") eqn:H2.
    { apply prefix_app in H as [t ->]. discriminate. }
    rewrite Ho1. reflexivity.
Qed.

Section MoreProperties.
Context {JSON : Type}.
Variable JSON_stringify : JSON → string.
Variable JSON_parse : string → option JSON.
Variable js_truthy : JSON → bool.

Implicit Types (w : @World JSON) (env : @Env JSON) (req : @ChatRequest JSON).

Local Abbreviation serve1 := (serve JSON_stringify JSON_parse js_truthy).
Local Abbreviation serveAll1 := (serveAll JSON_stringify JSON_parse js_truthy).
Local Abbreviation translate1 := (translateRequest JSON_stringify js_truthy).

(** ** Resilient Invoker *)





(** ** Request Translator *)

(** What a successful tool mapping returns. *)
Lemma mapTools_return (tools : list (@ToolDefinition JSON)) :
  ∀ w w' mapped,
    mapTools tools w = (w', Return mapped) →
    w' = w
    ∧ Forall2
        (λ item u,
           up_name u = tool_name item
           ∧ up_parameters u = input_schema item
           ∧ ∃ d, description item = Some d
                  ∧ up_description u
                    = if (1024 <? String.length d)%nat
                      then String.substring 0 1024 d else d)
        tools mapped.
Proof.
  induction tools as [|item rest IH]; intros w w' mapped H.
  - injection H as <- <-. split; [reflexivity | constructor].
  - simpl in H. destruct (description item) as [d|] eqn:Hd; [| discriminate].
    unfold bind in H. destruct (mapTools rest w) as [w1 [l|e]] eqn:Hr;
      [| discriminate].
    injection H as <- <-. destruct (IH w w1 l Hr) as [-> HF].
    split; [reflexivity|]. constructor; [| exact HF].
    simpl. repeat split. exists d. split; [exact Hd | reflexivity].
Qed.

(** A successful translation, spelled out. *)
Lemma translateRequest_return env req w wt data :
  translate1 env req w = (wt, Return data) →
  let model := chooseModel env (req_model req) in
  ∃ cfg messages,
    getModelConfig env model w = (wt, Return cfg)
    ∧ req_messages req = Some messages
    ∧ data_model data = model
    ∧ data_messages data
      = systemMessagesOf (req_system req)
        ++ map (flattenMessage JSON_stringify js_truthy) messages
    ∧ data_stream data = true
    ∧ (data_temperature data, data_max_completion_tokens data,
       data_max_tokens data)
      = negotiate (includes allowedModels model) cfg req
    ∧ match req_tools req with
      | Some tools =>
          ∃ mapped, mapTools tools wt = (wt, Return mapped)
                    ∧ data_tools data = Some mapped
      | None => data_tools data = None
      end.
Proof.
  intros Et model. unfold translateRequest in Et. fold model in Et.
  destruct (getModelConfig env model w) as [w1 [cfg|e]] eqn:Eg.
  2:{ rewrite (bind_throw _ _ _ _ _ Eg) in Et. discriminate. }
  rewrite (bind_return _ _ _ _ _ Eg) in Et.
  unfold flattenMessages in Et.
  destruct (req_messages req) as [messages|]; [| discriminate].
  rewrite (bind_return _ _ w1 w1 _ eq_refl) in Et.
  destruct (negotiate (includes allowedModels model) cfg req)
    as [[temperature mct] mt] eqn:En.
  exists cfg, messages.
  destruct (req_tools req) as [tools|].
  - destruct (mapTools tools w1) as [w2 [mapped|e]] eqn:Em.
    + destruct (mapTools_return tools w1 w2 mapped Em) as [-> _].
      rewrite (bind_return _ _ w1 w1 (Some mapped)) in Et
        by (rewrite (bind_return _ _ _ _ _ Em); reflexivity).
      injection Et as <- <-. simpl.
      do 5 (split; [reflexivity|]). split; [symmetry; exact En|].
      exists mapped. split; [exact Em | reflexivity].
    + rewrite (bind_throw _ _ w1 w2 e) in Et
        by (rewrite (bind_throw _ _ _ _ _ Em); reflexivity).
      discriminate.
  - rewrite (bind_return _ _ w1 w1 None eq_refl) in Et.
    injection Et as <- <-. simpl. do 5 (split; [reflexivity|]).
    split; [symmetry; exact En | reflexivity].
Qed.

Lemma chooseModel_cases env (model : option string) :
  (includes allowedModels (chooseModel env model) = true)
  ∨ (chooseModel env model = defaultModel env).
Proof.
  unfold chooseModel.
  destruct (includes allowedModels
              (if truthy_string model then default "" model
               else defaultModel env)) eqn:H; [left; exact H | right; reflexivity].
Qed.

(** X5: when the configured default model is on the allow-list, the
    legacy branch is dead: every translated request names an allow-listed
    model, has temperature 1 and no [max_tokens], whatever the caller
    asked for. *)
Theorem allowed_default_makes_all_fixed_temperature env req w wt data :
  includes allowedModels (defaultModel env) = true →
  translate1 env req w = (wt, Return data) →
  includes allowedModels (data_model data) = true
  ∧ data_temperature data = Some 1%Q
  ∧ data_max_tokens data = None.
Proof.
  intros Hd Et.
  destruct (translateRequest_return env req w wt data Et)
    as (cfg & messages & _ & _ & Hm & _ & _ & Hn & _).
  assert (Ha : includes allowedModels (chooseModel env (req_model req)) = true).
  { destruct (chooseModel_cases env (req_model req)) as [H | ->]; assumption. }
  rewrite Ha in Hn. unfold negotiate in Hn. injection Hn as H1 _ H3.
  rewrite Hm. repeat split; assumption.
Qed.

(** X6: for an allow-listed model the requested token count is
    [max_completion_tokens || max_tokens]; zero or absent, no token field
    is sent; otherwise it is sent as [max_completion_tokens], cut down to
    the cached limit of the model when it exceeds it. *)
Theorem token_limit_clamped env req w wt data :
  includes allowedModels (chooseModel env (req_model req)) = true →
  translate1 env req w = (wt, Return data) →
  ∃ c,
    modelConfigCache wt !! chooseModel env (req_model req) = Some c
    ∧ data_max_tokens data = None
    ∧ (cfg_max_tokens c ≠ 0 →
       data_max_completion_tokens data
       = match or_number (req_max_completion_tokens req) (req_max_tokens req) with
         | Some t => if t =? 0 then None else Some (Z.min t (cfg_max_tokens c))
         | None => None
         end).
Proof.
  intros Ha Et.
  destruct (translateRequest_return env req w wt data Et)
    as (cfg & messages & Hg & _ & _ & _ & _ & Hn & _).
  rewrite Ha in Hn.
  destruct (getModelConfig_resolves env (chooseModel env (req_model req)) w)
    as (r & Hr & Hres & _).
  rewrite Hg in Hr, Hres. simpl in Hr, Hres. injection Hr as <-.
  destruct cfg as [c|m].
  2:{ destruct Hres as (_ & _ & Hp).
      rewrite (allowed_not_inherited _ Ha) in Hp. discriminate. }
  exists c. simpl in Hres. split; [exact Hres|].
  unfold negotiate in Hn. injection Hn as _ H2 H3.
  split; [exact H3|]. intros Hc. rewrite H2. simpl.
  destruct (or_number (req_max_completion_tokens req) (req_max_tokens req))
    as [t|]; [| reflexivity].
  destruct (Z.eqb_spec t 0) as [->|Hne]; [reflexivity|].
  assert (Ht : truthy_number (Some t) = true) by (destruct t; [lia | |]; reflexivity).
  rewrite Ht. simpl.
  destruct (Z.gtb_spec t (cfg_max_tokens c)) as [Hgt|Hle].
  - rewrite Z.min_r by lia.
    destruct (cfg_max_tokens c); [lia | reflexivity | reflexivity].
  - rewrite Z.min_l by lia. rewrite Ht. reflexivity.
Qed.

(** X7: the upstream messages are the caller's system blocks in order, each
    as a system message with the block's text, then the fixed instruction,
    then the caller's messages in order: each keeps its role, a scalar
    content is passed on as it is and an array content part by part, in
    order, each part rewritten by [flattenPart].  The request always asks
    for a stream and never carries both token fields. *)
Theorem upstream_request_shape env req w wt data :
  translateRequest JSON_stringify js_truthy env req w = (wt, Return data) →
  ∃ messages upstream,
    req_messages req = Some messages
    ∧ data_messages data
      = map (λ item, {| up_role := "system";
                        up_content := UpScalar (sys_text item) |})
            (default [] (req_system req))
        ++ {| up_role := "system";
              up_content := UpScalar (Some defaultSystemInstruction) |}
           :: upstream
    ∧ Forall2
        (λ m u,
           up_role u = role m
           ∧ up_content u
             = match msg_content m with
               | ScalarContent s => UpScalar (Some s)
               | PartsContent parts =>
                   UpParts (map (flattenPart JSON_stringify js_truthy) parts)
               end)
        messages upstream
    ∧ data_stream data = true
    ∧ (data_max_tokens data = None ∨ data_max_completion_tokens data = None).
Proof.
  intros Et.
  destruct (translateRequest_return env req w wt data Et)
    as (cfg & messages & _ & Hm & _ & Hd & Hs & Hn & _).
  exists messages, (map (flattenMessage JSON_stringify js_truthy) messages).
  split; [exact Hm|]. rewrite Hd. unfold systemMessagesOf.
  split; [| split; [| split; [exact Hs|]]].
  - rewrite <- app_assoc. reflexivity.
  - clear. induction messages as [|m l IH]; simpl; constructor; [| exact IH].
    unfold flattenMessage. destruct (msg_content m); split; reflexivity.
  - unfold negotiate in Hn.
    destruct (includes allowedModels (chooseModel env (req_model req)));
      injection Hn as _ H2 H3; [left | right]; assumption.
Qed.

(** X8: messages whose content is a scalar pass through the flattening
    unchanged: same role, same content, same order. *)
Theorem scalar_messages_pass_through env req w wt data messages :
  translateRequest JSON_stringify js_truthy env req w = (wt, Return data) →
  req_messages req = Some messages →
  Forall (λ m, ∃ s, msg_content m = ScalarContent s) messages →
  Forall2
    (λ m u, up_role u = role m
            ∧ ∃ s, msg_content m = ScalarContent s
                   ∧ up_content u = UpScalar (Some s))
    messages
    (drop (S (length (default [] (req_system req)))) (data_messages data)).
Proof.
  intros Et Hm HF.
  destruct (translateRequest_return env req w wt data Et)
    as (cfg & messages' & _ & Hm' & _ & Hd & _).
  rewrite Hm in Hm'. injection Hm' as <-. rewrite Hd.
  unfold systemMessagesOf.
  rewrite drop_app_length'
    by (rewrite length_app, length_map; simpl; lia).
  clear Hm Hd. induction HF as [|m l [s Hs] _ IH]; simpl; constructor; [| exact IH].
  unfold flattenMessage. rewrite Hs. simpl. split; [reflexivity|].
  exists s. split; reflexivity.
Qed.

(** X9: flattening a content part is idempotent; afterwards no part is
    typed [tool_use] or [tool_result], and a part typed [text] has a text
    and no structured content. *)
Theorem flattenPart_idempotent (it : @ContentPart JSON) :
  let p := flattenPart JSON_stringify js_truthy it in
  flattenPart JSON_stringify js_truthy p = p
  ∧ part_type p ≠ Some "tool_use"
  ∧ part_type p ≠ Some "tool_result"
  ∧ (part_type p = Some "text" →
     part_content p = None ∧ is_Some (part_text p)).
Proof.
  assert (Htext : includes ["tool_result"; "tool_use"] "text" = false)
    by reflexivity.
  cbv zeta. unfold flattenPart. destruct it as [ty text pc rest].
  cbn [part_type part_text part_content part_rest].
  set (type := match ty with
               | Some t => if includes ["tool_result"; "tool_use"] t
                           then Some "text" else Some t
               | None => None
               end).
  assert (Hty : type ≠ Some "tool_use" ∧ type ≠ Some "tool_result"
                ∧ match type with
                  | Some t => if includes ["tool_result"; "tool_use"] t
                              then Some "text" else Some t
                  | None => None
                  end = type).
  { subst type. destruct ty as [t|]; [| repeat split; discriminate].
    destruct (includes ["tool_result"; "tool_use"] t) eqn:Hi.
    - rewrite Htext. repeat split; discriminate.
    - rewrite Hi. repeat split; intros [= ->]; discriminate. }
  destruct Hty as (H1 & H2 & H3).
  destruct (bool_decide (type = Some "text")) eqn:Hb;
    cbn [part_type part_text part_content part_rest];
    rewrite H3, Hb; cbn [default].
  - split; [reflexivity|]. split; [exact H1|]. split; [exact H2|].
    intros _. split; [reflexivity | eauto].
  - split; [reflexivity|]. split; [exact H1|]. split; [exact H2|].
    intros H. apply bool_decide_eq_false in Hb. contradiction.
Qed.

(** X10: the tool definitions are mapped one to one and in order, with
    name and schema unchanged; each description is the original cut to its
    first 1024 characters, so its length is the smaller of the original
    length and 1024. *)
Theorem tool_descriptions_truncated env req w wt data tools :
  translateRequest JSON_stringify js_truthy env req w = (wt, Return data) →
  req_tools req = Some tools →
  ∃ mapped,
    data_tools data = Some mapped
    ∧ Forall2
        (λ item u,
           up_name u = tool_name item
           ∧ up_parameters u = input_schema item
           ∧ ∃ d, description item = Some d
                  ∧ String.prefix (up_description u) d = true
                  ∧ String.length (up_description u)
                    = Nat.min (String.length d) 1024)
        tools mapped.
Proof.
  intros Et Ht.
  destruct (translateRequest_return env req w wt data Et)
    as (cfg & messages & _ & _ & _ & _ & _ & _ & Htools).
  rewrite Ht in Htools. destruct Htools as (mapped & Em & Hd).
  exists mapped. split; [exact Hd|].
  destruct (mapTools_return tools wt wt mapped Em) as [_ HF].
  eapply Forall2_impl; [exact HF|].
  intros item u (H1 & H2 & d & H3 & H4). repeat split; try assumption.
  exists d. split; [exact H3|]. rewrite H4.
  destruct (Nat.ltb_spec 1024 (String.length d)) as [Hlt|Hle].
  - split; [apply substring_0_prefix|]. rewrite substring_0_length. lia.
  - split; [| lia]. apply prefix_app. exists "". symmetry. apply append_nil_r.
Qed.

(** X11: a request without [messages] is answered with status 400 and the
    JSON error body naming the failed [map]; nothing is streamed and no
    upstream chat call is made. *)
Theorem missing_messages_rejected env req w :
  req_messages req = None →
  let r := serve1 env req w in
  r.2 = Return tt
  ∧ statusCode (res r.1) = 400
  ∧ jsonBody (res r.1)
    = Some {| status := "error"; body_message := message (typeError "map") |}
  ∧ written (res r.1) = []
  ∧ created r.1 = created w.
Proof.
  intros Hm r. subst r.
  set (w0 := set_res freshResponse w).
  assert (Et : ∃ wt, translate1 env req w0 = (wt, Throw (typeError "map"))).
  { unfold translateRequest.
    destruct (getModelConfig_resolves env (chooseModel env (req_model req)) w0)
      as (cfg & Hr & _).
    destruct (getModelConfig env (chooseModel env (req_model req)) w0)
      as [w1 r1] eqn:Eg. simpl in Hr. subst r1.
    rewrite (bind_return _ _ _ _ _ Eg). rewrite Hm. exists w1. reflexivity. }
  destruct Et as [wt Et].
  pose proof (translateRequest_keeps JSON_stringify js_truthy res env req
                ltac:(reflexivity) ltac:(reflexivity) w0) as Kres.
  pose proof (translateRequest_keeps JSON_stringify js_truthy created env req
                ltac:(reflexivity) ltac:(reflexivity) w0) as Kcr.
  rewrite Et in Kres, Kcr. simpl in Kres, Kcr.
  assert (Hb : handlerBody JSON_stringify JSON_parse js_truthy env req w0
               = (wt, Throw (typeError "map"))).
  { unfold handlerBody. apply bind_throw, Et. }
  rewrite (serve_unfold JSON_stringify JSON_parse js_truthy env req w wt _ Hb).
  unfold resStatusJson. rewrite Kres. simpl. repeat split. exact Kcr.
Qed.

(** ** Stream Translator *)

Ltac split_delta fileMode st d :=
  unfold processDelta, openToolBlock, appendArguments, accumulate,
    openTextBlock, emitText, closeToolBlock;
  destruct (tool_calls d) as [[|toolCall ?]|];
  try destruct (truthy_string (fn_arguments toolCall));
  destruct (truthy_string (content d));
  destruct fileMode;
  cbn [isToolUse hasStartedTextBlock contentBlockIndex fullOutput
       currentContentBlocks toolUseJson];
  destruct (isToolUse st) eqn:?;
  destruct (hasStartedTextBlock st) eqn:?;
  cbn [fst snd app negb
       isToolUse hasStartedTextBlock contentBlockIndex fullOutput
       currentContentBlocks toolUseJson];
  match goal with
  | H1 : isToolUse st = _, H2 : hasStartedTextBlock st = _ |- _ =>
      rewrite ?H1, ?H2
  end.

Lemma processStream_app fileMode cs1 cs2 st :
  processStream JSON_parse fileMode (cs1 ++ cs2) st
  = let r1 := processStream JSON_parse fileMode cs1 st in
    let r2 := processStream JSON_parse fileMode cs2 r1.1 in
    (r2.1, r1.2 ++ r2.2).
Proof.
  revert st. induction cs1 as [|c cs1 IH]; intros st; simpl.
  - destruct (processStream JSON_parse fileMode cs2 st); reflexivity.
  - destruct (processDelta JSON_parse fileMode (arrivedAt c) st (delta c))
      as [st1 ev1].
    rewrite IH. simpl.
    destruct (processStream JSON_parse fileMode cs1 st1) as [st2 ev2]. simpl.
    destruct (processStream JSON_parse fileMode cs2 st2) as [st3 ev3]. simpl.
    rewrite app_assoc. reflexivity.
Qed.

Lemma processDelta_index_range fileMode now st d :
  let r := processDelta JSON_parse fileMode now st d in
  (contentBlockIndex st ≤ contentBlockIndex r.1)%nat
  ∧ Forall (λ ev, eventIndex ev = Some (contentBlockIndex st)) r.2.
Proof.
  split_delta fileMode st d; split; try lia; repeat constructor.
Qed.

(** X12: every event of the loop carries a block index, the indices never
    decrease along the stream, and none exceeds the final
    [contentBlockIndex], the index of the trailing stop. *)
Theorem event_indices_bounded fileMode cs :
  ∀ st,
    let r := processStream JSON_parse fileMode cs st in
    (contentBlockIndex st ≤ contentBlockIndex r.1)%nat
    ∧ Forall (λ ev, ∃ i, eventIndex ev = Some i
                         ∧ (contentBlockIndex st ≤ i ≤ contentBlockIndex r.1)%nat)
        r.2
    ∧ Sorted (λ i j, i ≤ j)%nat (omap eventIndex r.2).
Proof.
  induction cs as [|c cs IH]; intros st; simpl.
  - split; [lia|]. split; constructor.
  - pose proof (processDelta_index_range fileMode (arrivedAt c) st (delta c))
      as [Hle HF].
    destruct (processDelta JSON_parse fileMode (arrivedAt c) st (delta c))
      as [st1 ev1]. simpl in Hle, HF.
    destruct (IH st1) as (Hle2 & HF2 & HS2).
    destruct (processStream JSON_parse fileMode cs st1) as [st2 ev2].
    simpl in *. split; [lia|]. split.
    + apply Forall_app. split.
      * eapply Forall_impl; [exact HF|]. intros ev Hev.
        exists (contentBlockIndex st). split; [exact Hev | lia].
      * eapply Forall_impl; [exact HF2|]. intros ev (i & Hi & Hr).
        exists i. split; [exact Hi | lia].
    + rewrite omap_app.
      assert (H1 : omap eventIndex ev1
                   = replicate (length ev1) (contentBlockIndex st)).
      { clear -HF. induction HF as [|ev l Hev _ IH']; [reflexivity|].
        simpl. rewrite Hev. simpl. f_equal. exact IH'. }
      rewrite H1. clear H1 HF.
      assert (H2 : Forall (λ i, contentBlockIndex st ≤ i)%nat (omap eventIndex ev2)).
      { clear -HF2 Hle. induction HF2 as [|ev l (i & Hi & Hr) _ IH'];
          [constructor|]. simpl. rewrite Hi. simpl. constructor; [lia | exact IH']. }
      induction (length ev1) as [|n IHn]; simpl; [exact HS2|].
      apply Sorted_cons; [exact IHn|].
      destruct n; simpl.
      * destruct H2; [apply HdRel_nil | apply HdRel_cons; assumption].
      * apply HdRel_cons. lia.
Qed.

(** X15: every [content_block_start] adds exactly one entry to
    [currentContentBlocks], and nothing else does: the [message_delta]
    lists as many blocks as blocks were started. *)
Theorem blocks_match_starts fileMode cs :
  ∀ st,
    let r := processStream JSON_parse fileMode cs st in
    length (currentContentBlocks r.1)
    = (length (currentContentBlocks st) + countEvents isBlockStart r.2)%nat.
Proof.
  induction cs as [|c cs IH]; intros st; simpl.
  - unfold countEvents. simpl. lia.
  - assert (H : let r := processDelta JSON_parse fileMode (arrivedAt c) st (delta c) in
                length (currentContentBlocks r.1)
                = (length (currentContentBlocks st)
                   + countEvents isBlockStart r.2)%nat).
    { generalize (arrivedAt c) as now. intros now.
      split_delta fileMode st (delta c); unfold countEvents; simpl;
        try destruct (JSON_parse _);
        rewrite ?length_alter, ?length_app, ?length_alter; simpl; lia. }
    destruct (processDelta JSON_parse fileMode (arrivedAt c) st (delta c))
      as [st1 ev1]. simpl in H.
    specialize (IH st1).
    destruct (processStream JSON_parse fileMode cs st1) as [st2 ev2].
    simpl in *. rewrite countEvents_app. lia.
Qed.

(** X16: the stop reason is decided by the last delta that carries
    anything: after a tool-call delta the stream is inside a tool-use block
    ([stop_reason] "tool_use"), after a text delta it is not ("end_turn"),
    and a delta with neither leaves it as it was. *)
Theorem last_delta_decides_stop_reason fileMode cs c st :
  isToolUse (processStream JSON_parse fileMode (cs ++ [c]) st).1
  = if isToolDelta (delta c) then true
    else if isTextDeltaIn (delta c) then false
    else isToolUse (processStream JSON_parse fileMode cs st).1.
Proof.
  rewrite processStream_app. cbv zeta.
  destruct (processStream JSON_parse fileMode cs st) as [st1 ev1].
  cbn [fst snd processStream].
  destruct (processDelta JSON_parse fileMode (arrivedAt c) st1 (delta c))
    as [st2 ev2] eqn:Hd. cbn [fst].
  assert (H : isToolUse (processDelta JSON_parse fileMode (arrivedAt c) st1 (delta c)).1
              = if isToolDelta (delta c) then true
                else if isTextDeltaIn (delta c) then false
                else isToolUse st1).
  { unfold isTextDeltaIn, isToolDelta. generalize (arrivedAt c) as now. intros now.
    clear Hd. split_delta fileMode st1 (delta c); reflexivity. }
  rewrite Hd in H. exact H.
Qed.

(** A stream without tool calls, from a state whose text block at index 0
    is already open. *)
Lemma text_stream_continues cs :
  Forall (λ c, isToolDelta (delta c) = false) cs →
  ∀ t,
    processStream JSON_parse false cs
      {| contentBlockIndex := 0;
         currentContentBlocks :=
           [ {| block_type := TextBlock; block_text := Some t;
                block_id := None; block_name := None; block_input := None |} ];
         hasStartedTextBlock := true; isToolUse := false;
         toolUseJson := ""; fullOutput := "" |}
    = ({| contentBlockIndex := 0;
          currentContentBlocks :=
            [ {| block_type := TextBlock;
                 block_text := Some (t +:+ concatStrings (textFragments cs));
                 block_id := None; block_name := None; block_input := None |} ];
          hasStartedTextBlock := true; isToolUse := false;
          toolUseJson := ""; fullOutput := "" |},
       map (TextDelta 0) (textFragments cs)).
Proof.
  induction 1 as [|c cs Hc _ IH]; intros t.
  - simpl. rewrite append_nil_r. reflexivity.
  - cbn [processStream]. unfold textFragments. cbn [omap list_omap].
    fold (textFragments cs). unfold isTextDeltaIn. rewrite Hc. cbn [negb andb].
    unfold isToolDelta in Hc. unfold processDelta.
    destruct (tool_calls (delta c)) as [[|toolCall ?]|]; try discriminate;
      (destruct (truthy_string (content (delta c))) eqn:Ht;
       [ destruct (content (delta c)) as [s|] eqn:Hs; [| discriminate];
         cbn; unfold appendText; cbn; rewrite IH; cbn; rewrite append_assoc; reflexivity
       | cbn; rewrite IH; reflexivity ]).
Qed.

(** X13: a stream without tool calls is relayed faithfully in stream mode:
    one text block is started at index 0 when the first text arrives, every
    text fragment is sent as a delta at index 0 in order, and the block
    accumulated for [message_delta] holds their concatenation.  A stream
    that carries no text starts no block. *)
Theorem text_only_stream_relayed cs :
  Forall (λ c, isToolDelta (delta c) = false) cs →
  let r := processStream JSON_parse false cs streamState0 in
  contentBlockIndex r.1 = 0%nat
  ∧ isToolUse r.1 = false
  ∧ match textFragments cs with
    | [] => r.2 = [] ∧ currentContentBlocks r.1 = []
    | fragments =>
        r.2 = TextBlockStart 0 :: map (TextDelta 0) fragments
        ∧ currentContentBlocks r.1
          = [ {| block_type := TextBlock;
                 block_text := Some (concatStrings fragments);
                 block_id := None; block_name := None;
                 block_input := None |} ]
    end.
Proof.
  induction 1 as [|c cs Hc HF IH].
  - simpl. repeat split.
  - cbn [processStream]. unfold textFragments. cbn [omap list_omap].
    fold (textFragments cs). unfold isTextDeltaIn. rewrite Hc. cbn [negb andb].
    pose proof Hc as Hc'. unfold isToolDelta in Hc'. unfold processDelta.
    destruct (tool_calls (delta c)) as [[|toolCall ?]|]; try discriminate;
      (destruct (truthy_string (content (delta c))) eqn:Ht;
       [ destruct (content (delta c)) as [s|] eqn:Hs; [| discriminate];
         cbn; unfold appendText, textBlock; cbn;
         rewrite (text_stream_continues cs HF); cbn; repeat split
       | cbn; cbv zeta in IH;
         destruct (processStream JSON_parse false cs streamState0); exact IH ]).
Qed.

Lemma parsedInput_last (acc : string) (frags : list string) j :
  ∀ input,
    frags ≠ [] →
    JSON_parse (acc +:+ concatStrings frags) = Some j →
    parsedInput JSON_parse acc frags input = Some (Parsed j).
Proof.
  revert acc. induction frags as [|f frags IH]; intros acc input Hne Hp;
    [congruence|].
  simpl in *. destruct frags as [|g frags].
  - simpl in *. rewrite append_nil_r in Hp. rewrite Hp. reflexivity.
  - apply IH; [discriminate|]. rewrite append_assoc. exact Hp.
Qed.

(** A stream of tool-call deltas, from a state whose tool-use block at
    index 0 is already open. *)
Lemma tool_stream_continues fileMode cs :
  Forall (λ c, isToolDelta (delta c) = true) cs →
  ∀ acc ty text id name input,
    processStream JSON_parse fileMode cs
      {| contentBlockIndex := 0;
         currentContentBlocks :=
           [ {| block_type := ty; block_text := text; block_id := id;
                block_name := name; block_input := input |} ];
         hasStartedTextBlock := false; isToolUse := true;
         toolUseJson := acc; fullOutput := "" |}
    = ({| contentBlockIndex := 0;
          currentContentBlocks :=
            [ {| block_type := ty; block_text := text; block_id := id;
                 block_name := name;
                 block_input :=
                   parsedInput JSON_parse acc (argumentFragments cs) input |} ];
          hasStartedTextBlock := false; isToolUse := true;
          toolUseJson := acc +:+ concatStrings (argumentFragments cs);
          fullOutput := "" |},
       map (InputJsonDelta 0) (argumentFragments cs)).
Proof.
  induction 1 as [|c cs Hc _ IH]; intros acc ty text id name input.
  - simpl. rewrite append_nil_r. reflexivity.
  - cbn [processStream]. unfold argumentFragments. cbn [omap list_omap].
    fold (argumentFragments cs).
    unfold isToolDelta in Hc. unfold processDelta, openToolBlock, appendArguments.
    destruct (tool_calls (delta c)) as [[|toolCall ?]|]; try discriminate.
    cbn [isToolUse].
    destruct (truthy_string (fn_arguments toolCall)) eqn:Ht.
    + destruct (fn_arguments toolCall) as [a|]; [| discriminate].
      cbn. destruct (JSON_parse (acc +:+ a)) as [j|]; cbn; unfold setInput; cbn;
        rewrite IH; cbn; rewrite append_assoc; reflexivity.
    + cbn. rewrite IH. reflexivity.
Qed.

(** X14: a stream of tool-call deltas opens one tool-use block at index 0,
    whose id is made from the arrival time of the first delta and whose
    name is the function name of the first delta's tool call, sends every
    non-empty argument fragment as a JSON delta at index 0 in order,
    buffers their concatenation, and ends inside the block.  Once the
    buffered text parses, the block's [input] is the parsed value. *)
Theorem tool_only_stream_accumulates fileMode c cs :
  Forall (λ c, isToolDelta (delta c) = true) (c :: cs) →
  let r := processStream JSON_parse fileMode (c :: cs) streamState0 in
  let fragments := argumentFragments (c :: cs) in
  let input := parsedInput JSON_parse "" fragments (Some EmptyObject) in
  r.2 = ToolBlockStart 0 ("toolu_" +:+ pretty (arrivedAt c)) (firstToolName c)
          :: map (InputJsonDelta 0) fragments
  ∧ toolUseJson r.1 = concatStrings fragments
  ∧ isToolUse r.1 = true
  ∧ contentBlockIndex r.1 = 0%nat
  ∧ currentContentBlocks r.1
    = [ {| block_type := ToolUseBlock; block_text := None;
           block_id := Some ("toolu_" +:+ pretty (arrivedAt c));
           block_name := Some (firstToolName c); block_input := input |} ]
  ∧ (∀ j, fragments ≠ [] →
          JSON_parse (concatStrings fragments) = Some j →
          input = Some (Parsed j)).
Proof.
  intros HF r fragments input. subst r fragments input.
  apply Forall_cons in HF as [Hc HF].
  cbn [processStream]. unfold argumentFragments, firstToolName.
  cbn [omap list_omap]. fold (argumentFragments cs).
  unfold isToolDelta in Hc. unfold processDelta, openToolBlock, appendArguments.
  destruct (tool_calls (delta c)) as [[|toolCall ?]|]; try discriminate.
  cbn.
  destruct (truthy_string (fn_arguments toolCall)) eqn:Ht.
  - destruct (fn_arguments toolCall) as [a|]; [| discriminate].
    cbn. unfold toolUseBlock, setInput. change ("" +:+ a) with a.
    destruct (JSON_parse a) as [j0|] eqn:Hj; cbn;
      rewrite (tool_stream_continues fileMode cs HF); cbn;
      (split; [reflexivity|]); (split; [reflexivity|]); (split; [reflexivity|]);
      (split; [reflexivity|]); (split; [reflexivity|]);
      intros j Hne Hp;
      pose proof (parsedInput_last "" (a :: argumentFragments cs) j
                    (Some EmptyObject) Hne Hp) as H;
      cbn [parsedInput] in H; change ("" +:+ a) with a in H;
      rewrite Hj in H; exact H.
  - cbn. unfold toolUseBlock.
    rewrite (tool_stream_continues fileMode cs HF). cbn.
    split; [reflexivity|]. split; [reflexivity|]. split; [reflexivity|].
    split; [reflexivity|]. split; [reflexivity|].
    intros j Hne Hp. apply parsedInput_last; assumption.
Qed.

(** ** What the handler writes to disk *)

#[local] Instance writesTfFiles_preorder : PreOrder (@writesTfFiles JSON).
Proof.
  split.
  - intros w. exists []. rewrite app_nil_r. split; [reflexivity | constructor].
  - intros w1 w2 w3 (l1 & H1 & F1) (l2 & H2 & F2). exists (l1 ++ l2).
    rewrite H2, H1, app_assoc. split; [reflexivity|].
    rewrite map_app. apply Forall_app. split; assumption.
Qed.

#[local] Instance keeps_preorder' {B} (f : @World JSON → B) : PreOrder (keeps f).
Proof.
  split; [intros w; reflexivity|].
  intros w1 w2 w3 H1 H2. unfold keeps in *. congruence.
Qed.

Lemma keeps_disk_writesTfFiles w w' : keeps disk w w' → writesTfFiles w w'.
Proof.
  intros H. exists []. rewrite app_nil_r. split; [exact H | constructor].
Qed.

Lemma writeFiles_writes env entries :
  Forall isTfName (map fst entries) →
  ∀ createdFiles, frames writesTfFiles (writeFiles env entries createdFiles).
Proof.
  induction entries as [|[fileName fileContent] rest IH];
    intros HF createdFiles w.
  - reflexivity.
  - simpl in HF. apply Forall_cons in HF as [Hn HF].
    simpl. unfold bind, get. simpl.
    destruct (fsWriteFile env (length (disk w)) fileName fileContent); simpl.
    + reflexivity.
    + etransitivity; [| apply (IH HF)].
      exists [(fileName, fileContent)]. split; [reflexivity|].
      constructor; [exact Hn | constructor].
Qed.

Lemma streamResponse_writes env mode model c :
  frames writesTfFiles (streamResponse JSON_parse env mode model c).
Proof.
  assert (K : ∀ A (m : @M JSON A), frames (keeps disk) m → frames writesTfFiles m).
  { intros A m. apply frames_weaken. exact keeps_disk_writesTfFiles. }
  unfold streamResponse.
  repeat (apply frames_bind;
          [apply _ | apply K, resSetHeader_frames; reflexivity | intros _]).
  apply frames_bind; [apply _ | intros w; reflexivity | intros now].
  apply frames_bind; [apply _ | apply K, resWrite_frames; reflexivity | intros _].
  apply frames_bind;
    [apply _ | apply K, streamLoop_frames; reflexivity | intros st].
  apply frames_bind; [apply _ | apply K, resWrite_frames; reflexivity | intros _].
  apply frames_bind; [apply _ | | intros _].
  - destruct (isFileMode mode).
    + apply frames_bind; [apply _ | | intros l; apply K, resWrite_frames; reflexivity].
      apply writeFiles_writes.
      apply (parseLines_keys _ [] None); constructor.
    + intros w. reflexivity.
  - apply frames_bind; [apply _ | apply K, resWrite_frames; reflexivity | intros _].
    apply frames_bind; [apply _ | apply K, resWrite_frames; reflexivity | intros _].
    apply K, resEnd_frames. reflexivity.
Qed.

Lemma streamResponse_stream_mode_keeps_disk env mode model c :
  isFileMode mode = false →
  frames (keeps disk) (streamResponse JSON_parse env mode model c).
Proof.
  intros Hm. unfold streamResponse. rewrite Hm.
  repeat (apply frames_bind;
          [apply _ | apply resSetHeader_frames; reflexivity | intros _]).
  apply frames_bind; [apply _ | intros w; reflexivity | intros now].
  apply frames_bind; [apply _ | apply resWrite_frames; reflexivity | intros _].
  apply frames_bind; [apply _ | apply streamLoop_frames; reflexivity | intros st].
  apply frames_bind; [apply _ | apply resWrite_frames; reflexivity | intros _].
  apply frames_bind; [apply _ | intros w; reflexivity | intros _].
  apply frames_bind; [apply _ | apply resWrite_frames; reflexivity | intros _].
  apply frames_bind; [apply _ | apply resWrite_frames; reflexivity | intros _].
  apply resEnd_frames. reflexivity.
Qed.

(** X17: the [fs.writeFile] calls of the handler (line 412): whatever the
    request and however it ends, every call completed while serving it has
    a file name made of letters, digits, [_], [/], [.] and [-] that ends in
    [.tf], and outside file mode no such call is made.  [disk] is the log
    of these calls; here [l] is what one request adds to it. *)
Theorem handler_writes_only_tf_files env req w :
  let r := serve1 env req w in
  ∃ l,
    disk r.1 = disk w ++ l
    ∧ Forall isTfName (map fst l)
    ∧ (isFileMode (req_output_mode req) = false → l = []).
Proof.
  intros r.
  assert (H1 : writesTfFiles w r.1).
  { subst r. apply (serve_frames JSON_stringify JSON_parse js_truthy writesTfFiles).
    - intros r w0. apply keeps_disk_writesTfFiles. reflexivity.
    - intros name. eapply frames_weaken; [exact keeps_disk_writesTfFiles|].
      apply getModelConfig_frames; reflexivity.
    - intros data. eapply frames_weaken; [exact keeps_disk_writesTfFiles|].
      apply chatCompletionsCreate_frames; reflexivity.
    - intros mode model c. apply streamResponse_writes.
    - intros code body. eapply frames_weaken; [exact keeps_disk_writesTfFiles|].
      apply resStatusJson_frames; reflexivity. }
  destruct H1 as (l & Hl & HF). exists l. split; [exact Hl|]. split; [exact HF|].
  intros Hm.
  assert (H2 : keeps disk w r.1).
  { subst r. unfold serve, postMessages.
    transitivity (set_res freshResponse w); [reflexivity|].
    apply (frames_try_catch (keeps disk));
      [| intros e; apply resStatusJson_frames; reflexivity].
    unfold handlerBody.
    apply frames_bind; [apply _ | | intros data].
    { apply translateRequest_frames; [apply _|]. intros name.
      apply getModelConfig_frames; reflexivity. }
    apply frames_bind;
      [apply _ | apply chatCompletionsCreate_frames; reflexivity | intros c].
    apply streamResponse_stream_mode_keeps_disk, Hm. }
  unfold keeps in H2. rewrite H2 in Hl.
  apply (f_equal length) in Hl. rewrite length_app in Hl.
  destruct l; [reflexivity | simpl in Hl; lia].
Qed.

(** X18: the handler calls the upstream exactly when the translation of
    the request succeeds, once, and with exactly the request the
    translation returned; when the translation throws, no call is made.
    This holds whatever happens to the response afterwards. *)
Theorem handler_sends_translated_request env req w :
  let r := serve1 env req w in
  match (translate1 env req (set_res freshResponse w)).2 with
  | Return data => created r.1 = created w ++ [data]
  | Throw _ => created r.1 = created w
  end.
Proof.
  intros r. subst r.
  destruct (handlerBody_run JSON_stringify JSON_parse js_truthy env req
              (set_res freshResponse w) eq_refl) as (w' & r & E & H).
  rewrite (serve_unfold JSON_stringify JSON_parse js_truthy env req w w' r E).
  assert (K : created (match r with
                       | Return u => (w', Return u)
                       | Throw e => resStatusJson 400
                           {| status := "error"; body_message := message e |} w'
                       end).1 = created w').
  { destruct r; [reflexivity|]. unfold resStatusJson.
    destruct (headersSent (res w')); reflexivity. }
  rewrite K.
  destruct H as [(e & Et & _ & _ & Hc)
                | [(wt & data & t & e & Et & _ & _ & _ & Hc)
                  | (wt & data & t & c & Et & _ & Hc & _)]];
    rewrite Et; exact Hc.
Qed.

End MoreProperties.

(** * Resolutions that overlap *)

Section Overlap.
Context {JSON : Type}.
Variable JSON_stringify : JSON → string.
Variable JSON_parse : string → option JSON.
Variable js_truthy : JSON → bool.

Local Abbreviation step := (processStep JSON_stringify JSON_parse js_truthy).
Local Abbreviation run := (runProcess JSON_stringify JSON_parse js_truthy).
Local Abbreviation amid := (resolveAmid JSON_stringify JSON_parse js_truthy).
Implicit Types (w : @World JSON) (env : @Env JSON) (pool : list PendingLookup).

#[local] Instance keeps_entry_preorder (name : string) :
  PreOrder (keeps (entryOf (JSON:=JSON) name)).
Proof.
  split; [intros w; reflexivity|].
  intros w1 w2 w3 H1 H2. unfold keeps in *. congruence.
Qed.

Lemma getModelConfigBegin_cases env name w :
  (∃ c, modelConfigCache w !! name = Some c
        ∧ getModelConfigBegin env name w = (w, Return (inl (Profile c))))
  ∨ (modelConfigCache w !! name = None
     ∧ includes objectPrototypeMembers name = true
     ∧ getModelConfigBegin env name w = (w, Return (inl (Inherited name))))
  ∨ (modelConfigCache w !! name = None
     ∧ includes objectPrototypeMembers name = false
     ∧ getModelConfigBegin env name w
       = (set_retrieved (retrieved w ++ [name]) w,
          Return (inr {| pending_name := name;
                         pending_ok := modelsRetrieve env (length (retrieved w)) name |}))).
Proof.
  unfold getModelConfigBegin, bind, get. simpl.
  destruct (modelConfigCache w !! name) as [c|] eqn:Hc.
  - left. exists c. split; reflexivity.
  - right. destruct (includes objectPrototypeMembers name) eqn:Hp.
    + left. repeat split; reflexivity.
    + right. repeat split; reflexivity.
Qed.

(** Beginning a resolution of another name leaves the entry of [name]
    alone, and what it leaves in flight is not a resolution of [name]. *)
Lemma getModelConfigBegin_other env name other w :
  other ≠ name →
  let r := getModelConfigBegin env other w in
  entryOf name r.1 = entryOf name w
  ∧ ∀ p, r.2 = Return (inr p) → pending_name p ≠ name.
Proof.
  intros Hne r. subst r.
  destruct (getModelConfigBegin_cases env other w)
    as [(c & _ & ->) | [(_ & _ & ->) | (_ & _ & ->)]]; simpl.
  - split; [reflexivity | intros p [=]].
  - split; [reflexivity | intros p [=]].
  - split.
    + unfold entryOf. rewrite lookupsOf_snoc.
      rewrite bool_decide_eq_false_2 by exact Hne. simpl. f_equal. lia.
    + intros p [= <-]. exact Hne.
Qed.

(** Resuming a resolution of another name leaves the entry of [name]
    alone. *)
Lemma getModelConfigResume_other (name : string) (p : PendingLookup) w :
  pending_name p ≠ name →
  entryOf name (getModelConfigResume p w).1 = entryOf name w.
Proof.
  intros Hne. unfold getModelConfigResume, bind, modify, ret, entryOf. simpl.
  rewrite lookup_insert_ne by exact Hne. reflexivity.
Qed.

Lemma getModelConfig_other env name other :
  other ≠ name → frames (keeps (entryOf name)) (getModelConfig env other).
Proof.
  intros Hne w. unfold keeps.
  destruct (getModelConfig_cases env other w)
    as [(c & _ & ->) | [(_ & _ & ->) | (c & _ & _ & ->)]]; simpl;
    try reflexivity.
  unfold entryOf.
  change (lookupsOf name (set_cache ?m ?w')) with (lookupsOf name w').
  rewrite lookupsOf_snoc, bool_decide_eq_false_2 by exact Hne.
  simpl. rewrite lookup_insert_ne by exact Hne. f_equal. lia.
Qed.

Lemma translateRequest_frames_chosen (R : relation (@World JSON))
    `{!PreOrder R} env req :
  frames R (getModelConfig env (chooseModel env (req_model req))) →
  frames R (translateRequest JSON_stringify js_truthy env req).
Proof.
  intros Hg. unfold translateRequest.
  apply frames_bind; [apply _ | exact Hg | intros modelConfig].
  apply frames_bind; [apply _ | | intros messages].
  { unfold flattenMessages. destruct (req_messages req);
      [apply frames_ret | apply frames_throw]; apply _. }
  destruct (negotiate _ _ _) as [[temperature mct] mt].
  apply frames_bind; [apply _ | | intros tools; apply frames_ret, _].
  destruct (req_tools req).
  - apply frames_bind;
      [apply _ | apply mapTools_frames, _ | intros mapped; apply frames_ret, _].
  - apply frames_ret, _.
Qed.

(** Serving a request for another model leaves the entry of [name]
    alone. *)
Lemma serve_other env req name w :
  chooseModel env (req_model req) ≠ name →
  entryOf name (serve JSON_stringify JSON_parse js_truthy env req w).1
  = entryOf name w.
Proof.
  intros Hne. unfold serve, postMessages.
  change (keeps (entryOf name) w
            (try_catch (handlerBody JSON_stringify JSON_parse js_truthy env req)
               (λ error, resStatusJson 400
                  {| status := "error"; body_message := message error |})
               (set_res freshResponse w)).1).
  transitivity (set_res freshResponse w); [reflexivity|].
  apply (frames_try_catch (keeps (entryOf name)));
    [| intros e; apply resStatusJson_frames; reflexivity].
  unfold handlerBody.
  apply frames_bind; [apply _ | | intros data].
  { apply translateRequest_frames_chosen; [apply _|].
    apply getModelConfig_other, Hne. }
  apply frames_bind;
    [apply _ | apply chatCompletionsCreate_frames; reflexivity | intros c].
  apply streamResponse_frames; reflexivity.
Qed.

(** ** A name nobody is resolving *)

(** While no resolution of [name] is in flight and none starts, the entry
    of [name] does not change. *)
Lemma processStep_untouched env name ev (st : World * list PendingLookup) :
  ¬ resolves env name ev →
  Forall (λ p, pending_name p ≠ name) st.2 →
  entryOf name (step env st ev).1 = entryOf name st.1
  ∧ Forall (λ p, pending_name p ≠ name) (step env st ev).2.
Proof.
  destruct st as [w pool]. intros Hev Hpool. destruct ev as [other|i|req]; simpl in *.
  - destruct (getModelConfigBegin_other env name other w Hev) as [He Hp].
    destruct (getModelConfigBegin env other w) as [w1 [[c|p]|e]]; simpl in *;
      try (split; [exact He | exact Hpool]).
    split; [exact He|]. apply Forall_app. split; [exact Hpool|].
    constructor; [apply Hp; reflexivity | constructor].
  - destruct (pool !! i) as [p|] eqn:Hi; simpl; [| split; [reflexivity | exact Hpool]].
    split.
    + apply getModelConfigResume_other.
      rewrite Forall_forall in Hpool. apply Hpool.
      apply (list_elem_of_lookup_2 _ _ _ Hi).
    + apply Forall_delete, Hpool.
  - split; [| exact Hpool]. apply serve_other. exact Hev.
Qed.

Lemma runProcess_untouched env name evs :
  Forall (λ ev, ¬ resolves env name ev) evs →
  ∀ st : World * list PendingLookup,
    Forall (λ p, pending_name p ≠ name) st.2 →
    entryOf name (run env evs st).1 = entryOf name st.1
    ∧ Forall (λ p, pending_name p ≠ name) (run env evs st).2.
Proof.
  induction 1 as [|ev evs Hev _ IH]; intros st Hpool.
  - split; [reflexivity | exact Hpool].
  - destruct (processStep_untouched env name ev st Hev Hpool) as [He Hp].
    destruct (IH _ Hp) as [He' Hp'].
    split; [| exact Hp']. cbn [runProcess foldl] in *. fold (run env evs (step env st ev)).
    rewrite He'. exact He.
Qed.

(** ** A name that is resolved *)

(** Once [name] is resolved and no resolution of it is in flight, nothing
    the process does changes what it resolves to, looks it up again, or
    leaves a resolution of it in flight. *)
Lemma processStep_resolved env name r ev (st : World * list PendingLookup) :
  resolvedAs st.1 name r →
  Forall (λ p, pending_name p ≠ name) st.2 →
  resolvedAs (step env st ev).1 name r
  ∧ lookupsOf name (step env st ev).1 = lookupsOf name st.1
  ∧ Forall (λ p, pending_name p ≠ name) (step env st ev).2.
Proof.
  destruct st as [w pool]. intros Hr Hpool.
  assert (K : ∀ w', entryOf name w' = entryOf name w →
                    resolvedAs w' name r ∧ lookupsOf name w' = lookupsOf name w).
  { intros w' [= Hc Hl]. split; [| exact Hl].
    destruct r; simpl in *; rewrite Hc; exact Hr. }
  destruct ev as [other|i|req]; simpl in *.
  - destruct (decide (other = name)) as [->|Hne].
    + rewrite (surjective_pairing (getModelConfigBegin env name w)).
      assert (E : getModelConfigBegin env name w = (w, Return (inl r))).
      { destruct (getModelConfigBegin_cases env name w)
          as [(c & Hc & ->) | [(Hc & Hp & ->) | (Hc & Hp & _)]];
          destruct r as [c'|m]; simpl in Hr.
        - congruence.
        - destruct Hr as (_ & Hr & _). congruence.
        - congruence.
        - destruct Hr as (-> & _). reflexivity.
        - congruence.
        - destruct Hr as (_ & _ & Hr). congruence. }
      rewrite E. simpl. split; [exact Hr | split; [reflexivity | exact Hpool]].
    + destruct (processStep_untouched env name (ResolutionBegins other) (w, pool))
        as [He Hp]; [exact Hne | exact Hpool |].
      simpl in He, Hp. destruct (K _ He) as [H1 H2].
      split; [exact H1 | split; [exact H2 | exact Hp]].
  - destruct (processStep_untouched env name (LookupSettles i) (w, pool))
      as [He Hp]; [intros [] | exact Hpool |].
    simpl in He, Hp. destruct (K _ He) as [H1 H2].
    split; [exact H1 | split; [exact H2 | exact Hp]].
  - destruct (serve_keepsResolved JSON_stringify JSON_parse js_truthy env req w
                name r Hr) as [H1 H2].
    split; [exact H1 | split; [exact H2 | exact Hpool]].
Qed.

Lemma runProcess_resolved env name r evs :
  ∀ st : World * list PendingLookup,
    resolvedAs st.1 name r →
    Forall (λ p, pending_name p ≠ name) st.2 →
    resolvedAs (run env evs st).1 name r
    ∧ lookupsOf name (run env evs st).1 = lookupsOf name st.1
    ∧ Forall (λ p, pending_name p ≠ name) (run env evs st).2.
Proof.
  induction evs as [|ev evs IH]; intros st Hr Hpool.
  - split; [exact Hr | split; [reflexivity | exact Hpool]].
  - destruct (processStep_resolved env name r ev st Hr Hpool) as (H1 & H2 & H3).
    destruct (IH _ H1 H3) as (H4 & H5 & H6).
    cbn [runProcess foldl] in *. fold (run env evs (step env st ev)).
    split; [exact H4 | split; [congruence | exact H6]].
Qed.

(** ** One resolution, with other code running during its [await] *)

Lemma resolveAmid_resolves env name during w pool :
  Forall (λ p, pending_name p ≠ name) pool →
  Forall (λ ev, ¬ resolves env name ev) during →
  let r1 := amid env name during (w, pool) in
  ∃ r,
    r1.2 = Return r
    ∧ resolvedAs r1.1.1 name r
    ∧ Forall (λ p, pending_name p ≠ name) r1.1.2
    ∧ (lookupsOf name r1.1.1 ≤ lookupsOf name w + 1)%nat
    ∧ (modelConfigCache w !! name = None →
       includes objectPrototypeMembers name = false →
       r = Profile
             (if modelsRetrieve env (length (retrieved w)) name
              then {| cfg_max_tokens := maxCompletionTokensFor name |}
              else {| cfg_max_tokens := 16384 |})).
Proof.
  intros Hpool Hduring r1. subst r1. unfold resolveAmid. cbn [fst snd].
  destruct (getModelConfigBegin_cases env name w)
    as [(c & Hc & ->) | [(Hc & Hp & ->) | (Hc & Hp & ->)]]; cbn [fst snd].
  - exists (Profile c). split; [reflexivity|]. split; [exact Hc|].
    split; [exact Hpool|]. split; [lia | congruence].
  - exists (Inherited name). split; [reflexivity|].
    split; [repeat split; assumption|].
    split; [exact Hpool|]. split; [lia | congruence].
  - set (w1 := set_retrieved (retrieved w ++ [name]) w).
    destruct (runProcess_untouched env name during Hduring (w1, pool) Hpool)
      as [[= Ec El] Hp']. cbn [fst snd] in Ec, El, Hp'.
    set (st' := run env during (w1, pool)) in *.
    unfold getModelConfigResume, bind, modify, ret. cbn [fst snd pending_name pending_ok].
    eexists. split; [reflexivity|].
    split; [simpl; apply lookup_insert_eq|].
    split; [exact Hp'|].
    split.
    + change (lookupsOf name (set_cache ?m ?w')) with (lookupsOf name w').
      rewrite El. subst w1. rewrite lookupsOf_snoc.
      rewrite bool_decide_eq_true_2 by reflexivity. lia.
    + intros _ _. reflexivity.
Qed.

(** C9: a resolution of a name that starts while no other resolution of
    that name is in flight, and during whose lookup none starts, and any
    later resolution of the name return the very same value; the later one
    issues no lookup and changes nothing, and the name is looked up at most
    once from the start of the first resolution on, whatever the outcome of
    that lookup.  Resolutions of other names may overlap with the first
    one, and anything may run between the two. *)
Theorem getModelConfig_idempotent env name during between w pool :
  Forall (λ p, pending_name p ≠ name) pool →
  Forall (λ ev, ¬ resolves env name ev) during →
  let r1 := amid env name during (w, pool) in
  let st2 := run env between r1.1 in
  let r3 := getModelConfig env name st2.1 in
  (∃ c, r1.2 = Return c ∧ r3.2 = Return c)
  ∧ r3.1 = st2.1
  ∧ (lookupsOf name r3.1 ≤ lookupsOf name w + 1)%nat.
Proof.
  intros Hpool Hduring r1 st2 r3.
  destruct (resolveAmid_resolves env name during w pool Hpool Hduring)
    as (r & Hr & Hres & Hp & Hl & _).
  fold r1 in Hr, Hres, Hp, Hl.
  destruct (runProcess_resolved env name r between r1.1 Hres Hp)
    as (Hres2 & Hl2 & _).
  fold st2 in Hres2, Hl2.
  pose proof (getModelConfig_hit env name r st2.1 Hres2) as Hhit.
  subst r3. rewrite Hhit. simpl.
  split; [exists r; split; [exact Hr | reflexivity] |].
  split; [reflexivity | lia].
Qed.

(** X2: a metadata lookup that fails pins the default.  When the name is
    not cached, no other resolution of it is in flight and none starts
    during the lookup, the resolution returns 16384 and from then on,
    whatever runs afterwards and however the upstream would answer later,
    the name keeps resolving to 16384 without any further lookup. *)
Theorem failed_lookup_pins_default env name during between w pool :
  modelConfigCache w !! name = None →
  includes objectPrototypeMembers name = false →
  modelsRetrieve env (length (retrieved w)) name = false →
  Forall (λ p, pending_name p ≠ name) pool →
  Forall (λ ev, ¬ resolves env name ev) during →
  let r1 := amid env name during (w, pool) in
  let st2 := run env between r1.1 in
  r1.2 = Return (Profile {| cfg_max_tokens := 16384 |})
  ∧ getModelConfig env name st2.1
    = (st2.1, Return (Profile {| cfg_max_tokens := 16384 |})).
Proof.
  intros Hc Hp Hf Hpool Hduring r1 st2.
  destruct (resolveAmid_resolves env name during w pool Hpool Hduring)
    as (r & Hr & Hres & Hp' & _ & Hv).
  fold r1 in Hr, Hres, Hp'.
  rewrite (Hv Hc Hp), Hf in Hr, Hres.
  split; [exact Hr|].
  apply getModelConfig_hit.
  apply (runProcess_resolved env name _ between r1.1 Hres Hp').
Qed.

End Overlap.

(** ** Logging *)

Lemma stringIncludes_app (a needle b : string) :
  stringIncludes (a +:+ needle +:+ b) needle = true.
Proof.
  induction a as [|c a IH].
  - change ("" +:+ needle +:+ b) with (needle +:+ b).
    assert (H : String.prefix needle (needle +:+ b) = true)
      by (apply prefix_app; exists b; reflexivity).
    destruct (needle +:+ b); cbn [stringIncludes]; rewrite H; reflexivity.
  - change (String c a +:+ needle +:+ b) with (String c (a +:+ needle +:+ b)).
    cbn [stringIncludes]. rewrite IH. apply orb_true_r.
Qed.

(** X19: the warning of line 199 that a model is not allowed never reaches
    the terminal, whatever the two model names and the command-line
    switches; it is appended to the log file exactly when [--debug] is
    given. *)
Theorem fallback_warning_never_printed flags timestamp chosenModel defaultModel :
  let out := consoleWarn flags timestamp [fallbackWarning chosenModel defaultModel] in
  filter (λ o, isTerminal o = true) out = []
  ∧ length out = (if debug flags then 1 else 0)%nat.
Proof.
  intros out. subst out. unfold consoleWarn. cbn [join].
  assert (H : stringIncludes (fallbackWarning chosenModel defaultModel)
                "is not allowed. Falling back" = true).
  { unfold fallbackWarning.
    change (" is not allowed. Falling back to " +:+ defaultModel +:+ ".")
      with (" " +:+ "is not allowed. Falling back"
            +:+ (" to " +:+ defaultModel +:+ ".")).
    rewrite <- (append_assoc chosenModel " "), <- (append_assoc "Model ").
    apply stringIncludes_app. }
  rewrite H, app_nil_r. unfold logToFile.
  destruct (debug flags); split; reflexivity.
Qed.

(** ** Reading back a text that lists files *)

Lemma longestTfPrefix_tf (t : string) :
  longestTfPrefix (t +:+ ".tf") = Some (t +:+ ".tf").
Proof.
  induction t as [|c t IH]; [reflexivity|].
  change (String c t +:+ ".tf") with (String c (t +:+ ".tf")).
  cbn [longestTfPrefix]. rewrite IH. reflexivity.
Qed.

Lemma isFileNameChar_not_space (c : ascii) :
  isFileNameChar c = true → isWhiteSpace c = false ∧ isLineBreak c = false.
Proof.
  unfold isFileNameChar, isWordChar, isWhiteSpace, isLineBreak. cbv zeta.
  generalize (N_of_ascii c). intros n H.
  rewrite !orb_true_iff, !andb_true_iff, !N.leb_le, !N.eqb_eq in H.
  split.
  - apply orb_false_iff. split; [apply orb_false_iff; split|].
    + apply andb_false_iff. 
      destruct (N.leb_spec 9 n); [right | left; reflexivity].
      apply N.leb_gt. lia.
    + apply N.eqb_neq. lia.
    + apply N.eqb_neq. lia.
  - apply N.eqb_neq. lia.
Qed.

Lemma allChars_impl (p q : ascii → bool) (s : string) :
  (∀ c, p c = true → q c = true) → allChars p s = true → allChars q s = true.
Proof.
  intros Hpq. induction s as [|c s IH]; [reflexivity|]. simpl.
  intros H. apply andb_true_iff in H as [H1 H2].
  rewrite (Hpq c H1). apply IH, H2.
Qed.

Lemma takeWhile_all (p : ascii → bool) (s : string) :
  allChars p s = true → takeWhile p s = s.
Proof.
  induction s as [|c s IH]; [reflexivity|]. simpl.
  intros H. apply andb_true_iff in H as [H1 H2].
  rewrite H1, (IH H2). reflexivity.
Qed.

Lemma length_append (a b : string) :
  String.length (a +:+ b) = (String.length a + String.length b)%nat.
Proof.
  induction a as [|c a IH]; [reflexivity|].
  change (String c a +:+ b) with (String c (a +:+ b)). simpl. rewrite IH.
  reflexivity.
Qed.

(** A [.tf] name on a line of its own is matched as a whole. *)
Lemma matchTf_name (name : string) : isTfName name → matchTf name = Some name.
Proof.
  intros ([t ->] & Hall & Hlen).
  destruct t as [|c t].
  { simpl in Hlen. lia. }
  change (String c t +:+ ".tf") with (String c (t +:+ ".tf")) in *.
  cbn [matchTf]. unfold matchTfAt.
  assert (Hc : isWhiteSpace c = false).
  { simpl in Hall. apply andb_true_iff in Hall as [H1 _].
    apply (isFileNameChar_not_space c H1). }
  cbn [skipWhile]. rewrite Hc.
  rewrite (takeWhile_all _ _ Hall), longestTfPrefix_tf. reflexivity.
Qed.

Lemma tfName_no_line_break (name : string) :
  isTfName name → allChars (λ c, negb (isLineBreak c)) name = true.
Proof.
  intros (_ & Hall & _). revert Hall. apply allChars_impl.
  intros c Hc. destruct (isFileNameChar_not_space c Hc) as [_ ->]. reflexivity.
Qed.

Lemma splitLines_no_break (l : string) :
  allChars (λ c, negb (isLineBreak c)) l = true → splitLines l = [l].
Proof.
  induction l as [|c l IH]; [reflexivity|]. simpl.
  intros H. apply andb_true_iff in H as [H1 H2].
  unfold isLineBreak in H1. apply negb_true_iff in H1. rewrite H1.
  rewrite (IH H2). reflexivity.
Qed.

Lemma splitLines_line (l rest : string) :
  allChars (λ c, negb (isLineBreak c)) l = true →
  splitLines (l +:+ newline +:+ rest) = l :: splitLines rest.
Proof.
  induction l as [|c l IH]; [reflexivity|].
  change (String c l +:+ newline +:+ rest)
    with (String c (l +:+ newline +:+ rest)). simpl.
  intros H. apply andb_true_iff in H as [H1 H2].
  unfold isLineBreak in H1. apply negb_true_iff in H1. rewrite H1.
  rewrite (IH H2). reflexivity.
Qed.

Lemma splitLines_join (ls : list string) :
  Forall (λ l, allChars (λ c, negb (isLineBreak c)) l = true) ls →
  splitLines (join newline ls) = match ls with [] => [EmptyString] | _ => ls end.
Proof.
  induction ls as [|l ls IH]; [reflexivity|].
  intros H. apply Forall_cons in H as [Hl Hls].
  destruct ls as [|l' ls].
  - simpl. apply splitLines_no_break, Hl.
  - change (join newline (l :: l' :: ls))
      with (l +:+ newline +:+ join newline (l' :: ls)).
    rewrite (splitLines_line _ _ Hl), (IH Hls). reflexivity.
Qed.

Lemma assign_new (name value : string) files :
  name ∉ map fst files → assign name value files = files ++ [(name, value)].
Proof.
  induction files as [|[k v] files IH]; [reflexivity|]. simpl.
  intros H. apply not_elem_of_cons in H as [H1 H2].
  rewrite bool_decide_eq_false_2 by congruence.
  rewrite (IH H2). reflexivity.
Qed.

Lemma appendTo_last (name value more : string) files :
  name ∉ map fst files →
  appendTo name more (files ++ [(name, value)])
  = files ++ [(name, value +:+ more)].
Proof.
  induction files as [|[k v] files IH]; simpl.
  - intros _. rewrite bool_decide_eq_true_2 by reflexivity. reflexivity.
  - intros H. apply not_elem_of_cons in H as [H1 H2].
    rewrite bool_decide_eq_false_2 by congruence.
    rewrite (IH H2). reflexivity.
Qed.

Lemma parseLines_content (name : string) (ls rest : list string) :
  Forall isContentLine ls →
  ∀ files value,
    name ∉ map fst files →
    parseLines (ls ++ rest) (files ++ [(name, value)]) (Some name)
    = parseLines rest (files ++ [(name, value +:+ linesOf ls)]) (Some name).
Proof.
  induction 1 as [|l ls (_ & Hb & Hm) _ IH]; intros files value Hn.
  - simpl. change (linesOf []) with "". rewrite append_nil_r. reflexivity.
  - simpl. rewrite Hm, Hb, (appendTo_last _ _ _ _ Hn), (IH _ _ Hn).
    change (linesOf (l :: ls)) with ((l +:+ newline) +:+ linesOf ls).
    rewrite append_assoc. reflexivity.
Qed.

Lemma parseLines_render (fs : list (string * list string)) :
  ∀ files currentFile,
    NoDup (map fst files ++ map fst fs) →
    Forall (λ f, isTfName f.1 ∧ Forall isContentLine f.2) fs →
    parseLines (flat_map (λ f, f.1 :: f.2) fs) files currentFile
    = files ++ map (λ f, (f.1, linesOf f.2)) fs.
Proof.
  induction fs as [|[name ls] fs IH]; intros files currentFile HN HF.
  - simpl. rewrite app_nil_r. reflexivity.
  - apply Forall_cons in HF as [[Hname Hls] HF]. simpl in Hname, Hls.
    assert (Hn : name ∉ map fst files).
    { apply NoDup_app in HN as (_ & HN & _). intros Hin.
      apply (HN name Hin). left. }
    cbn [flat_map fst snd app]. cbn [parseLines].
    rewrite (matchTf_name _ Hname), (assign_new _ _ _ Hn).
    rewrite (parseLines_content name ls _ Hls _ _ Hn).
    change ("" +:+ linesOf ls) with (linesOf ls).
    rewrite IH.
    + rewrite <- app_assoc. reflexivity.
    + rewrite map_app, <- app_assoc. exact HN.
    + exact HF.
Qed.

(** X21: a text that lists files, each as its [.tf] name on a line of its
    own followed by the lines of its content, is read back as exactly those
    files in that order, each content line followed by a line break; the
    names must be distinct and no content line may be blank or name a
    [.tf] file. *)
Theorem listed_files_read_back (fs : list (string * list string)) :
  NoDup (map fst fs) →
  Forall (λ f, isTfName f.1 ∧ Forall isContentLine f.2) fs →
  parseFilesFromText (renderFiles fs) = map (λ f, (f.1, linesOf f.2)) fs.
Proof.
  intros HN HF. unfold parseFilesFromText, renderFiles.
  rewrite splitLines_join.
  - destruct fs as [|f fs]; [reflexivity|].
    destruct (flat_map (λ f, f.1 :: f.2) (f :: fs)) eqn:E; [discriminate|].
    rewrite <- E. apply (parseLines_render (f :: fs) [] None); assumption.
  - apply Forall_flat_map. eapply Forall_impl; [exact HF|].
    intros [name ls] [Hname Hls]. simpl in *. constructor.
    + apply tfName_no_line_break, Hname.
    + eapply Forall_impl; [exact Hls|]. intros l (H & _). exact H.
Qed.

Lemma splitLines_no_breaks (text : string) :
  Forall (λ l, allChars (λ c, negb (isLineBreak c)) l = true) (splitLines text).
Proof.
  induction text as [|c text IH]; [repeat constructor|]. simpl.
  destruct (N_of_ascii c =? 10)%N eqn:Hc; [constructor; [reflexivity | exact IH]|].
  destruct (splitLines text) as [|line lines].
  - constructor; [| constructor]. simpl. unfold isLineBreak. rewrite Hc. reflexivity.
  - apply Forall_cons in IH as [H1 H2]. constructor; [| exact H2].
    simpl. unfold isLineBreak at 1. rewrite Hc. exact H1.
Qed.

Lemma linesOf_snoc (ls : list string) (l : string) :
  linesOf (ls ++ [l]) = linesOf ls +:+ (l +:+ newline).
Proof.
  induction ls as [|x ls IH].
  - change (linesOf ([] ++ [l])) with ((l +:+ newline) +:+ "").
    rewrite append_nil_r. reflexivity.
  - change (linesOf ((x :: ls) ++ [l])) with ((x +:+ newline) +:+ linesOf (ls ++ [l])).
    rewrite IH.
    change (linesOf (x :: ls)) with ((x +:+ newline) +:+ linesOf ls).
    symmetry. apply append_assoc.
Qed.

Lemma assign_contents (P : string → Prop) (name : string) files :
  Forall (λ f, ∃ ls, f.2 = linesOf ls ∧ Forall P ls) files →
  Forall (λ f, ∃ ls, f.2 = linesOf ls ∧ Forall P ls) (assign name "" files).
Proof.
  assert (H0 : ∃ ls, "" = linesOf ls ∧ Forall P ls)
    by (exists []; split; [reflexivity | constructor]).
  induction files as [|[k v] files IH]; intros H; simpl.
  - constructor; [exact H0 | constructor].
  - apply Forall_cons in H as [H1 H2]. case_bool_decide.
    + constructor; [exact H0 | exact H2].
    + constructor; [exact H1 | apply IH, H2].
Qed.

Lemma appendTo_contents (P : string → Prop) (name l : string) files :
  P l →
  Forall (λ f, ∃ ls, f.2 = linesOf ls ∧ Forall P ls) files →
  Forall (λ f, ∃ ls, f.2 = linesOf ls ∧ Forall P ls)
    (appendTo name (l +:+ newline) files).
Proof.
  intros Hl. induction files as [|[k v] files IH]; intros H; simpl.
  - constructor.
  - apply Forall_cons in H as [H1 H2]. case_bool_decide.
    + constructor; [| exact H2]. destruct H1 as (ls & Hv & Hls). simpl in Hv.
      exists (ls ++ [l]). simpl. rewrite linesOf_snoc, Hv. split; [reflexivity|].
      apply Forall_app. split; [exact Hls | constructor; [exact Hl | constructor]].
    + constructor; [exact H1 | apply IH, H2].
Qed.

Lemma parseLines_contents (all lines : list string) :
  Forall (λ l, allChars (λ c, negb (isLineBreak c)) l = true) lines →
  lines ⊆ all →
  ∀ files currentFile,
    Forall (λ f, ∃ ls, f.2 = linesOf ls
                       ∧ Forall (λ l, isContentLine l ∧ l ∈ all) ls) files →
    Forall (λ f, ∃ ls, f.2 = linesOf ls
                       ∧ Forall (λ l, isContentLine l ∧ l ∈ all) ls)
      (parseLines lines files currentFile).
Proof.
  induction lines as [|line lines IH]; intros HF Hsub files currentFile H.
  - exact H.
  - apply Forall_cons in HF as [Hline HF].
    assert (Hin : line ∈ all) by (apply Hsub; left).
    assert (Hsub' : lines ⊆ all) by (intros x Hx; apply Hsub; right; exact Hx).
    cbn [parseLines]. destruct (matchTf line) as [name|] eqn:Hm.
    + apply (IH HF Hsub'), assign_contents, H.
    + destruct currentFile as [name|]; [| apply (IH HF Hsub'), H].
      destruct (isBlank line) eqn:Hb; [apply (IH HF Hsub'), H|].
      apply (IH HF Hsub'), appendTo_contents; [| exact H].
      split; [split; [exact Hline | split; assumption] | exact Hin].
Qed.

(** X22: the content of every extracted file is made of whole lines of the
    text, each followed by a line break; none of these lines is blank and
    none names a [.tf] file. *)
Theorem extracted_contents_are_lines (text : string) :
  Forall (λ f, ∃ ls, f.2 = linesOf ls
                     ∧ Forall (λ l, isContentLine l ∧ l ∈ splitLines text) ls)
    (parseFilesFromText text).
Proof.
  unfold parseFilesFromText.
  apply (parseLines_contents (splitLines text) (splitLines text)).
  - apply splitLines_no_breaks.
  - intros x Hx. exact Hx.
  - constructor.
Qed.

(** ** The extra properties at concrete inputs *)

Lemma limit_table_values_witness :
  startsWith "o1-mini-2024-09-12" "o1-mini" = true
  ∧ maxCompletionTokensFor "o1-mini-2024-09-12" = 32000.
Proof.
  split; [reflexivity|].
  destruct (limit_table_values "o1-mini-2024-09-12") as [_ H].
  apply H. reflexivity.
Defined.



Lemma allowed_default_makes_all_fixed_temperature_witness :
  let env := scriptedEnv "o3-mini" true (streamOf []) in
  let req := userRequest (Some "gpt-3.5-turbo") (Some (1 # 2)%Q) (Some 8000)
               None None in
  includes allowedModels (defaultModel env) = true
  ∧ ∃ data,
      (translateRequest scenarioStringify scenarioTruthy env req world0).2
      = Return data
      ∧ includes allowedModels (data_model data) = true
      ∧ data_temperature data = Some 1%Q
      ∧ data_max_tokens data = None.
Proof.
  intros env req. split; [reflexivity|].
  destruct (translateRequest scenarioStringify scenarioTruthy env req world0)
    as [wt [data|e]] eqn:Et; [| vm_compute in Et; discriminate].
  exists data. split; [reflexivity|].
  apply (allowed_default_makes_all_fixed_temperature scenarioStringify
           scenarioTruthy env req world0 wt data eq_refl Et).
Defined.

Lemma token_limit_clamped_witness :
  let env := scriptedEnv "o3-mini" true (streamOf []) in
  let req := userRequest (Some "o3-mini") None (Some 200000) None None in
  includes allowedModels (chooseModel env (req_model req)) = true
  ∧ ∃ data,
      (translateRequest scenarioStringify scenarioTruthy env req world0).2
      = Return data
      ∧ data_max_tokens data = None
      ∧ data_max_completion_tokens data = Some 100000.
Proof.
  intros env req. split; [reflexivity|].
  destruct (translateRequest scenarioStringify scenarioTruthy env req world0)
    as [wt [data|e]] eqn:Et; [| vm_compute in Et; discriminate].
  exists data. split; [reflexivity|].
  destruct (token_limit_clamped scenarioStringify scenarioTruthy
              env req world0 wt data eq_refl Et) as (c & Hc & Hn & Hm).
  split; [exact Hn|].
  vm_compute in Et. injection Et as <- <-.
  vm_compute in Hc. injection Hc as <-.
  rewrite Hm; [reflexivity | discriminate].
Defined.

Lemma upstream_request_shape_witness :
  let env := scriptedEnv "o3-mini" true (streamOf []) in
  let req :=
    mkRequest (Some "o3-mini") None None
      (Some [mkMessage "user" (ScalarContent "list files");
             mkMessage "assistant"
               (PartsContent
                  [mkPart (Some "tool_result") None (Some "done") [];
                   mkPart (Some "image") (Some "plan") None []])])
      (Some [mkSystem (Some "Be brief."); mkSystem None])
      None None None in
  ∃ data,
    (translateRequest scenarioStringify scenarioTruthy env req world0).2
    = Return data
    ∧ data_messages data
      = [ {| up_role := "system"; up_content := UpScalar (Some "Be brief.") |};
          {| up_role := "system"; up_content := UpScalar None |};
          {| up_role := "system";
             up_content := UpScalar (Some defaultSystemInstruction) |};
          {| up_role := "user"; up_content := UpScalar (Some "list files") |};
          {| up_role := "assistant";
             up_content :=
               UpParts [mkPart (Some "text") (Some "done") None [];
                        mkPart (Some "image") (Some "plan") None []] |} ]
    ∧ data_stream data = true.
Proof.
  intros env req.
  destruct (translateRequest scenarioStringify scenarioTruthy env req world0)
    as [wt [data|e]] eqn:Et; [| vm_compute in Et; discriminate].
  exists data. split; [reflexivity|].
  destruct (upstream_request_shape scenarioStringify scenarioTruthy
              env req world0 wt data Et)
    as (messages & upstream & Hm & Hd & HF & Hs & _).
  split; [| exact Hs].
  injection Hm as <-.
  apply Forall2_cons_inv_l in HF as (u1 & rest1 & [Hr1 Hc1] & HF & ->).
  apply Forall2_cons_inv_l in HF as (u2 & rest2 & [Hr2 Hc2] & HF & ->).
  apply Forall2_nil_inv_l in HF as ->.
  rewrite Hd. destruct u1, u2. simpl in *. subst. reflexivity.
Defined.

Lemma scalar_messages_pass_through_witness :
  let env := scriptedEnv "o3-mini" true (streamOf []) in
  let req := userRequest (Some "o3-mini") None None None None in
  ∃ data,
    (translateRequest scenarioStringify scenarioTruthy env req world0).2
    = Return data
    ∧ Forall2
        (λ (m : @Message string) u,
           up_role u = role m
           ∧ ∃ s, msg_content m = ScalarContent s
                  ∧ up_content u = UpScalar (Some s))
        [mkMessage "user" (ScalarContent "list files")]
        (drop 1 (data_messages data)).
Proof.
  intros env req.
  destruct (translateRequest scenarioStringify scenarioTruthy env req world0)
    as [wt [data|e]] eqn:Et; [| vm_compute in Et; discriminate].
  exists data. split; [reflexivity|].
  apply (scalar_messages_pass_through scenarioStringify scenarioTruthy
           env req world0 wt data _ Et eq_refl).
  constructor; [| constructor]. exists "list files". reflexivity.
Defined.

Lemma flattenPart_idempotent_witness :
  let p := flattenPart scenarioStringify scenarioTruthy
             (mkPart (Some "tool_result") None (Some "done") []) in
  part_type p = Some "text"
  ∧ part_content p = None
  ∧ is_Some (part_text p).
Proof.
  intros p. split; [reflexivity|].
  destruct (flattenPart_idempotent scenarioStringify scenarioTruthy
              (mkPart (Some "tool_result") None (Some "done") []))
    as (_ & _ & _ & H).
  apply H. reflexivity.
Defined.

Lemma tool_descriptions_truncated_witness :
  let env := scriptedEnv "o3-mini" true (streamOf []) in
  let tools := [mkTool "run" (Some "Runs a command") None] in
  let req := userRequest (Some "o3-mini") None None (Some tools) None in
  ∃ data mapped,
    (translateRequest scenarioStringify scenarioTruthy env req world0).2
    = Return data
    ∧ data_tools data = Some mapped
    ∧ Forall2
        (λ item u,
           up_name u = tool_name item
           ∧ up_parameters u = input_schema item
           ∧ ∃ d, description item = Some d
                  ∧ String.prefix (up_description u) d = true
                  ∧ String.length (up_description u)
                    = Nat.min (String.length d) 1024)
        tools mapped.
Proof.
  intros env tools req.
  destruct (translateRequest scenarioStringify scenarioTruthy env req world0)
    as [wt [data|e]] eqn:Et; [| vm_compute in Et; discriminate].
  destruct (tool_descriptions_truncated scenarioStringify scenarioTruthy
              env req world0 wt data tools Et eq_refl) as (mapped & H1 & H2).
  exists data, mapped. split; [reflexivity|]. split; assumption.
Defined.

Lemma missing_messages_rejected_witness :
  let req := mkRequest (Some "o3-mini") None None None None None None None in
  let r := scenarioServe (scriptedEnv "o3-mini" true (streamOf [])) req world0 in
  r.2 = Return tt
  ∧ statusCode (res r.1) = 400
  ∧ jsonBody (res r.1)
    = Some {| status := "error"; body_message := message (typeError "map") |}
  ∧ written (res r.1) = []
  ∧ created r.1 = [].
Proof.
  intros req r.
  apply (missing_messages_rejected scenarioStringify scenarioParse
           scenarioTruthy (scriptedEnv "o3-mini" true (streamOf [])) req world0).
  reflexivity.
Defined.

Lemma text_only_stream_relayed_witness :
  let cs := [mkChunk 100 (textDelta "Hello"); mkChunk 200 (textDelta " world")] in
  let r := processStream scenarioParse false cs streamState0 in
  r.2 = [TextBlockStart 0; TextDelta 0 "Hello"; TextDelta 0 " world"]
  ∧ currentContentBlocks r.1
    = [ {| block_type := TextBlock; block_text := Some "Hello world";
           block_id := None; block_name := None; block_input := None |} ].
Proof.
  intros cs r.
  destruct (text_only_stream_relayed scenarioParse cs) as (_ & _ & H).
  - repeat constructor.
  - exact H.
Defined.

Lemma tool_only_stream_accumulates_witness :
  let c := mkChunk 200 (toolDelta (Some "run") (Some "{")) in
  let c' := mkChunk 300
              (toolDelta None (Some (dquote +:+ "x" +:+ dquote +:+ ":1}"))) in
  let r := processStream scenarioParse false [c; c'] streamState0 in
  r.2 = [ToolBlockStart 0 "toolu_200" (Some "run");
         InputJsonDelta 0 "{";
         InputJsonDelta 0 (dquote +:+ "x" +:+ dquote +:+ ":1}")]
  ∧ currentContentBlocks r.1
    = [ {| block_type := ToolUseBlock; block_text := None;
           block_id := Some "toolu_200"; block_name := Some (Some "run");
           block_input := Some (Parsed argsX) |} ].
Proof.
  intros c c' r.
  destruct (tool_only_stream_accumulates scenarioParse false c [c'])
    as (H1 & _ & _ & _ & H5 & H6).
  - repeat constructor.
  - fold r in H1, H5. split; [exact H1|].
    rewrite H5. rewrite (H6 argsX); [reflexivity | discriminate | reflexivity].
Defined.

Lemma listed_files_read_back_witness :
  parseFilesFromText
    (renderFiles [("main.tf", ["a = 1"; "b = 2"]); ("vars.tf", [])])
  = [("main.tf", "a = 1" +:+ newline +:+ "b = 2" +:+ newline); ("vars.tf", "")].
Proof.
  apply (listed_files_read_back
           [("main.tf", ["a = 1"; "b = 2"]); ("vars.tf", [])]).
  - constructor; [| apply NoDup_singleton].
    intros H. apply list_elem_of_singleton in H. discriminate.
  - assert (T : ∀ t, (1 ≤ String.length t)%nat →
                   allChars isFileNameChar (t +:+ ".tf") = true →
                   isTfName (t +:+ ".tf")).
    { intros t Ht Hall. split; [exists t; reflexivity|]. split; [exact Hall|].
      rewrite length_append. simpl. lia. }
    assert (C : ∀ l, allChars (λ c, negb (isLineBreak c)) l = true →
                   isBlank l = false → matchTf l = None → isContentLine l).
    { intros l H1 H2 H3. split; [exact H1 | split; assumption]. }
    constructor; [split | constructor; [split | constructor]].
    + apply (T "main"); [simpl; lia | reflexivity].
    + constructor; [apply C; reflexivity|].
      constructor; [apply C; reflexivity | constructor].
    + apply (T "vars"); [simpl; lia | reflexivity].
    + constructor.
Defined.

Lemma handler_writes_only_tf_files_witness :
  let env := scriptedEnv "o3-mini" true (streamOf tfChunks) in
  let inFileMode := userRequest (Some "o3-mini") None None None (Some "file") in
  let inStreamMode := userRequest (Some "o3-mini") None None None None in
  (∃ name content,
     disk (scenarioServe env inFileMode world0).1 = [(name, content)]
     ∧ isTfName name)
  ∧ isFileMode (req_output_mode inStreamMode) = false
  ∧ disk (scenarioServe env inStreamMode world0).1 = [].
Proof.
  intros env inFileMode inStreamMode. split; [| split; [reflexivity|]].
  - destruct (handler_writes_only_tf_files scenarioStringify scenarioParse
                scenarioTruthy env inFileMode world0) as (l & Hl & HF & _).
    unfold scenarioServe. rewrite Hl. simpl.
    vm_compute in Hl. destruct l as [|[name content] [|? ?]]; try discriminate.
    exists name, content. split; [reflexivity|].
    apply Forall_cons in HF as [HF _]. exact HF.
  - destruct (handler_writes_only_tf_files scenarioStringify scenarioParse
                scenarioTruthy env inStreamMode world0) as (l & Hl & _ & Hn).
    unfold scenarioServe. rewrite Hl, (Hn eq_refl). reflexivity.
Defined.

(** C9, as stated, fails when two resolutions of a name overlap: the second
    begins while the first awaits its lookup, so both miss the cache and
    both look the name up; the first lookup fails and the second succeeds,
    and the two resolutions return different values. *)
Lemma overlapping_resolutions_disagree :
  let first := resolveAmid scenarioStringify scenarioParse scenarioTruthy
                 recoveringEnv "o3-mini" [ResolutionBegins "o3-mini"]
                 (world0, []) in
  ∃ second,
    first.1.2 = [second]
    ∧ pending_name second = "o3-mini"
    ∧ first.2 = Return (Profile {| cfg_max_tokens := 16384 |})
    ∧ (getModelConfigResume second first.1.1).2
      = Return (Profile {| cfg_max_tokens := 100000 |})
    ∧ lookupsOf "o3-mini" first.1.1 = 2%nat.
Proof.
  eexists. split; [vm_compute; reflexivity|].
  vm_compute. repeat split; reflexivity.
Qed.

Lemma getModelConfig_idempotent_witness :
  let env := scriptedEnv "o3-mini" true (streamOf []) in
  let r1 := resolveAmid scenarioStringify scenarioParse scenarioTruthy env
              "o3-mini" [ResolutionBegins "gpt-4o"] (world0, []) in
  let st2 := runProcess scenarioStringify scenarioParse scenarioTruthy env
               [LookupSettles 0;
                RequestServed (userRequest (Some "o3-mini") None None None None);
                ResolutionBegins "o3-mini"] r1.1 in
  let r3 := getModelConfig env "o3-mini" st2.1 in
  (∃ c, r1.2 = Return c ∧ r3.2 = Return c)
  ∧ r3.1 = st2.1
  ∧ (lookupsOf "o3-mini" r3.1 ≤ lookupsOf "o3-mini" (world0 (JSON:=string)) + 1)%nat.
Proof.
  intros env.
  apply (getModelConfig_idempotent scenarioStringify scenarioParse
           scenarioTruthy env "o3-mini" [ResolutionBegins "gpt-4o"]).
  - constructor.
  - constructor; [simpl; discriminate | constructor].
Defined.

Lemma failed_lookup_pins_default_witness :
  let r1 := resolveAmid scenarioStringify scenarioParse scenarioTruthy
              recoveringEnv "o3-mini" [ResolutionBegins "gpt-4o"]
              (world0, []) in
  let st2 := runProcess scenarioStringify scenarioParse scenarioTruthy
               recoveringEnv
               [LookupSettles 0;
                RequestServed (userRequest (Some "o3-mini") None None None None)]
               r1.1 in
  r1.2 = Return (Profile {| cfg_max_tokens := 16384 |})
  ∧ getModelConfig recoveringEnv "o3-mini" st2.1
    = (st2.1, Return (Profile {| cfg_max_tokens := 16384 |})).
Proof.
  apply (failed_lookup_pins_default scenarioStringify scenarioParse
           scenarioTruthy recoveringEnv "o3-mini" [ResolutionBegins "gpt-4o"]).
  - reflexivity.
  - reflexivity.
  - reflexivity.
  - constructor.
  - constructor; [simpl; discriminate | constructor].
Defined.
